(** * ED workstation: the client of [apps/web/src/App.tsx]

    A shallow embedding of the database-backed [App] component: its React
    state, the remote relational store it talks to, the asynchronous
    handlers ([addOrder], [runAi], [applyAiOrders], ...) and the two
    [useEffect] hooks that react to a change of selection.

    Conventions of the embedding.
    - A JavaScript string is kept as the bytes of its UTF-8 form
      ([string], one [ascii] per byte; a lone surrogate as three bytes).
      [trim] removes the white space and line terminators of ECMAScript,
      inside and outside ASCII; [toUpperCase] converts the ASCII letters
      itself and takes the conversion of text outside ASCII from the
      environment.
    - Rows exchanged with the store are JavaScript objects, kept as
      association lists from column names to JSON values.
    - Every remote call resolves with [{data, error}] or rejects; which of
      the three happens is chosen by the environment, never by the client.
    - The client has no queue and cancels nothing: the browser may answer
      a request at any later time.  [step] follows one schedule, the one in
      which every request an event starts is answered before the next event
      is handled; what is proved of [step] and [run] is proved of that
      schedule. *)

From Stdlib Require Import String Ascii List Bool Arith Lia QArith.
Import ListNotations.

Set Warnings "-register-all".

Local Open Scope string_scope.
Local Open Scope list_scope.
Local Open Scope nat_scope.

(** ** JavaScript string primitives *)

Module JsString.

(** The value of a byte. *)
Definition byte (c : ascii) : nat := nat_of_ascii c.

(** White space and line terminators, which [String.prototype.trim]
    removes, by the length of their encoding.  One byte: TAB, LF, VT, FF,
    CR and SPACE. *)
Definition isWhiteSpace (c : ascii) : bool :=
  let n := nat_of_ascii c in
  ((9 <=? n) && (n <=? 13)) || (n =? 32).

(** Two bytes: U+00A0, the no-break space. *)
Definition isWhiteSpace2 (a b : ascii) : bool :=
  (byte a =? 194) && (byte b =? 160).

(** Three bytes: U+1680; U+2000 to U+200A, U+2028, U+2029 and U+202F;
    U+205F; U+3000; U+FEFF. *)
Definition isWhiteSpace3 (a b c : ascii) : bool :=
  let x := byte a in
  let y := byte b in
  let z := byte c in
  ((x =? 225) && (y =? 154) && (z =? 128))
  || ((x =? 226) && (y =? 128)
      && (((128 <=? z) && (z <=? 138)) || (z =? 168) || (z =? 169) || (z =? 175)))
  || ((x =? 226) && (y =? 129) && (z =? 159))
  || ((x =? 227) && (y =? 128) && (z =? 128))
  || ((x =? 239) && (y =? 187) && (z =? 191)).

Fixpoint trimStart (s : string) : string :=
  match s with
  | EmptyString => EmptyString
  | String a rest =>
      if isWhiteSpace a then trimStart rest else
      match rest with
      | EmptyString => s
      | String b rest2 =>
          if isWhiteSpace2 a b then trimStart rest2 else
          match rest2 with
          | EmptyString => s
          | String c rest3 => if isWhiteSpace3 a b c then trimStart rest3 else s
          end
      end
  end.

(** Nothing but white space. *)
Definition isBlank (s : string) : bool :=
  match trimStart s with EmptyString => true | String _ _ => false end.

(** What is left of [s] before its trailing white space. *)
Fixpoint trimEnd (s : string) : string :=
  match s with
  | EmptyString => EmptyString
  | String c rest => if isBlank s then EmptyString else String c (trimEnd rest)
  end.

Definition trim (s : string) : string := trimEnd (trimStart s).

(** [s.split(sep)] for a one-character separator: never the empty list. *)
Fixpoint split (sep : ascii) (s : string) : list string :=
  match s with
  | EmptyString => [EmptyString]
  | String c rest =>
      if Ascii.eqb c sep then EmptyString :: split sep rest
      else match split sep rest with
           | [] => [String c EmptyString]
           | piece :: pieces => String c piece :: pieces
           end
  end.

(** [parts.join(sep)]. *)
Fixpoint join (sep : string) (parts : list string) : string :=
  match parts with
  | [] => EmptyString
  | [p] => p
  | p :: ps => (p ++ sep ++ join sep ps)%string
  end.

(** An ASCII character is one byte below 128; the bytes of every other
    character are 128 and above. *)
Definition isAscii (c : ascii) : bool := nat_of_ascii c <? 128.

Definition upperChar (c : ascii) : ascii :=
  let n := nat_of_ascii c in
  if (97 <=? n) && (n <=? 122) then ascii_of_nat (n - 32) else c.

(** [s.toUpperCase()].  The conversion goes character by character, so a
    string is converted stretch by stretch: an ASCII character by
    [upperChar], and a stretch of characters outside ASCII by [outside],
    the engine's conversion of such text. *)
Definition converted (outside : string -> string) (stretch : string) : string :=
  match stretch with
  | EmptyString => EmptyString
  | String _ _ => outside stretch
  end.

Fixpoint upperFrom (outside : string -> string) (stretch s : string) : string :=
  match s with
  | EmptyString => converted outside stretch
  | String c rest =>
      if isAscii c
      then (converted outside stretch
            ++ String (upperChar c) (upperFrom outside EmptyString rest))%string
      else upperFrom outside (stretch ++ String c EmptyString)%string rest
  end.

Definition toUpperCase (outside : string -> string) (s : string) : string :=
  upperFrom outside EmptyString s.

(** Truthiness of a string: only [''] is falsy. *)
Definition truthy (s : string) : bool :=
  match s with EmptyString => false | _ => true end.

(** [s || fallback] on strings. *)
Definition orElse (s fallback : string) : string :=
  if truthy s then s else fallback.

(** [s.trim() || null]. *)
Definition trimOrNull (s : string) : option string :=
  if truthy (trim s) then Some (trim s) else None.

End JsString.

(** ** Order text parsing ([addOrder], lines 437-442) *)

Module OrderText.
Import JsString.

Record Parsed := { code : option string; name : string }.

(** The code's own computation on the trimmed input [val]:
    [const [codeRaw, ...nameParts] = val.split(' ')],
    [code = codeRaw ? codeRaw.toUpperCase() : null],
    [name = nameParts.join(' ') || 'General Order']. *)
Definition parseTrimmed (outside : string -> string) (val : string) : Parsed :=
  match split " " val with
  | [] => {| code := None; name := "General Order" |}
  | codeRaw :: nameParts =>
      {| code := if truthy codeRaw then Some (toUpperCase outside codeRaw) else None;
         name := orElse (join " " nameParts) "General Order" |}
  end.

(** [None] when the guard [if (!val) return] fires. *)
Definition parse (outside : string -> string) (rawInput : string) : option Parsed :=
  let val := trim rawInput in
  if truthy val then Some (parseTrimmed outside val) else None.

(** The specification's reading, written independently of [split]/[join]:
    the characters before the first space, and those after it. *)
Fixpoint firstToken (s : string) : string :=
  match s with
  | EmptyString => EmptyString
  | String c rest => if Ascii.eqb c " " then EmptyString else String c (firstToken rest)
  end.

Fixpoint remainder (s : string) : string :=
  match s with
  | EmptyString => EmptyString
  | String c rest => if Ascii.eqb c " " then rest else remainder rest
  end.

End OrderText.

(** ** JSON values and rows *)

(** A JavaScript number: not-a-number, an infinity or a finite value.  The
    finite doubles are rationals; nothing below computes with them. *)
Inductive number :=
| NaN
| Infinity (negative : bool)
| Finite (q : Q).

Inductive value :=
| VNull
| VBool (b : bool)
| VStr (s : string)
| VNum (n : number)
| VTime (instant : nat)          (* an ISO-8601 timestamp, as an instant *)
| VArr (items : list value)
| VObj (fields : list (string * value)).

(** An object literal / a row of a table. *)
Definition Row := list (string * value).

(** [row.key]; a missing key reads as [null] ([undefined] and [null] are
    not told apart: every use below is under [??] or is serialised). *)
Fixpoint get (key : string) (row : Row) : value :=
  match row with
  | [] => VNull
  | (k, v) :: rest => if String.eqb k key then v else get key rest
  end.

Definition optStr (o : option string) : value :=
  match o with Some s => VStr s | None => VNull end.

Definition optNum (o : option number) : value :=
  match o with Some n => VNum n | None => VNull end.

(** A column holding a string compared with [===] against an id. *)
Definition isStr (v : value) (s : string) : bool :=
  match v with VStr s' => String.eqb s' s | _ => false end.

Definition instantOf (v : value) : nat :=
  match v with VTime t => t | _ => 0 end.

(** [Number.isFinite(x)]: false on [null], strings, NaN and the infinities. *)
Definition isFinite (v : value) : bool :=
  match v with VNum (Finite _) => true | _ => false end.

(** ** The remote relational store *)

Inductive table :=
| patients_t | encounters_t | notes_t | orders_t | results_t
| ddx_entries_t | ai_runs_t | ai_suggestions_t | patient_events_t.

Definition table_eqb (a b : table) : bool :=
  match a, b with
  | patients_t, patients_t | encounters_t, encounters_t | notes_t, notes_t
  | orders_t, orders_t | results_t, results_t | ddx_entries_t, ddx_entries_t
  | ai_runs_t, ai_runs_t | ai_suggestions_t, ai_suggestions_t
  | patient_events_t, patient_events_t => true
  | _, _ => false
  end.

Record Store := {
  patients_rows : list Row;
  encounters_rows : list Row;
  notes_rows : list Row;
  orders_rows : list Row;
  results_rows : list Row;
  ddx_entries_rows : list Row;
  ai_runs_rows : list Row;
  ai_suggestions_rows : list Row;
  patient_events_rows : list Row;
}.

Definition emptyStore : Store :=
  Build_Store [] [] [] [] [] [] [] [] [].

Definition rowsOf (t : table) (st : Store) : list Row :=
  match t with
  | patients_t => patients_rows st
  | encounters_t => encounters_rows st
  | notes_t => notes_rows st
  | orders_t => orders_rows st
  | results_t => results_rows st
  | ddx_entries_t => ddx_entries_rows st
  | ai_runs_t => ai_runs_rows st
  | ai_suggestions_t => ai_suggestions_rows st
  | patient_events_t => patient_events_rows st
  end.

Definition withRows (t : table) (f : list Row -> list Row) (st : Store) : Store :=
  let '(Build_Store p e n o r d a s v) := st in
  match t with
  | patients_t => Build_Store (f p) e n o r d a s v
  | encounters_t => Build_Store p (f e) n o r d a s v
  | notes_t => Build_Store p e (f n) o r d a s v
  | orders_t => Build_Store p e n (f o) r d a s v
  | results_t => Build_Store p e n o (f r) d a s v
  | ddx_entries_t => Build_Store p e n o r (f d) a s v
  | ai_runs_t => Build_Store p e n o r d (f a) s v
  | ai_suggestions_t => Build_Store p e n o r d a (f s) v
  | patient_events_t => Build_Store p e n o r d a s (f v)
  end.

(** [supabase.from(t).select(cols).eq(col, v).order(col', {ascending}).limit(n)] *)
Record SelectQuery := {
  q_from : table;
  q_columns : list string;               (* ["*"] selects every column *)
  q_eq : option (string * string);
  q_order : string * bool;               (* column, ascending *)
  q_limit : option nat;
}.

Definition project (cols : list string) (r : Row) : Row :=
  if existsb (String.eqb "*") cols then r
  else filter (fun kv => existsb (String.eqb (fst kv)) cols) r.

Definition satisfies (cond : option (string * string)) (r : Row) : bool :=
  match cond with
  | None => true
  | Some (col, v) => isStr (get col r) v
  end.

(** Stable insertion sort on the instant held in column [col]. *)
Fixpoint insertBy (col : string) (ascending : bool) (r : Row) (sorted : list Row) : list Row :=
  match sorted with
  | [] => [r]
  | r' :: rest =>
      let k := instantOf (get col r) in
      let k' := instantOf (get col r') in
      if (if ascending then k <? k' else k' <? k)
      then r :: sorted
      else r' :: insertBy col ascending r rest
  end.

Definition orderBy (col : string) (ascending : bool) (rows : list Row) : list Row :=
  fold_right (fun r acc => insertBy col ascending r acc) [] (rev rows).

Definition limitTo (n : option nat) (rows : list Row) : list Row :=
  match n with Some k => firstn k rows | None => rows end.

Definition evalSelect (q : SelectQuery) (st : Store) : list Row :=
  map (project (q_columns q))
      (limitTo (q_limit q)
         (orderBy (fst (q_order q)) (snd (q_order q))
            (filter (satisfies (q_eq q)) (rowsOf (q_from q) st)))).

(** What a remote call does, as seen by the client. *)
Inductive Outcome :=
| Ok                          (* resolves with [error: null] *)
| Failed (message : string)   (* resolves with [error: {message}] *)
| Rejected.                   (* the promise rejects *)

(** ** The AI function's reply ([AiFunctionResult]) *)

(** The type the client declares for the reply (lines 81-84).  [runAi]
    casts the reply to it without looking ([data as AiFunctionResult], line
    601): what is proved of [runAi] is proved of the replies that have this
    shape. *)

Record Diagnosis := {
  d_name : string;
  d_prob : option number;
  d_reason : option string;
}.

Record Recommendation := {
  r_code : option string;
  r_name : string;
  r_reason : option string;
}.

Record AiFunctionResult := {
  diagnoses : option (list Diagnosis);
  recommendations : option (list Recommendation);
}.

Inductive InvokeOutcome :=
| Replied (result : AiFunctionResult)
| InvokeFailed (message : string)
| InvokeRejected.

Definition jsonOfDiagnosis (d : Diagnosis) : value :=
  VObj [("name", VStr (d_name d)); ("prob", optNum (d_prob d)); ("reason", optStr (d_reason d))].

Definition jsonOfRecommendation (r : Recommendation) : value :=
  VObj [("code", optStr (r_code r)); ("name", VStr (r_name r)); ("reason", optStr (r_reason r))].

Definition optArr {A} (f : A -> value) (o : option (list A)) : value :=
  match o with Some l => VArr (map f l) | None => VNull end.

Definition jsonOfResult (r : AiFunctionResult) : value :=
  VObj [("diagnoses", optArr jsonOfDiagnosis (diagnoses r));
        ("recommendations", optArr jsonOfRecommendation (recommendations r))].

(** ** Everything outside the client *)

Record Env := {
  (* outcome of the store call issued at a given instant on a given table *)
  storeOutcome : table -> nat -> Outcome;
  (* outcome of [supabase.functions.invoke] issued at a given instant *)
  invokeOutcome : nat -> InvokeOutcome;
  (* identifiers the store generates: instant of the insert, index in the batch *)
  uuid : nat -> nat -> string;
  (* [Number(s)] *)
  toNumber : string -> number;
  (* [new Date(s)]: [None] is an invalid date, on which [toISOString] throws *)
  parseDate : string -> option nat;
  (* [s.toUpperCase()] for a text [s] without ASCII characters *)
  upperCase : string -> string;
}.

(** ** React state of [App] *)

(** The text inputs, one [useState<string>] each. *)
Inductive Input :=
| newPatientName | newPatientMrn | newPatientSex
| newEncounterLocation | newEncounterArrivalAt
| orderInput
| resultCategory | resultName | resultValue | resultUnit | resultFlag
| ddxName | ddxProb | ddxReason.

Definition inputIndex (i : Input) : nat :=
  match i with
  | newPatientName => 0 | newPatientMrn => 1 | newPatientSex => 2
  | newEncounterLocation => 3 | newEncounterArrivalAt => 4
  | orderInput => 5
  | resultCategory => 6 | resultName => 7 | resultValue => 8
  | resultUnit => 9 | resultFlag => 10
  | ddxName => 11 | ddxProb => 12 | ddxReason => 13
  end.

Definition initialInput (i : Input) : string :=
  match i with
  | newEncounterLocation => "ER-012"
  | resultCategory => "lab"
  | _ => ""
  end.

(** The note being edited in the modal. *)
Record NoteDraft := {
  draft_id : option string;
  draft_note_type : string;
  draft_title : string;
  draft_content : string;
  draft_occurred_at : value;
}.

Record UI := {
  patients : list Row;
  selectedPatientId : option string;
  encounters : list Row;
  selectedEncounterId : option string;
  notes : list Row;
  orders : list Row;
  results : list Row;
  ddx : list Row;
  isBusy : bool;
  isPatientModalOpen : bool;
  inputs : Input -> string;
  editingNote : option NoteDraft;
  isAiLoading : bool;
  latestAiRun : option Row;
  aiSuggestions : list Row;
  selectedAiOrderSuggestionIds : list string;
}.

Definition initialUI : UI := {|
  patients := []; selectedPatientId := None;
  encounters := []; selectedEncounterId := None;
  notes := []; orders := []; results := []; ddx := [];
  isBusy := false; isPatientModalOpen := false;
  inputs := initialInput; editingNote := None;
  isAiLoading := false; latestAiRun := None; aiSuggestions := [];
  selectedAiOrderSuggestionIds := [];
|}.

(** What the client does that the outside can observe. *)
Inductive Effect :=
| Select (q : SelectQuery)
| Insert (t : table) (rows : list Row)
| Update (t : table) (patch : Row) (col : string) (v : string)
| Invoke (fn : string) (body : value)
| Alert (message : string)
| ConsoleError (label : string).

Record World := {
  store : Store;
  ui : UI;
  trace : list Effect;    (* oldest first *)
  clock : nat;            (* advanced by every remote call *)
}.

Definition boot (st : Store) : World :=
  {| store := st; ui := initialUI; trace := []; clock := 0 |}.

Definition withUI (f : UI -> UI) (w : World) : World :=
  {| store := store w; ui := f (ui w); trace := trace w; clock := clock w |}.

Definition withStore (f : Store -> Store) (w : World) : World :=
  {| store := f (store w); ui := ui w; trace := trace w; clock := clock w |}.

Definition emit (e : Effect) (w : World) : World :=
  {| store := store w; ui := ui w; trace := trace w ++ [e]; clock := clock w |}.

Definition tick (w : World) : World :=
  {| store := store w; ui := ui w; trace := trace w; clock := S (clock w) |}.

(** ** The monad of handlers: environment, world, and JavaScript exceptions *)

Inductive Completion (A : Type) :=
| Normal (a : A)
| Thrown.
Arguments Normal {A} a.
Arguments Thrown {A}.

Definition Js (A : Type) : Type := Env -> World -> Completion A * World.

Definition ret {A} (a : A) : Js A := fun _ w => (Normal a, w).

Definition bind {A B} (m : Js A) (k : A -> Js B) : Js B :=
  fun env w =>
    match m env w with
    | (Normal a, w') => k a env w'
    | (Thrown, w') => (Thrown, w')
    end.

Definition throw {A} : Js A := fun _ w => (Thrown, w).

Declare Scope js_scope.
Delimit Scope js_scope with js.
Notation "x <- m ;; k" := (bind m (fun x => k))
  (at level 100, m at next level, right associativity) : js_scope.
Notation "m ;; k" := (bind m (fun _ => k))
  (at level 100, right associativity) : js_scope.
Local Open Scope js_scope.

(** [try { m } catch { handler }] *)
Definition tryCatch {A} (m : Js A) (handler : Js A) : Js A :=
  fun env w =>
    match m env w with
    | (Normal a, w') => (Normal a, w')
    | (Thrown, w') => handler env w'
    end.

(** [try { m } finally { fin }] *)
Definition tryFinally {A} (m : Js A) (fin : Js unit) : Js A :=
  fun env w =>
    match m env w with
    | (c, w') =>
        match fin env w' with
        | (Normal _, w'') => (c, w'')
        | (Thrown, w'') => (Thrown, w'')
        end
    end.

(** A call that is started and not awaited: its rejection is unhandled.
    The call is followed to its end on the spot, as if its requests were
    answered at once; in the browser the answers come later, and what the
    call does with them comes after whatever happened in between. *)
Definition spawn (m : Js unit) : Js unit :=
  fun env w => (Normal tt, snd (m env w)).

(** [Promise.all([a, b])]: both requests are issued; rejects if one does. *)
Definition both {A B} (a : Js A) (b : Js B) : Js (A * B) :=
  fun env w =>
    match a env w with
    | (ca, w1) =>
        match b env w1 with
        | (cb, w2) =>
            match ca, cb with
            | Normal x, Normal y => (Normal (x, y), w2)
            | _, _ => (Thrown, w2)
            end
        end
    end.

Fixpoint forEach {A} (l : list A) (body : A -> Js unit) : Js unit :=
  match l with
  | [] => ret tt
  | x :: rest => body x ;; forEach rest body
  end.

(** The global [Number], as the function it is. *)
Definition globalNumber : Js (string -> number) := fun env w => (Normal (toNumber env), w).

(** What [String.prototype.toUpperCase] consults for text outside ASCII. *)
Definition upperCaseTable : Js (string -> string) := fun env w => (Normal (upperCase env), w).

(** [new Date(s)] for a string. *)
Definition newDate (s : string) : Js (option nat) := fun env w => (Normal (parseDate env s), w).

(** [new Date()], as an instant. *)
Definition now : Js nat := fun _ w => (Normal (clock w), w).

Definition setState (f : UI -> UI) : Js unit := fun _ w => (Normal tt, withUI f w).

Definition alert (message : string) : Js unit :=
  fun _ w => (Normal tt, emit (Alert message) w).

Definition consoleError (label : string) : Js unit :=
  fun _ w => (Normal tt, emit (ConsoleError label) w).

(** The state setters returned by [useState]. *)

Definition setPatients (v : list Row) : Js unit :=
  setState (fun '(Build_UI _ a1 a2 a3 a4 a5 a6 a7 a8 a9 a10 a11 a12 a13 a14 a15) =>
    Build_UI v a1 a2 a3 a4 a5 a6 a7 a8 a9 a10 a11 a12 a13 a14 a15).

Definition setSelectedPatientId (v : option string) : Js unit :=
  setState (fun '(Build_UI a0 _ a2 a3 a4 a5 a6 a7 a8 a9 a10 a11 a12 a13 a14 a15) =>
    Build_UI a0 v a2 a3 a4 a5 a6 a7 a8 a9 a10 a11 a12 a13 a14 a15).

Definition setEncounters (v : list Row) : Js unit :=
  setState (fun '(Build_UI a0 a1 _ a3 a4 a5 a6 a7 a8 a9 a10 a11 a12 a13 a14 a15) =>
    Build_UI a0 a1 v a3 a4 a5 a6 a7 a8 a9 a10 a11 a12 a13 a14 a15).

Definition setSelectedEncounterId (v : option string) : Js unit :=
  setState (fun '(Build_UI a0 a1 a2 _ a4 a5 a6 a7 a8 a9 a10 a11 a12 a13 a14 a15) =>
    Build_UI a0 a1 a2 v a4 a5 a6 a7 a8 a9 a10 a11 a12 a13 a14 a15).

Definition setNotes (v : list Row) : Js unit :=
  setState (fun '(Build_UI a0 a1 a2 a3 _ a5 a6 a7 a8 a9 a10 a11 a12 a13 a14 a15) =>
    Build_UI a0 a1 a2 a3 v a5 a6 a7 a8 a9 a10 a11 a12 a13 a14 a15).

Definition setOrders (v : list Row) : Js unit :=
  setState (fun '(Build_UI a0 a1 a2 a3 a4 _ a6 a7 a8 a9 a10 a11 a12 a13 a14 a15) =>
    Build_UI a0 a1 a2 a3 a4 v a6 a7 a8 a9 a10 a11 a12 a13 a14 a15).

Definition setResults (v : list Row) : Js unit :=
  setState (fun '(Build_UI a0 a1 a2 a3 a4 a5 _ a7 a8 a9 a10 a11 a12 a13 a14 a15) =>
    Build_UI a0 a1 a2 a3 a4 a5 v a7 a8 a9 a10 a11 a12 a13 a14 a15).

Definition setDdx (v : list Row) : Js unit :=
  setState (fun '(Build_UI a0 a1 a2 a3 a4 a5 a6 _ a8 a9 a10 a11 a12 a13 a14 a15) =>
    Build_UI a0 a1 a2 a3 a4 a5 a6 v a8 a9 a10 a11 a12 a13 a14 a15).

Definition setIsBusy (v : bool) : Js unit :=
  setState (fun '(Build_UI a0 a1 a2 a3 a4 a5 a6 a7 _ a9 a10 a11 a12 a13 a14 a15) =>
    Build_UI a0 a1 a2 a3 a4 a5 a6 a7 v a9 a10 a11 a12 a13 a14 a15).

Definition setIsPatientModalOpen (v : bool) : Js unit :=
  setState (fun '(Build_UI a0 a1 a2 a3 a4 a5 a6 a7 a8 _ a10 a11 a12 a13 a14 a15) =>
    Build_UI a0 a1 a2 a3 a4 a5 a6 a7 a8 v a10 a11 a12 a13 a14 a15).

Definition setEditingNote (v : option NoteDraft) : Js unit :=
  setState (fun '(Build_UI a0 a1 a2 a3 a4 a5 a6 a7 a8 a9 a10 _ a12 a13 a14 a15) =>
    Build_UI a0 a1 a2 a3 a4 a5 a6 a7 a8 a9 a10 v a12 a13 a14 a15).

Definition setIsAiLoading (v : bool) : Js unit :=
  setState (fun '(Build_UI a0 a1 a2 a3 a4 a5 a6 a7 a8 a9 a10 a11 _ a13 a14 a15) =>
    Build_UI a0 a1 a2 a3 a4 a5 a6 a7 a8 a9 a10 a11 v a13 a14 a15).

Definition setLatestAiRun (v : option Row) : Js unit :=
  setState (fun '(Build_UI a0 a1 a2 a3 a4 a5 a6 a7 a8 a9 a10 a11 a12 _ a14 a15) =>
    Build_UI a0 a1 a2 a3 a4 a5 a6 a7 a8 a9 a10 a11 a12 v a14 a15).

Definition setAiSuggestions (v : list Row) : Js unit :=
  setState (fun '(Build_UI a0 a1 a2 a3 a4 a5 a6 a7 a8 a9 a10 a11 a12 a13 _ a15) =>
    Build_UI a0 a1 a2 a3 a4 a5 a6 a7 a8 a9 a10 a11 a12 a13 v a15).

Definition setSelectedAiOrderSuggestionIds (v : list string) : Js unit :=
  setState (fun '(Build_UI a0 a1 a2 a3 a4 a5 a6 a7 a8 a9 a10 a11 a12 a13 a14 _) =>
    Build_UI a0 a1 a2 a3 a4 a5 a6 a7 a8 a9 a10 a11 a12 a13 a14 v).

Definition setInput (i : Input) (v : string) : Js unit :=
  setState (fun '(Build_UI a0 a1 a2 a3 a4 a5 a6 a7 a8 a9 a10 a11 a12 a13 a14 a15) =>
    Build_UI a0 a1 a2 a3 a4 a5 a6 a7 a8 a9 (fun j => if inputIndex j =? inputIndex i then v else a10 j) a11 a12 a13 a14 a15).

(** ** Calls to the store *)

(** The body of a resolved store call: [{data, error}] with one of the two
    set ([data ?? []] is what every caller reads). *)
Inductive Response :=
| Data (rows : list Row)
| Error (message : string).

Definition dataOr (r : Response) : list Row :=
  match r with Data rows => rows | Error _ => [] end.

(** [.single()]: exactly one row, or an error. *)
Definition single (r : Response) : Row + string :=
  match r with
  | Data [row] => inl row
  | Data _ => inr "JSON object requested, multiple (or no) rows returned"
  | Error m => inr m
  end.

Definition idOf (r : Row) : string :=
  match get "id" r with VStr s => s | _ => "" end.

(** The store completes an inserted row with its generated columns (the
    columns with a default are always supplied by the client, or never read). *)
Fixpoint stamp (env : Env) (instant index : nat) (rows : list Row) : list Row :=
  match rows with
  | [] => []
  | r :: rest =>
      (("id", VStr (uuid env instant index)) :: ("created_at", VTime instant) :: r)
        :: stamp env instant (S index) rest
  end.

(** A store call: the request is issued (and traced), time passes, and the
    environment decides how it ends. [apply] is what a successful call does
    to the store and what rows it returns. *)
Definition storeCall (t : table) (request : Effect)
    (apply : Env -> nat -> Store -> Store * list Row) : Js Response :=
  fun env w =>
    let w1 := tick (emit request w) in
    match storeOutcome env t (clock w) with
    | Ok =>
        let '(st', rows) := apply env (clock w) (store w) in
        (Normal (Data rows), withStore (fun _ => st') w1)
    | Failed m => (Normal (Error m), w1)
    | Rejected => (Thrown, w1)
    end.

(** [supabase.from(t).select(...)...] *)
Definition dbSelect (q : SelectQuery) : Js Response :=
  storeCall (q_from q) (Select q) (fun _ _ st => (st, evalSelect q st)).

(** [supabase.from(t).insert(rows)], with [.select(cols)] when [returning]
    is given; without it [data] is [null]. *)
Definition dbInsert (t : table) (rows : list Row) (returning : option (list string)) : Js Response :=
  storeCall t (Insert t rows)
    (fun env instant st =>
       let inserted := stamp env instant 0 rows in
       (withRows t (fun old => old ++ inserted) st,
        match returning with
        | Some cols => map (project cols) inserted
        | None => []
        end)).

(** [supabase.from(t).update(patch).eq(col, v)] *)
Definition dbUpdate (t : table) (patch : Row) (col v : string) : Js Response :=
  storeCall t (Update t patch col v)
    (fun _ _ st =>
       (withRows t (map (fun r => if isStr (get col r) v then patch ++ r else r)) st, [])).

(** [supabase.functions.invoke(fn, {body})]: [inl data] or [inr error.message]. *)
Definition invoke (fn : string) (body : value) : Js (AiFunctionResult + string) :=
  fun env w =>
    let w1 := tick (emit (Invoke fn body) w) in
    match invokeOutcome env (clock w) with
    | Replied r => (Normal (inl r), w1)
    | InvokeFailed m => (Normal (inr m), w1)
    | InvokeRejected => (Thrown, w1)
    end.

(** [!!id] on a nullable string: [null] and [''] are falsy. *)
Definition nonEmptyId (o : option string) : option string :=
  match o with
  | Some s => if JsString.truthy s then Some s else None
  | None => None
  end.

Definition truthyValue (v : value) : bool :=
  match v with
  | VNull => false
  | VBool b => b
  | VStr s => JsString.truthy s
  | VNum NaN => false
  | VNum (Finite q) => negb (Qeq_bool q 0)
  | _ => true
  end.

(** [new Date(x).toISOString()]: throws a [RangeError] on an invalid date. *)
Definition toISOString (x : value) : Js nat :=
  match x with
  | VTime t => ret t
  | VStr s =>
      d <- newDate s ;;
      match d with Some t => ret t | None => throw end
  | _ => throw
  end.

Definition selectStar (t : table) (col v : string) (orderCol : string) (ascending : bool)
  : SelectQuery :=
  {| q_from := t; q_columns := ["*"]; q_eq := Some (col, v);
     q_order := (orderCol, ascending); q_limit := None |}.

(** ** Timeline logging ([logEvent], lines 172-199) *)

(** Best-effort: the response of the insert is not looked at, and a
    rejection is caught and ignored. *)
Definition logEvent (encounter_id actor_type event_type : string)
    (entity_table : option string) (entity_id : value)
    (summary : option string) (payload : option value) : Js unit :=
  tryCatch
    (occurred_at <- now ;;
     _ <- dbInsert patient_events_t
       [[("encounter_id", VStr encounter_id);
         ("actor_type", VStr actor_type);
         ("event_type", VStr event_type);
         ("entity_table", optStr entity_table);
         ("entity_id", entity_id);
         ("summary", optStr summary);
         ("payload", match payload with Some p => p | None => VObj [] end);
         ("occurred_at", VTime occurred_at)]] None ;;
     ret tt)
    (ret tt).

(** ** Fetches (lines 204-294) *)

Definition fetchPatients : Js unit :=
  res <- dbSelect {| q_from := patients_t;
                     q_columns := ["id"; "mrn"; "name"; "sex"; "dob"];
                     q_eq := None;
                     q_order := ("created_at", false);
                     q_limit := None |} ;;
  match res with
  | Error _ => consoleError "fetchPatients failed:"
  | Data data => setPatients data
  end.

Definition fetchEncounters (patientId : string) : Js unit :=
  res <- dbSelect {| q_from := encounters_t;
                     q_columns := ["id"; "patient_id"; "arrival_at"; "location"; "status"];
                     q_eq := Some ("patient_id", patientId);
                     q_order := ("created_at", false);
                     q_limit := None |} ;;
  match res with
  | Error _ => consoleError "fetchEncounters failed:"
  | Data data => setEncounters data
  end.

Definition reportError (res : Response) (label : string) : Js unit :=
  match res with
  | Error _ => consoleError label
  | Data _ => ret tt
  end.

Definition fetchEncounterData (encounterId : string) : Js unit :=
  setIsBusy true ;;
  tryFinally
    (all <- both
       (both (dbSelect (selectStar notes_t "encounter_id" encounterId "occurred_at" false))
             (dbSelect (selectStar orders_t "encounter_id" encounterId "occurred_at" false)))
       (both (dbSelect (selectStar results_t "encounter_id" encounterId "occurred_at" false))
             (dbSelect (selectStar ddx_entries_t "encounter_id" encounterId "occurred_at" false))) ;;
     let '((notesRes, ordersRes), (resultsRes, ddxRes)) := all in
     reportError notesRes "fetch notes failed:" ;;
     reportError ordersRes "fetch orders failed:" ;;
     reportError resultsRes "fetch results failed:" ;;
     reportError ddxRes "fetch ddx failed:" ;;
     setNotes (dataOr notesRes) ;;
     setOrders (dataOr ordersRes) ;;
     setResults (dataOr resultsRes) ;;
     setDdx (dataOr ddxRes))
    (setIsBusy false).

Definition fetchLatestAi (encounterId : string) : Js unit :=
  runRes <- dbSelect {| q_from := ai_runs_t;
                        q_columns := ["id"; "encounter_id"; "provider"; "model"; "status"; "created_at"];
                        q_eq := Some ("encounter_id", encounterId);
                        q_order := ("created_at", false);
                        q_limit := Some 1 |} ;;
  match runRes with
  | Error _ =>
      consoleError "fetchLatestAi run failed:" ;;
      setLatestAiRun None ;;
      setAiSuggestions []
  | Data runData =>
      let run := hd_error runData in
      setLatestAiRun run ;;
      match run with
      | None => setAiSuggestions []
      | Some run =>
          sugRes <- dbSelect (selectStar ai_suggestions_t "ai_run_id" (idOf run) "created_at" true) ;;
          match sugRes with
          | Error _ =>
              consoleError "fetchLatestAi suggestions failed:" ;;
              setAiSuggestions []
          | Data sugData => setAiSuggestions sugData
          end
      end
  end.

(** ** The two selection effects (lines 304-327) *)

Definition patientEffect (u : UI) : Js unit :=
  match nonEmptyId (selectedPatientId u) with
  | None => setEncounters [] ;; setSelectedEncounterId None
  | Some patientId => spawn (fetchEncounters patientId)
  end.

Definition encounterEffect (u : UI) : Js unit :=
  match nonEmptyId (selectedEncounterId u) with
  | None =>
      setNotes [] ;;
      setOrders [] ;;
      setResults [] ;;
      setDdx [] ;;
      setLatestAiRun None ;;
      setAiSuggestions [] ;;
      setSelectedAiOrderSuggestionIds []
  | Some encounterId =>
      spawn (fetchEncounterData encounterId) ;;
      spawn (fetchLatestAi encounterId)
  end.

(** ** Mutations: patients and encounters (lines 332-383) *)

Definition createPatient (u : UI) : Js unit :=
  let name := JsString.trim (inputs u newPatientName) in
  if negb (JsString.truthy name) then ret tt else
  let mrn := JsString.trimOrNull (inputs u newPatientMrn) in
  let sex := JsString.trimOrNull (inputs u newPatientSex) in
  res <- dbInsert patients_t
           [[("name", VStr name); ("mrn", optStr mrn); ("sex", optStr sex)]]
           (Some ["id"; "mrn"; "name"; "sex"; "dob"]) ;;
  match single res with
  | inr message =>
      consoleError "createPatient failed:" ;;
      alert ("新增患者失敗: " ++ message)
  | inl data =>
      setIsPatientModalOpen false ;;
      setInput newPatientName "" ;;
      setInput newPatientMrn "" ;;
      setInput newPatientSex "" ;;
      fetchPatients ;;
      setSelectedPatientId (Some (idOf data))
  end.

Definition createEncounter (u : UI) : Js unit :=
  match nonEmptyId (selectedPatientId u) with
  | None => ret tt
  | Some patientId =>
      arrival_at <-
        (if JsString.truthy (JsString.trim (inputs u newEncounterArrivalAt))
         then toISOString (VStr (inputs u newEncounterArrivalAt))
         else now) ;;
      let location := JsString.trimOrNull (inputs u newEncounterLocation) in
      res <- dbInsert encounters_t
               [[("patient_id", VStr patientId); ("arrival_at", VTime arrival_at);
                 ("location", optStr location); ("status", VStr "active")]]
               (Some ["id"; "patient_id"; "arrival_at"; "location"; "status"]) ;;
      match single res with
      | inr message =>
          consoleError "createEncounter failed:" ;;
          alert ("新增就診失敗: " ++ message)
      | inl data =>
          fetchEncounters patientId ;;
          setSelectedEncounterId (Some (idOf data))
      end
  end.

(** ** Mutations: notes, orders, results, ddx (lines 388-559) *)

Definition saveNote (u : UI) : Js unit :=
  match nonEmptyId (selectedEncounterId u), editingNote u with
  | Some encounterId, Some note =>
      occurred_at <-
        (if truthyValue (draft_occurred_at note)
         then toISOString (draft_occurred_at note)
         else now) ;;
      let payload : Row :=
        [("encounter_id", VStr encounterId);
         ("note_type", VStr (draft_note_type note));
         ("title", optStr (JsString.trimOrNull (draft_title note)));
         ("content", VStr (draft_content note));
         ("occurred_at", VTime occurred_at)] in
      saved <-
        match nonEmptyId (draft_id note) with
        | Some noteId =>
            res <- dbUpdate notes_t payload "id" noteId ;;
            match res with
            | Error message =>
                consoleError "update note failed:" ;;
                alert ("更新病歷失敗: " ++ message) ;;
                ret false
            | Data _ =>
                logEvent encounterId "human" "note_updated" (Some "notes")
                         (VStr noteId) (Some "Note updated") None ;;
                ret true
            end
        | None =>
            res <- dbInsert notes_t [payload] (Some ["*"]) ;;
            match single res with
            | inr message =>
                consoleError "insert note failed:" ;;
                alert ("新增病歷失敗: " ++ message) ;;
                ret false
            | inl data =>
                logEvent encounterId "human" "note_created" (Some "notes")
                         (get "id" data) (Some "Note created") None ;;
                ret true
            end
        end ;;
      if saved : bool then
        setEditingNote None ;;
        fetchEncounterData encounterId
      else ret tt
  | _, _ => ret tt
  end.

Definition orderRow (encounterId : string) (p : OrderText.Parsed) (occurred_at : nat) : Row :=
  [("encounter_id", VStr encounterId);
   ("code", optStr (OrderText.code p));
   ("name", VStr (OrderText.name p));
   ("status", VStr "sent");
   ("occurred_at", VTime occurred_at)].

Definition addOrder (u : UI) (rawInput : string) : Js unit :=
  match nonEmptyId (selectedEncounterId u) with
  | None => ret tt
  | Some encounterId =>
      outside <- upperCaseTable ;;
      match OrderText.parse outside rawInput with
      | None => ret tt
      | Some parsed =>
          occurred_at <- now ;;
          res <- dbInsert orders_t [orderRow encounterId parsed occurred_at] (Some ["*"]) ;;
          match single res with
          | inr message =>
              consoleError "insert order failed:" ;;
              alert ("新增醫囑失敗: " ++ message)
          | inl data =>
              logEvent encounterId "human" "order_created" (Some "orders") (get "id" data)
                (Some ("Order: " ++
                       match OrderText.code parsed with Some c => c | None => "" end
                       ++ " " ++ OrderText.name parsed)%string) None ;;
              setInput orderInput "" ;;
              fetchEncounterData encounterId
          end
      end
  end.

Definition addResult (u : UI) : Js unit :=
  match nonEmptyId (selectedEncounterId u) with
  | None => ret tt
  | Some encounterId =>
      let name := JsString.trim (inputs u resultName) in
      if negb (JsString.truthy name) then ret tt else
      occurred_at <- now ;;
      res <- dbInsert results_t
               [[("encounter_id", VStr encounterId);
                 ("category", VStr (inputs u resultCategory));
                 ("name", VStr name);
                 ("value", optStr (JsString.trimOrNull (inputs u resultValue)));
                 ("unit", optStr (JsString.trimOrNull (inputs u resultUnit)));
                 ("flag", optStr (JsString.trimOrNull (inputs u resultFlag)));
                 ("occurred_at", VTime occurred_at)]]
               (Some ["*"]) ;;
      match single res with
      | inr message =>
          consoleError "insert result failed:" ;;
          alert ("新增報告失敗: " ++ message)
      | inl data =>
          logEvent encounterId "human" "result_created" (Some "results") (get "id" data)
            (Some ("Result: " ++ name)%string) None ;;
          setInput resultName "" ;;
          setInput resultValue "" ;;
          setInput resultUnit "" ;;
          setInput resultFlag "" ;;
          fetchEncounterData encounterId
      end
  end.

(** [prob] as sent to the store by [addHumanDdx] (lines 521 and 532):
    [ddxProb.trim() ? Number(ddxProb) : null], then
    [Number.isFinite(prob) ? prob : null]. *)
Definition humanProb (Number : string -> number) (ddxProbText : string) : value :=
  let prob :=
    if JsString.truthy (JsString.trim ddxProbText)
    then VNum (Number ddxProbText)
    else VNull in
  if isFinite prob then prob else VNull.

Definition addHumanDdx (u : UI) : Js unit :=
  match nonEmptyId (selectedEncounterId u) with
  | None => ret tt
  | Some encounterId =>
      let name := JsString.trim (inputs u ddxName) in
      if negb (JsString.truthy name) then ret tt else
      Number <- globalNumber ;;
      let reason := JsString.trimOrNull (inputs u ddxReason) in
      occurred_at <- now ;;
      res <- dbInsert ddx_entries_t
               [[("encounter_id", VStr encounterId);
                 ("source", VStr "human");
                 ("name", VStr name);
                 ("prob", humanProb Number (inputs u ddxProb));
                 ("reason", optStr reason);
                 ("occurred_at", VTime occurred_at)]]
               (Some ["*"]) ;;
      match single res with
      | inr message =>
          consoleError "insert ddx failed:" ;;
          alert ("新增鑑別診斷失敗: " ++ message)
      | inl data =>
          logEvent encounterId "human" "ddx_added" (Some "ddx_entries") (get "id" data)
            (Some ("DDX (human): " ++ name)%string) None ;;
          setInput ddxName "" ;;
          setInput ddxProb "" ;;
          setInput ddxReason "" ;;
          fetchEncounterData encounterId
      end
  end.

(** ** The AI round trip ([runAi], lines 564-695) *)

Definition aiContext (encounterId : string) (u : UI) : value :=
  VObj
    [("encounter_id", VStr encounterId);
     ("notes", VArr (map (fun n => VObj [("note_type", get "note_type" n);
                                         ("title", get "title" n);
                                         ("content", get "content" n);
                                         ("occurred_at", get "occurred_at" n)]) (notes u)));
     ("orders", VArr (map (fun o => VObj [("code", get "code" o);
                                          ("name", get "name" o);
                                          ("status", get "status" o);
                                          ("occurred_at", get "occurred_at" o)]) (orders u)));
     ("results", VArr (map (fun r => VObj [("category", get "category" r);
                                           ("name", get "name" r);
                                           ("value", get "value" r);
                                           ("unit", get "unit" r);
                                           ("flag", get "flag" r);
                                           ("occurred_at", get "occurred_at" r)]) (results u)));
     ("ddx", VArr (map (fun d => VObj [("source", get "source" d);
                                       ("name", get "name" d);
                                       ("prob", get "prob" d);
                                       ("reason", get "reason" d)]) (ddx u)))].

Definition orEmpty {A} (o : option (list A)) : list A :=
  match o with Some l => l | None => [] end.

Definition diagRows (encounterId aiRunId : string) (result : AiFunctionResult) : list Row :=
  map (fun d => [("encounter_id", VStr encounterId);
                 ("ai_run_id", VStr aiRunId);
                 ("suggestion_type", VStr "diagnosis");
                 ("code", VNull);
                 ("name", VStr (d_name d));
                 ("prob", optNum (d_prob d));
                 ("reason", optStr (d_reason d));
                 ("raw", jsonOfDiagnosis d)])
      (orEmpty (diagnoses result)).

Definition orderRows (encounterId aiRunId : string) (result : AiFunctionResult) : list Row :=
  map (fun r => [("encounter_id", VStr encounterId);
                 ("ai_run_id", VStr aiRunId);
                 ("suggestion_type", VStr "order");
                 ("code", optStr (r_code r));
                 ("name", VStr (r_name r));
                 ("prob", VNull);
                 ("reason", optStr (r_reason r));
                 ("raw", jsonOfRecommendation r)])
      (orEmpty (recommendations result)).

Definition ddxRows (encounterId aiRunId : string) (result : AiFunctionResult)
    (occurred_at : nat) : list Row :=
  map (fun d => [("encounter_id", VStr encounterId);
                 ("source", VStr "ai");
                 ("name", VStr (d_name d));
                 ("prob", optNum (d_prob d));
                 ("reason", optStr (d_reason d));
                 ("occurred_at", VTime occurred_at);
                 ("data", VObj [("ai_run_id", VStr aiRunId)])])
      (orEmpty (diagnoses result)).

(** The body of the [try] block. *)
Definition runAiBody (encounterId : string) (u : UI) : Js unit :=
  let context := aiContext encounterId u in
  reply <- invoke "ai-analyze" context ;;
  match reply with
  | inr message =>
      consoleError "ai function error:" ;;
      alert ("AI 分析失敗: " ++ message)
  | inl result =>
      let provider := "gemini" in
      let model := "gemini-2.0-flash" in
      runRes <- dbInsert ai_runs_t
                  [[("encounter_id", VStr encounterId);
                    ("provider", VStr provider);
                    ("model", VStr model);
                    ("status", VStr "completed");
                    ("prompt", context);
                    ("response", jsonOfResult result)]]
                  (Some ["id"; "encounter_id"; "provider"; "model"; "status"; "created_at"]) ;;
      match single runRes with
      | inr message =>
          consoleError "insert ai_runs failed:" ;;
          alert ("AI 結果儲存失敗(ai_runs): " ++ message)
      | inl runRow =>
          let aiRunId := idOf runRow in
          logEvent encounterId "ai" "ai_run_completed" (Some "ai_runs") (VStr aiRunId)
            (Some "AI run completed")
            (Some (VObj [("provider", VStr provider); ("model", VStr model)])) ;;
          sugRes <- dbInsert ai_suggestions_t
                      (diagRows encounterId aiRunId result ++ orderRows encounterId aiRunId result)
                      None ;;
          match sugRes with
          | Error message =>
              consoleError "insert ai_suggestions failed:" ;;
              alert ("AI 結果儲存失敗(ai_suggestions): " ++ message)
          | Data _ =>
              occurred_at <- now ;;
              ddxRes <- dbInsert ddx_entries_t
                          (ddxRows encounterId aiRunId result occurred_at) None ;;
              reportError ddxRes "insert ddx_entries(ai) failed:" ;;
              fetchEncounterData encounterId ;;
              fetchLatestAi encounterId
          end
      end
  end.

Definition runAi (u : UI) : Js unit :=
  match nonEmptyId (selectedEncounterId u), isAiLoading u with
  | Some encounterId, false =>
      setIsAiLoading true ;;
      setSelectedAiOrderSuggestionIds [] ;;
      tryFinally
        (tryCatch (runAiBody encounterId u)
                  (consoleError "" ;; alert "AI 連線失敗"))
        (setIsAiLoading false)
  | _, _ => ret tt
  end.

(** ** Applying AI order suggestions ([applyAiOrders], lines 697-735) *)

Definition includesId (ids : list string) (v : value) : bool :=
  match v with
  | VStr s => existsb (String.eqb s) ids
  | _ => false
  end.

(** [aiSuggestions.filter(s => s.suggestion_type === 'order' &&
    selectedAiOrderSuggestionIds.includes(s.id))] *)
Definition picksOf (u : UI) : list Row :=
  filter (fun s => isStr (get "suggestion_type" s) "order"
                   && includesId (selectedAiOrderSuggestionIds u) (get "id" s))
         (aiSuggestions u).

Definition aiOrderRow (encounterId : string) (occurred_at : nat) (p : Row) : Row :=
  [("encounter_id", VStr encounterId);
   ("code", get "code" p);
   ("name", get "name" p);
   ("status", VStr "sent");
   ("occurred_at", VTime occurred_at);
   ("data", VObj [("from_ai_run_id", get "ai_run_id" p);
                  ("suggestion_id", get "id" p);
                  ("reason", get "reason" p)])].

Definition applyAiOrders (u : UI) : Js unit :=
  match nonEmptyId (selectedEncounterId u) with
  | None => ret tt
  | Some encounterId =>
      match picksOf u with
      | [] => ret tt
      | picks =>
          occurred_at <- now ;;
          res <- dbInsert orders_t (map (aiOrderRow encounterId occurred_at) picks) (Some ["id"]) ;;
          match res with
          | Error message =>
              consoleError "applyAiOrders insert failed:" ;;
              alert ("套用 AI 醫囑失敗: " ++ message)
          | Data data =>
              forEach data (fun inserted =>
                logEvent encounterId "ai" "order_created_from_ai" (Some "orders")
                         (get "id" inserted) (Some "Order created from AI suggestion") None) ;;
              setSelectedAiOrderSuggestionIds [] ;;
              fetchEncounterData encounterId
          end
      end
  end.

(** ** User events and the render loop *)

Inductive Action :=
| Reload                                   (* the component is mounted afresh *)
| ClickPatient (patientId : string)        (* lines 768-771 *)
| ClickEncounter (encounterId : string)    (* line 829 *)
| TypeInto (i : Input) (text : string)
| OpenPatientModal (open : bool)
| EditNote (draft : option NoteDraft)
| ToggleAiOrder (suggestionId : string) (checked : bool)  (* lines 1182-1185 *)
| CreatePatient
| CreateEncounter
| SaveNote
| AddOrder                                 (* [addOrder(orderInput)] *)
| AddResult
| AddHumanDdx
| RunAi
| ApplyAiOrders.

(** The check box of a suggestion is on screen: an encounter is selected
    and the suggestion is among the AI order suggestions shown. *)
Definition checkboxShown (u : UI) (suggestionId : string) : bool :=
  match nonEmptyId (selectedEncounterId u) with
  | None => false
  | Some _ =>
      existsb (fun s => isStr (get "suggestion_type" s) "order"
                        && isStr (get "id" s) suggestionId)
              (aiSuggestions u)
  end.

Definition handle (a : Action) (u : UI) : Js unit :=
  match a with
  | Reload => setState (fun _ => initialUI) ;; spawn fetchPatients
  | ClickPatient patientId =>
      setSelectedPatientId (Some patientId) ;;
      setSelectedEncounterId None
  | ClickEncounter encounterId => setSelectedEncounterId (Some encounterId)
  | TypeInto i text => setInput i text
  | OpenPatientModal open => setIsPatientModalOpen open
  | EditNote draft => setEditingNote draft
  | ToggleAiOrder suggestionId checked =>
      if checkboxShown u suggestionId then
        if checked
        then setSelectedAiOrderSuggestionIds (selectedAiOrderSuggestionIds u ++ [suggestionId])
        else setSelectedAiOrderSuggestionIds
               (filter (fun x => negb (String.eqb x suggestionId)) (selectedAiOrderSuggestionIds u))
      else ret tt
  | CreatePatient => createPatient u
  | CreateEncounter => createEncounter u
  | SaveNote => saveNote u
  | AddOrder => addOrder u (inputs u orderInput)
  | AddResult => addResult u
  | AddHumanDdx => addHumanDdx u
  | RunAi => runAi u
  | ApplyAiOrders => applyAiOrders u
  end.

Definition sameId (a b : option string) : bool :=
  match a, b with
  | None, None => true
  | Some x, Some y => String.eqb x y
  | _, _ => false
  end.

(** The effects whose dependency differs between two renders, in the
    order they are declared. On mount every effect runs. *)
Definition runEffects (mounting : bool) (rendered current : UI) : Js unit :=
  (if mounting || negb (sameId (selectedPatientId rendered) (selectedPatientId current))
   then patientEffect current else ret tt) ;;
  (if mounting || negb (sameId (selectedEncounterId rendered) (selectedEncounterId current))
   then encounterEffect current else ret tt).

Definition isReload (a : Action) : bool :=
  match a with Reload => true | _ => false end.

(** One user event, taken alone: the handler runs on the rendered state
    with every request answered as it is awaited, then React re-renders and
    runs the effects, whose own state updates cause one more render (no
    effect changes a dependency after that).  Nothing else happens in
    between: no other event, no answer to an earlier request. *)
Definition step (env : Env) (a : Action) (w : World) : World :=
  let rendered := ui w in
  let w1 := snd (handle a rendered env w) in
  let w2 := snd (runEffects (isReload a) rendered (ui w1) env w1) in
  snd (runEffects false (ui w1) (ui w2) env w2).

Fixpoint run (env : Env) (acts : list Action) (w : World) : World :=
  match acts with
  | [] => w
  | a :: rest => run env rest (step env a w)
  end.

(** ** Reasoning about handlers *)

(** The world a computation leaves behind. *)
Definition exec {A} (m : Js A) (env : Env) (w : World) : World := snd (m env w).

(** [m] maintains [I], whatever the environment does and however [m] ends. *)
Definition preserves {A} (I : World -> Prop) (m : Js A) : Prop :=
  forall env w, I w -> I (exec m env w).

(** An invariant given component by component; the clock is free. *)
Definition fieldwise (PS : Store -> Prop) (PU : UI -> Prop) (PT : list Effect -> Prop)
    (w : World) : Prop :=
  PS (store w) /\ PU (ui w) /\ PT (trace w).

(** The effects recorded since [before], all of them satisfying [ok]. *)
Definition emittedSince (before : list Effect) (ok : Effect -> Prop) (tr : list Effect) : Prop :=
  exists es, tr = before ++ es /\ Forall ok es.

Definition anyStore : Store -> Prop := fun _ => True.
Definition anyUI : UI -> Prop := fun _ => True.
Definition anyTrace : list Effect -> Prop := fun _ => True.
Definition anyEffect : Effect -> Prop := fun _ => True.

(** ** The shape of the queries (spec section 6) *)

(** The foreign key to the owner of a row; patients are roots. *)
Definition ownerKey (t : table) : option string :=
  match t with
  | patients_t => None
  | encounters_t => Some "patient_id"
  | ai_suggestions_t => Some "ai_run_id"
  | _ => Some "encounter_id"
  end.

Definition isTimestampColumn (col : string) : bool :=
  String.eqb col "created_at" || String.eqb col "occurred_at".

Definition filteredByOwner (q : SelectQuery) : bool :=
  match ownerKey (q_from q), q_eq q with
  | Some key, Some (col, _) => String.eqb col key
  | _, _ => false
  end.

Definition newestFirst (q : SelectQuery) : bool :=
  isTimestampColumn (fst (q_order q)) && negb (snd (q_order q)).

(** The shape the specification gives to every select. *)
Definition statedShape (e : Effect) : bool :=
  match e with
  | Select q => filteredByOwner q && newestFirst q
  | _ => true
  end.

(** The shape the selects have, table by table: the column the rows are
    filtered on (none for patients), the timestamp they are ordered by, and
    the direction.  The events of the timeline are never read. *)
Definition filteredOn (key : option string) (q : SelectQuery) : bool :=
  match key, q_eq q with
  | None, None => true
  | Some k, Some (col, _) => String.eqb col k
  | _, _ => false
  end.

Definition orderedOn (col : string) (ascending : bool) (q : SelectQuery) : bool :=
  String.eqb (fst (q_order q)) col && Bool.eqb (snd (q_order q)) ascending.

Definition actualShape (e : Effect) : bool :=
  match e with
  | Select q =>
      match q_from q with
      | patients_t => filteredOn None q && orderedOn "created_at" false q
      | encounters_t => filteredOn (Some "patient_id") q && orderedOn "created_at" false q
      | notes_t | orders_t | results_t | ddx_entries_t =>
          filteredOn (Some "encounter_id") q && orderedOn "occurred_at" false q
      | ai_runs_t => filteredOn (Some "encounter_id") q && orderedOn "created_at" false q
      | ai_suggestions_t => filteredOn (Some "ai_run_id") q && orderedOn "created_at" true q
      | patient_events_t => false
      end
  | _ => true
  end.

(** What one user event adds to the trace, all of it satisfying [ok]. *)
Definition stepEmits (ok : Effect -> Prop) (env : Env) (a : Action) (w : World) : Prop :=
  emittedSince (trace w) ok (trace (step env a w)).

(** An environment in which every call succeeds and the AI suggests one
    diagnosis and one order. *)
Definition sampleReply : AiFunctionResult :=
  {| diagnoses := Some [{| d_name := "AMI"; d_prob := Some (Finite (85 # 100)); d_reason := None |}];
     recommendations := Some [{| r_code := Some "BLOOD002"; r_name := "Troponin-I serial";
                                 r_reason := Some "serial enzymes" |}] |}.

Definition digit (n : nat) : ascii := ascii_of_nat (48 + n mod 10).

Definition calmEnv : Env :=
  {| storeOutcome := fun _ _ => Ok;
     invokeOutcome := fun _ => Replied sampleReply;
     uuid := fun instant index =>
               String "u" (String (digit (instant / 10)) (String (digit instant)
                 (String "-" (String (digit index) EmptyString))));
     toNumber := fun s => if String.eqb s "Infinity" then Infinity false else NaN;
     parseDate := fun _ => None;
     upperCase := fun s => if String.eqb s "é" then "É" else s |}.

(** The same, with the AI function out of quota. *)
Definition failingAiEnv : Env :=
  {| storeOutcome := storeOutcome calmEnv;
     invokeOutcome := fun _ => InvokeFailed "quota exceeded";
     uuid := uuid calmEnv;
     toNumber := toNumber calmEnv;
     parseDate := parseDate calmEnv;
     upperCase := upperCase calmEnv |}.

(** The same, with a store that refuses every write to one table. *)
Definition refusing (t : table) : Env :=
  {| storeOutcome := fun t' _ => if table_eqb t t' then Failed "permission denied" else Ok;
     invokeOutcome := invokeOutcome calmEnv;
     uuid := uuid calmEnv;
     toNumber := toNumber calmEnv;
     parseDate := parseDate calmEnv;
     upperCase := upperCase calmEnv |}.

(** A session: a patient and an encounter are created and selected. *)
Definition admission : list Action :=
  [Reload; TypeInto newPatientName "Wang"; CreatePatient; CreateEncounter].

Definition ward : World := Eval vm_compute in run calmEnv admission (boot emptyStore).

(** The same, with a human DDX entry typed in and not yet added. *)
Definition drafting (probability : string) : World :=
  run calmEnv [TypeInto ddxName "Sepsis"; TypeInto ddxProb probability] ward.

(** ** References to the encounter (guards of the handlers) *)

(** Tables whose rows belong to an encounter. *)
Definition encounterScoped (t : table) : bool :=
  match t with
  | patients_t | encounters_t => false
  | _ => true
  end.

Definition hasEncounterRef (r : Row) : Prop :=
  exists e, get "encounter_id" r = VStr e /\ e <> "".

(** A write to an encounter-scoped table names its encounter. *)
Definition refersToEncounter (e : Effect) : Prop :=
  match e with
  | Insert t rows => encounterScoped t = true -> Forall hasEncounterRef rows
  | Update t patch _ _ => encounterScoped t = true -> hasEncounterRef patch
  | _ => True
  end.

(** ** Order text, in the words of the specification *)

(** The string of given bytes. *)
Definition utf8 (bytes : list nat) : string :=
  fold_right (fun n s => String (ascii_of_nat n) s) EmptyString bytes.

(** The characters [trim] removes, each in its UTF-8 form: the white space
    and the line terminators of ECMAScript. *)
Definition whiteSpaceCharacters : list string :=
  map utf8
    [[9]; [10]; [11]; [12]; [13]; [32];                  (* TAB LF VT FF CR SPACE *)
     [194; 160];                                         (* U+00A0 *)
     [225; 154; 128];                                    (* U+1680 *)
     [226; 128; 128]; [226; 128; 129]; [226; 128; 130];  (* U+2000 to U+200A *)
     [226; 128; 131]; [226; 128; 132]; [226; 128; 133];
     [226; 128; 134]; [226; 128; 135]; [226; 128; 136];
     [226; 128; 137]; [226; 128; 138];
     [226; 128; 168]; [226; 128; 169];                   (* U+2028 U+2029 *)
     [226; 128; 175];                                    (* U+202F *)
     [226; 129; 159];                                    (* U+205F *)
     [227; 128; 128];                                    (* U+3000 *)
     [239; 187; 191]].                                   (* U+FEFF *)

(** A string made of such characters only. *)
Inductive AllWhite : string -> Prop :=
| white_none : AllWhite ""
| white_more (w s : string) :
    In w whiteSpaceCharacters -> AllWhite s -> AllWhite (w ++ s).

(** [val] is [raw] without the white space at its two ends: white space
    was taken off on both sides, and none is left there. *)
Definition Stripped (raw val : string) : Prop :=
  (exists lead trail,
      raw = (lead ++ val ++ trail)%string /\ AllWhite lead /\ AllWhite trail) /\
  (forall w rest, In w whiteSpaceCharacters -> val <> (w ++ rest)%string) /\
  (forall w rest, In w whiteSpaceCharacters -> val <> (rest ++ w)%string).

(** The capital of a letter of ASCII, read off the two alphabets; any
    other byte is itself. *)
Definition smallLetters : string := "abcdefghijklmnopqrstuvwxyz".
Definition capitalLetters : string := "ABCDEFGHIJKLMNOPQRSTUVWXYZ".

Fixpoint facing (letters facings : string) (c : ascii) : ascii :=
  match letters, facings with
  | String letter letters', String facing_ facings' =>
      if Ascii.eqb c letter then facing_ else facing letters' facings' c
  | _, _ => c
  end.

Definition capital (c : ascii) : ascii := facing smallLetters capitalLetters c.

(** A text without ASCII characters. *)
Fixpoint outsideAscii (s : string) : Prop :=
  match s with
  | EmptyString => True
  | String c rest => 128 <= nat_of_ascii c /\ outsideAscii rest
  end.

(** A text that ends here or goes on with an ASCII character. *)
Definition atAscii (s : string) : Prop :=
  match s with
  | EmptyString => True
  | String c _ => nat_of_ascii c < 128
  end.

(** [upper] is [s] in upper case: every ASCII letter is replaced by its
    capital, and every stretch of text outside ASCII, taken whole, by what
    the engine's conversion [outside] makes of it. *)
Inductive Uppercased (outside : string -> string) : string -> string -> Prop :=
| upper_end : Uppercased outside "" ""
| upper_ascii (c : ascii) (s upper : string) :
    nat_of_ascii c < 128 ->
    Uppercased outside s upper ->
    Uppercased outside (String c s) (String (capital c) upper)
| upper_outside (stretch s upper : string) :
    stretch <> "" -> outsideAscii stretch -> atAscii s ->
    Uppercased outside s upper ->
    Uppercased outside (stretch ++ s) (outside stretch ++ upper).

(** The name the specification gives the order: the remainder of the
    trimmed input, or "General Order". *)
Definition specifiedName (val : string) : string :=
  match OrderText.remainder val with
  | EmptyString => "General Order"
  | String _ _ => OrderText.remainder val
  end.

(** The order row [addOrder] is specified to send. *)
Definition specifiedOrder (encounterId code name : string) (occurred_at : nat) : Row :=
  [("encounter_id", VStr encounterId);
   ("code", VStr code);
   ("name", VStr name);
   ("status", VStr "sent");
   ("occurred_at", VTime occurred_at)].

(** ** Probability of a human DDX entry *)

(** [null] or a finite number. *)
Definition nullOrFinite (v : value) : Prop :=
  v = VNull \/ exists q, v = VNum (Finite q).

(** The row [addHumanDdx] sends. *)
Definition humanDdxRow (env : Env) (u : UI) (encounterId : string) (occurred_at : nat) : Row :=
  [("encounter_id", VStr encounterId);
   ("source", VStr "human");
   ("name", VStr (JsString.trim (inputs u ddxName)));
   ("prob", humanProb (toNumber env) (inputs u ddxProb));
   ("reason", optStr (JsString.trimOrNull (inputs u ddxReason)));
   ("occurred_at", VTime occurred_at)].

(** ** The AI round trip *)

(** Effects by kind, to tell what a handler did and in which order. *)
Inductive Kind :=
| KSelect (t : table)
| KInsert (t : table)
| KUpdate (t : table)
| KInvoke
| KAlert
| KConsoleError.

Definition kind (e : Effect) : Kind :=
  match e with
  | Select q => KSelect (q_from q)
  | Insert t _ => KInsert t
  | Update t _ _ _ => KUpdate t
  | Invoke _ _ => KInvoke
  | Alert _ => KAlert
  | ConsoleError _ => KConsoleError
  end.

(** The call of the AI function fails: an error comes back, or the call
    rejects. *)
Definition invokeFails (o : InvokeOutcome) : bool :=
  match o with
  | Replied _ => false
  | InvokeFailed _ | InvokeRejected => true
  end.

Definition rejected (o : Outcome) : bool :=
  match o with Rejected => true | _ => false end.

(** The four requests of [fetchEncounterData]. *)
Definition encounterDataSelects (encounterId : string) : list Effect :=
  [Select (selectStar notes_t "encounter_id" encounterId "occurred_at" false);
   Select (selectStar orders_t "encounter_id" encounterId "occurred_at" false);
   Select (selectStar results_t "encounter_id" encounterId "occurred_at" false);
   Select (selectStar ddx_entries_t "encounter_id" encounterId "occurred_at" false)].

(** None of the four requests of [fetchEncounterData], issued from
    instant [c] on, is rejected. *)
Definition reloadAnswered (env : Env) (c : nat) : bool :=
  negb (rejected (storeOutcome env notes_t c))
  && negb (rejected (storeOutcome env orders_t (1 + c)))
  && negb (rejected (storeOutcome env results_t (2 + c)))
  && negb (rejected (storeOutcome env ddx_entries_t (3 + c))).

(** The identifier of the run row the store accepted at [instant]. *)
Definition savedRunId (env : Env) (instant : nat) : string := uuid env instant 0.

(** The suggestion rows [runAi] sends for a reply. *)
Definition suggestionRows (encounterId aiRunId : string) (result : AiFunctionResult) : list Row :=
  diagRows encounterId aiRunId result ++ orderRows encounterId aiRunId result.

(** ** Orders are sent, and stay so *)

Definition sentRow (r : Row) : Prop := get "status" r = VStr "sent".

(** An effect that neither inserts an order with another status nor
    updates an order. *)
Definition keepsOrdersSent (e : Effect) : Prop :=
  match e with
  | Insert orders_t rows => Forall sentRow rows
  | Update orders_t _ _ _ => False
  | _ => True
  end.

(** The orders of the store are those of [before], followed by sent ones. *)
Definition ordersExtend (before : list Row) (st : Store) : Prop :=
  exists added, orders_rows st = before ++ added /\ Forall sentRow added.

(** ** The audit trail is advisory *)

(** The same environment, where the [n]-th instant's insert into
    [patient_events] ends as [audit n] says. *)
Definition withAuditOutcome (audit : nat -> Outcome) (env : Env) : Env :=
  {| storeOutcome := fun t n =>
                       match t with
                       | patient_events_t => audit n
                       | _ => storeOutcome env t n
                       end;
     invokeOutcome := invokeOutcome env;
     uuid := uuid env;
     toNumber := toNumber env;
     parseDate := parseDate env;
     upperCase := upperCase env |}.

(** Two worlds that differ at most in the rows of [patient_events]. *)
Definition sameButAudit (w1 w2 : World) : Prop :=
  ui w1 = ui w2 /\
  trace w1 = trace w2 /\
  clock w1 = clock w2 /\
  forall t, t <> patient_events_t -> rowsOf t (store w1) = rowsOf t (store w2).

(** [m] ends the same way and leaves the same world, audit rows apart,
    however the audit inserts end. *)
Definition auditBlind {A} (m : Js A) : Prop :=
  forall env audit w1 w2,
    sameButAudit w1 w2 ->
    fst (m (withAuditOutcome audit env) w1) = fst (m env w2) /\
    sameButAudit (snd (m (withAuditOutcome audit env) w1)) (snd (m env w2)).

(** The row [logEvent] sends. *)
Definition eventRow (encounter_id actor_type event_type : string)
    (entity_table : option string) (entity_id : value)
    (summary : option string) (payload : option value) (occurred_at : nat) : Row :=
  [("encounter_id", VStr encounter_id);
   ("actor_type", VStr actor_type);
   ("event_type", VStr event_type);
   ("entity_table", optStr entity_table);
   ("entity_id", entity_id);
   ("summary", optStr summary);
   ("payload", match payload with Some p => p | None => VObj [] end);
   ("occurred_at", VTime occurred_at)].

(** ** Views that depend on the selected encounter *)

Definition viewsOf (u : UI) :=
  (notes u, orders u, results u, ddx u,
   latestAiRun u, aiSuggestions u, selectedAiOrderSuggestionIds u).

Definition noViews : list Row * list Row * list Row * list Row
                     * option Row * list Row * list string :=
  ([], [], [], [], None, [], []).

(** With no encounter selected, the dependent views are empty. *)
Definition cleared (u : UI) : Prop :=
  nonEmptyId (selectedEncounterId u) = None -> viewsOf u = noViews.

(** One render: the effects run on the current state, [rendered] being
    the state of the previous render. *)
Definition render (mounting : bool) (rendered : UI) (env : Env) (w : World) : World :=
  exec (runEffects mounting rendered (ui w)) env w.

(** Handlers that do not touch the views. *)
Definition keepsViews (a : Action) : bool :=
  match a with
  | ClickPatient _ | ClickEncounter _ | TypeInto _ _ | OpenPatientModal _ | EditNote _
  | CreatePatient | CreateEncounter => true
  | _ => false
  end.


(** ** What the fetches put on screen *)

(** The rows a select leaves in [data ?? []]: those of the store when it
    answers, none when it answers with an error. *)
Definition answered (env : Env) (q : SelectQuery) (instant : nat) (st : Store) : list Row :=
  match storeOutcome env (q_from q) instant with
  | Ok => evalSelect q st
  | _ => []
  end.

Definition ofEncounter (encounterId : string) (r : Row) : Prop :=
  isStr (get "encounter_id" r) encounterId = true.

(** The suggestions on screen are those of the run on screen. *)
Definition suggestionsOfRunShown (u : UI) : Prop :=
  forall s, In s (aiSuggestions u) ->
            exists run, latestAiRun u = Some run /\
                        isStr (get "ai_run_id" s) (idOf run) = true.

(** The select of the latest run of an encounter (lines 259-264). *)
Definition latestRunQuery (encounterId : string) : SelectQuery :=
  {| q_from := ai_runs_t;
     q_columns := ["id"; "encounter_id"; "provider"; "model"; "status"; "created_at"];
     q_eq := Some ("encounter_id", encounterId);
     q_order := ("created_at", false);
     q_limit := Some 1 |}.

(** ** Events that only read *)

(** The user events that are not one of the eight mutations. *)
Definition readOnly (a : Action) : bool :=
  match a with
  | Reload | ClickPatient _ | ClickEncounter _ | TypeInto _ _ | OpenPatientModal _
  | EditNote _ | ToggleAiOrder _ _ => true
  | _ => false
  end.

Definition onlyReads (e : Effect) : Prop :=
  match e with
  | Select _ | ConsoleError _ => True
  | _ => False
  end.

(** ** Creating a patient *)

(** The row [createPatient] sends (lines 333-341). *)
Definition patientRow (u : UI) : Row :=
  [("name", VStr (JsString.trim (inputs u newPatientName)));
   ("mrn", optStr (JsString.trimOrNull (inputs u newPatientMrn)));
   ("sex", optStr (JsString.trimOrNull (inputs u newPatientSex)))].

(** The state, the list of encounters apart. *)
Definition exceptEncounters (u : UI) :=
  (patients u, selectedPatientId u, selectedEncounterId u, viewsOf u,
   isBusy u, isPatientModalOpen u, inputs u, editingNote u, isAiLoading u).

(** ** Creating an encounter *)



(** ** Saving a note *)

(** [occurred_at] of the payload (line 396): the draft's own time when it
    has one, now otherwise; [None] when the draft holds something that is
    not a date, on which [toISOString] throws. *)
Definition occurredOf (env : Env) (d : NoteDraft) (instant : nat) : option nat :=
  if truthyValue (draft_occurred_at d)
  then match draft_occurred_at d with
       | VTime t => Some t
       | VStr s => parseDate env s
       | _ => None
       end
  else Some instant.

(** The payload of [saveNote] (lines 391-397). *)
Definition notePayload (encounterId : string) (d : NoteDraft) (occurred_at : nat) : Row :=
  [("encounter_id", VStr encounterId);
   ("note_type", VStr (draft_note_type d));
   ("title", optStr (JsString.trimOrNull (draft_title d)));
   ("content", VStr (draft_content d));
   ("occurred_at", VTime occurred_at)].

(** The first request of [saveNote]: an update of the note the draft
    names, an insert when it names none. *)
Definition noteRequest (encounterId : string) (d : NoteDraft) (occurred_at : nat) : Effect :=
  match nonEmptyId (draft_id d) with
  | Some noteId => Update notes_t (notePayload encounterId d occurred_at) "id" noteId
  | None => Insert notes_t [notePayload encounterId d occurred_at]
  end.

Definition noteFailure (d : NoteDraft) (message : string) : list Effect :=
  match nonEmptyId (draft_id d) with
  | Some _ => [ConsoleError "update note failed:"; Alert ("更新病歷失敗: " ++ message)]
  | None => [ConsoleError "insert note failed:"; Alert ("新增病歷失敗: " ++ message)]
  end.

(** No other write to the notes than the first request. *)
Definition noNoteWrite (e : Effect) : Prop :=
  kind e <> KInsert notes_t /\ kind e <> KUpdate notes_t.

(** A new note, as the "+ Add" button opens it, with a text typed in. *)
Definition sampleDraft : NoteDraft :=
  {| draft_id := None; draft_note_type := "Progress Note"; draft_title := " ";
     draft_content := "chest pain, 2 h"; draft_occurred_at := VTime 7 |}.

Definition writing : World := step calmEnv (EditNote (Some sampleDraft)) ward.

(** ** Applying AI order suggestions *)

(** A suggestion that [applyAiOrders] picks: shown, of type order, and
    ticked. *)
Definition picked (u : UI) (p : Row) : Prop :=
  In p (aiSuggestions u) /\
  isStr (get "suggestion_type" p) "order" = true /\
  exists id, get "id" p = VStr id /\ In id (selectedAiOrderSuggestionIds u).

(** A suggestion of type order whose box is ticked. *)
Definition tickedOrder (u : UI) (p : Row) : Prop :=
  isStr (get "suggestion_type" p) "order" = true /\
  exists id, get "id" p = VStr id /\ In id (selectedAiOrderSuggestionIds u).

(** [kept] is the list [l] with the elements that do not satisfy [P] struck
    out: those that do are all there, as often and in the order [l] has
    them. *)
Inductive Kept {A : Type} (P : A -> Prop) : list A -> list A -> Prop :=
| kept_nil : Kept P [] []
| kept_keep (x : A) (l kept : list A) :
    P x -> Kept P l kept -> Kept P (x :: l) (x :: kept)
| kept_strike (x : A) (l kept : list A) :
    ~ P x -> Kept P l kept -> Kept P (x :: l) kept.

(** The order rows [applyAiOrders] sends (lines 704-712). *)
Definition appliedRows (encounterId : string) (u : UI) (occurred_at : nat) : list Row :=
  map (aiOrderRow encounterId occurred_at) (picksOf u).

(** The session after an AI round trip, with the suggested order ticked. *)
Definition ticked : World :=
  Eval vm_compute in run calmEnv [RunAi; ToggleAiOrder "u14-1" true] ward.

(** ** What an AI round trip stores *)

(** The run row [runAi] sends (lines 609-618). *)
Definition runRow (encounterId : string) (u : UI) (result : AiFunctionResult) : Row :=
  [("encounter_id", VStr encounterId);
   ("provider", VStr "gemini");
   ("model", VStr "gemini-2.0-flash");
   ("status", VStr "completed");
   ("prompt", aiContext encounterId u);
   ("response", jsonOfResult result)].

(** A suggestion row of a given run and encounter. *)
Definition suggestionOf (encounterId aiRunId : string) (r : Row) : Prop :=
  get "encounter_id" r = VStr encounterId /\
  get "ai_run_id" r = VStr aiRunId /\
  ((get "suggestion_type" r = VStr "diagnosis" /\ get "code" r = VNull) \/
   (get "suggestion_type" r = VStr "order" /\ get "prob" r = VNull)).

(** ** Which tables an event writes *)

(** The tables each user event may write. *)
Definition writes (a : Action) : list table :=
  match a with
  | CreatePatient => [patients_t]
  | CreateEncounter => [encounters_t]
  | SaveNote => [notes_t; patient_events_t]
  | AddOrder => [orders_t; patient_events_t]
  | AddResult => [results_t; patient_events_t]
  | AddHumanDdx => [ddx_entries_t; patient_events_t]
  | RunAi => [ai_runs_t; ai_suggestions_t; ddx_entries_t; patient_events_t]
  | ApplyAiOrders => [orders_t; patient_events_t]
  | _ => []
  end.

(** The tables outside [ws] are as in [before]. *)
Definition untouchedOutside (ws : list table) (before st : Store) : Prop :=
  forall t, ~ In t ws -> rowsOf t st = rowsOf t before.

(** Nothing was deleted since [before]: every table but the notes only
    grew at its end, and the notes are the same notes, by identifier,
    followed by new ones. *)
Definition onlyGrew (before st : Store) : Prop :=
  (forall t, t <> notes_t -> exists added, rowsOf t st = rowsOf t before ++ added) /\
  exists added, map (get "id") (notes_rows st) = map (get "id") (notes_rows before) ++ added.

(** ** Entries typed by the clinician: an order, a result, a ddx entry *)

Inductive Entry := OrderEntry | ResultEntry | DdxEntry.

(** The button behind each entry: [addOrder(orderInput)], [addResult()],
    [addHumanDdx()]. *)
Definition entryAction (e : Entry) : Action :=
  match e with
  | OrderEntry => AddOrder
  | ResultEntry => AddResult
  | DdxEntry => AddHumanDdx
  end.

Definition entryTable (e : Entry) : table :=
  match e with
  | OrderEntry => orders_t
  | ResultEntry => results_t
  | DdxEntry => ddx_entries_t
  end.

(** The row [addResult] sends (lines 480-490). *)
Definition resultRow (encounterId : string) (u : UI) (occurred_at : nat) : Row :=
  [("encounter_id", VStr encounterId);
   ("category", VStr (inputs u resultCategory));
   ("name", VStr (JsString.trim (inputs u resultName)));
   ("value", optStr (JsString.trimOrNull (inputs u resultValue)));
   ("unit", optStr (JsString.trimOrNull (inputs u resultUnit)));
   ("flag", optStr (JsString.trimOrNull (inputs u resultFlag)));
   ("occurred_at", VTime occurred_at)].

(** The field an entry is typed in: the order text, the name of the
    result, the name of the diagnosis. *)
Definition entryField (e : Entry) : Input :=
  match e with
  | OrderEntry => orderInput
  | ResultEntry => resultName
  | DdxEntry => ddxName
  end.

(** The row an entry sends, or nothing when what was typed trims to
    nothing. *)
Definition entryRow (env : Env) (e : Entry) (encounterId : string) (u : UI)
    (occurred_at : nat) : option Row :=
  match e with
  | OrderEntry =>
      option_map (fun parsed => orderRow encounterId parsed occurred_at)
                 (OrderText.parse (upperCase env) (inputs u orderInput))
  | ResultEntry =>
      if JsString.truthy (JsString.trim (inputs u resultName))
      then Some (resultRow encounterId u occurred_at) else None
  | DdxEntry =>
      if JsString.truthy (JsString.trim (inputs u ddxName))
      then Some (humanDdxRow env u encounterId occurred_at) else None
  end.

(** What the user is told when the store refuses the entry. *)
Definition entryFailure (e : Entry) (message : string) : list Effect :=
  match e with
  | OrderEntry => [ConsoleError "insert order failed:"; Alert ("新增醫囑失敗: " ++ message)]
  | ResultEntry => [ConsoleError "insert result failed:"; Alert ("新增報告失敗: " ++ message)]
  | DdxEntry => [ConsoleError "insert ddx failed:"; Alert ("新增鑑別診斷失敗: " ++ message)]
  end.

(** The audit event of an accepted entry (lines 458-465, 500-507, 546-553). *)
Definition entryEvent (env : Env) (e : Entry) (encounterId : string) (u : UI)
    (entity_id : value) (occurred_at : nat) : Row :=
  match e with
  | OrderEntry =>
      eventRow encounterId "human" "order_created" (Some "orders") entity_id
        (option_map (fun parsed =>
                       "Order: " ++ match OrderText.code parsed with Some c => c | None => "" end
                       ++ " " ++ OrderText.name parsed)
                    (OrderText.parse (upperCase env) (inputs u orderInput)))
        None occurred_at
  | ResultEntry =>
      eventRow encounterId "human" "result_created" (Some "results") entity_id
        (Some ("Result: " ++ JsString.trim (inputs u resultName))) None occurred_at
  | DdxEntry =>
      eventRow encounterId "human" "ddx_added" (Some "ddx_entries") entity_id
        (Some ("DDX (human): " ++ JsString.trim (inputs u ddxName))) None occurred_at
  end%string.

(** The input fields an accepted entry empties. *)
Definition entryFields (e : Entry) : list Input :=
  match e with
  | OrderEntry => [orderInput]
  | ResultEntry => [resultName; resultValue; resultUnit; resultFlag]
  | DdxEntry => [ddxName; ddxProb; ddxReason]
  end.

Definition emptiedBy (e : Entry) (i : Input) : bool :=
  existsb (fun j => inputIndex j =? inputIndex i) (entryFields e).

(** The list on screen that shows the rows of a table of the encounter,
    and the place of its select among the four of [fetchEncounterData]. *)
Definition shown (t : table) (u : UI) : list Row :=
  match t with
  | notes_t => notes u
  | orders_t => orders u
  | results_t => results u
  | ddx_entries_t => ddx u
  | _ => []
  end.

Definition turn (t : table) : nat :=
  match t with
  | orders_t => 1
  | results_t => 2
  | ddx_entries_t => 3
  | _ => 0
  end.

(** ** The screen and the selected encounter *)

(** The notes, orders, results, ddx entries and AI run on screen are
    those of encounter [e]. *)
Definition ofSelected (e : string) (u : UI) : Prop :=
  Forall (ofEncounter e) (notes u) /\
  Forall (ofEncounter e) (orders u) /\
  Forall (ofEncounter e) (results u) /\
  Forall (ofEncounter e) (ddx u) /\
  (forall run, latestAiRun u = Some run -> ofEncounter e run).

(** The screen shows the selected encounter, and nothing when none is
    selected. *)
Definition coherent (u : UI) : Prop :=
  match nonEmptyId (selectedEncounterId u) with
  | None => viewsOf u = noViews
  | Some e => ofSelected e u
  end.

(** The store answers every request, be it with an error. *)
Definition answers (env : Env) : Prop :=
  forall t instant, rejected (storeOutcome env t instant) = false.

(** The network drops every request from [instant] on. *)
Definition droppingFrom (instant : nat) : Env :=
  {| storeOutcome := fun _ i => if instant <=? i then Rejected else Ok;
     invokeOutcome := invokeOutcome calmEnv;
     uuid := uuid calmEnv;
     toNumber := toNumber calmEnv;
     parseDate := parseDate calmEnv;
     upperCase := upperCase calmEnv |}.

(** ** The schema of the store (the SQL of [unnamed/part_001] and of
       [apps/web/vite.config.ts]) *)

Inductive SqlType := uuid_ty | text_ty | date_ty | timestamptz_ty | numeric_ty | jsonb_ty.

(** A column: its type, [not null], [default ...] and [check (c in (...))]. *)
Record Column := {
  c_name : string;
  c_type : SqlType;
  c_notNull : bool;
  c_default : bool;
  c_check : option (list string);
}.

Definition column (name : string) (ty : SqlType) : Column :=
  {| c_name := name; c_type := ty; c_notNull := false; c_default := false; c_check := None |}.

Definition notNull (c : Column) : Column :=
  {| c_name := c_name c; c_type := c_type c; c_notNull := true;
     c_default := c_default c; c_check := c_check c |}.

Definition withDefault (c : Column) : Column :=
  {| c_name := c_name c; c_type := c_type c; c_notNull := c_notNull c;
     c_default := true; c_check := c_check c |}.

Definition checkIn (allowed : list string) (c : Column) : Column :=
  {| c_name := c_name c; c_type := c_type c; c_notNull := c_notNull c;
     c_default := c_default c; c_check := Some allowed |}.

(** [id uuid primary key default gen_random_uuid()] *)
Definition idColumn : Column := withDefault (notNull (column "id" uuid_ty)).

(** [... timestamptz not null default now()] *)
Definition stampColumn (name : string) : Column :=
  withDefault (notNull (column name timestamptz_ty)).

(** [... jsonb not null default '{}'::jsonb] *)
Definition jsonColumn (name : string) : Column :=
  withDefault (notNull (column name jsonb_ty)).

(** [encounter_id uuid not null references public.encounters(id)] *)
Definition encounterColumn : Column := notNull (column "encounter_id" uuid_ty).

Definition schema (t : table) : list Column :=
  match t with
  | patients_t =>
      [idColumn; column "mrn" text_ty; notNull (column "name" text_ty);
       column "sex" text_ty; column "dob" date_ty; jsonColumn "meta";
       stampColumn "created_at"; stampColumn "updated_at"]
  | encounters_t =>
      [idColumn; notNull (column "patient_id" uuid_ty); column "arrival_at" timestamptz_ty;
       column "location" text_ty; withDefault (notNull (column "status" text_ty));
       jsonColumn "meta"; stampColumn "created_at"; stampColumn "updated_at"]
  | notes_t =>
      [idColumn; encounterColumn; notNull (column "note_type" text_ty);
       column "title" text_ty; withDefault (notNull (column "content" text_ty));
       stampColumn "occurred_at"; jsonColumn "data";
       stampColumn "created_at"; stampColumn "updated_at"]
  | orders_t =>
      [idColumn; encounterColumn; column "code" text_ty; notNull (column "name" text_ty);
       withDefault (notNull (column "status" text_ty)); stampColumn "occurred_at";
       jsonColumn "data"; stampColumn "created_at"; stampColumn "updated_at"]
  | results_t =>
      [idColumn; encounterColumn; notNull (column "category" text_ty); column "code" text_ty;
       notNull (column "name" text_ty); column "value" text_ty; column "unit" text_ty;
       column "flag" text_ty; stampColumn "occurred_at"; jsonColumn "data";
       stampColumn "created_at"; stampColumn "updated_at"]
  | ddx_entries_t =>
      [idColumn; encounterColumn;
       checkIn ["human"; "ai"] (notNull (column "source" text_ty));
       notNull (column "name" text_ty); column "prob" numeric_ty; column "reason" text_ty;
       stampColumn "occurred_at"; jsonColumn "data";
       stampColumn "created_at"; stampColumn "updated_at"]
  | ai_runs_t =>
      [idColumn; encounterColumn; notNull (column "provider" text_ty);
       notNull (column "model" text_ty); withDefault (notNull (column "status" text_ty));
       jsonColumn "prompt"; jsonColumn "response"; stampColumn "created_at"]
  | ai_suggestions_t =>
      [idColumn; encounterColumn; notNull (column "ai_run_id" uuid_ty);
       notNull (column "suggestion_type" text_ty); column "code" text_ty;
       notNull (column "name" text_ty); column "prob" numeric_ty; column "reason" text_ty;
       jsonColumn "raw"; stampColumn "created_at"]
  | patient_events_t =>
      [idColumn; encounterColumn; stampColumn "occurred_at";
       checkIn ["human"; "ai"; "system"] (notNull (column "actor_type" text_ty));
       notNull (column "event_type" text_ty); column "entity_table" text_ty;
       column "entity_id" uuid_ty; column "summary" text_ty; jsonColumn "payload";
       stampColumn "created_at"]
  end.

Definition isNull (v : value) : bool :=
  match v with VNull => true | _ => false end.

(** A value the client sends fits a column: [null] only where the column
    allows it, a string for [uuid], [text] and [date], an instant for
    [timestamptz], a number for [numeric], any JSON for [jsonb], and one of
    the allowed strings under a [check]. *)
Definition accepts (c : Column) (v : value) : bool :=
  match v with
  | VNull => negb (c_notNull c)
  | _ =>
      match c_type c, v with
      | uuid_ty, VStr _ | text_ty, VStr _ | date_ty, VStr _ => true
      | timestamptz_ty, VTime _ => true
      | numeric_ty, VNum _ => true
      | jsonb_ty, _ => true
      | _, _ => false
      end
      && match c_check c, v with
         | None, _ => true
         | Some allowed, VStr s => existsb (String.eqb s) allowed
         | Some _, _ => false
         end
  end.

Definition columnOf (t : table) (name : string) : option Column :=
  find (fun c => String.eqb (c_name c) name) (schema t).

Definition mentions (name : string) (row : Row) : bool :=
  existsb (fun kv => String.eqb (fst kv) name) row.

(** Every key of the object is a column that takes its value. *)
Definition fits (t : table) (row : Row) : bool :=
  forallb (fun kv => match columnOf t (fst kv) with
                     | Some c => accepts c (snd kv)
                     | None => false
                     end) row.

(** A row can be inserted: its keys fit, and every [not null] column
    without a default is given. *)
Definition conformsRow (t : table) (row : Row) : bool :=
  fits t row
  && forallb (fun c => negb (c_notNull c) || c_default c || mentions (c_name c) row)
             (schema t).

(** A request the schema lets through. *)
Definition conforms (e : Effect) : Prop :=
  match e with
  | Insert t rows => Forall (fun r => conformsRow t r = true) rows
  | Update t patch _ _ => fits t patch = true
  | _ => True
  end.

(** ** The AI function ([supabase/functions/ai-analyze/index.ts], lines 1-90) *)

Module AiAnalyze.

(** A JSON value, as [req.json()], [resp.json()] and [JSON.parse] return
    it. An object is the list of its keys, read by the first match. *)
Inductive json :=
| JNull
| JBool (b : bool)
| JNum (n : number)
| JStr (s : string)
| JArr (items : list json)
| JObj (fields : list (string * json)).

(** [v.key] for a key that no prototype defines; a missing key reads as
    [null] ([undefined] and [null] are not told apart: every use below is
    under [?.], [??] or [!]). *)
Definition field (key : string) (v : json) : json :=
  match v with
  | JObj fields =>
      match find (fun kv => String.eqb (fst kv) key) fields with
      | Some kv => snd kv
      | None => JNull
      end
  | _ => JNull
  end.

(** [v?.[0]] *)
Definition first (v : json) : json :=
  match v with
  | JArr (x :: _) => x
  | JStr (String c _) => JStr (String c EmptyString)
  | JObj _ => field "0" v
  | _ => JNull
  end.

(** [a ?? b] *)
Definition orNullish (a b : json) : json :=
  match a with JNull => b | _ => a end.

Definition truthy (v : json) : bool :=
  match v with
  | JNull => false
  | JBool b => b
  | JNum NaN => false
  | JNum (Finite q) => negb (Qeq_bool q 0)
  | JNum (Infinity _) => true
  | JStr s => JsString.truthy s
  | JArr _ | JObj _ => true
  end.

Definition Headers := list (string * string).

Definition cors : Headers :=
  [("Access-Control-Allow-Origin", "*");
   ("Access-Control-Allow-Headers", "authorization, x-client-info, apikey, content-type");
   ("Access-Control-Allow-Methods", "POST, OPTIONS")].

(** [{ ...cors, "Content-Type": "application/json" }] *)
Definition jsonHeaders : Headers := cors ++ [("Content-Type", "application/json")].

Inductive Body :=
| Text (s : string)
| Json (v : json).        (* [JSON.stringify(v)] *)

Record Response := { status : nat; headers : Headers; body : Body }.

(** The request as the handler reads it: its method, and what
    [req.json()] resolves with ([None] when it rejects). *)
Record Request := { method : string; payload : option json }.

(** The call to the model: [fetch(url, {method, headers, body})], the body
    before [JSON.stringify]. *)
Record Call := { url : string; verb : string; sent : Headers; content : json }.

(** The model's answer: its status, and what [resp.json()] resolves with. *)
Record Fetched := { code : nat; parsed : option json }.

(** [resp.ok] *)
Definition ok (resp : Fetched) : bool := (200 <=? code resp) && (code resp <=? 299).

(** What the [try] block can throw. *)
Inductive Failure :=
| BodyUnreadable       (* [req.json()] rejects *)
| FetchRejected        (* [fetch] rejects *)
| AnswerUnreadable     (* [resp.json()] rejects *)
| StatusRefused        (* [new Response] refuses the status *)
| TextUnparsable.      (* [JSON.parse(raw)] throws *)

(** Everything outside the handler. *)
Record Host := {
  GEMINI_API_KEY : option string;         (* [Deno.env.get("GEMINI_API_KEY")] *)
  fetch : Call -> option Fetched;         (* [None] when the promise rejects *)
  stringify : json -> string;             (* [JSON.stringify] *)
  parse : json -> option json;            (* [JSON.parse] of a truthy value, [None] when it throws *)
  describe : Failure -> string;           (* [String(e)] *)
}.

Definition doubleQuote : string := String "034"%char EmptyString.
Definition newline : string := String "010"%char EmptyString.
Definition quoted (s : string) : string := doubleQuote ++ s ++ doubleQuote.

(** The template of lines 42-49, up to the patient's data. *)
Definition instructions : string :=
  "你是一位專業的急診科醫師助理 AI。請只回傳 JSON，不要多餘文字。" ++ newline ++
  "格式：" ++ newline ++
  "{" ++ newline ++
  "  " ++ quoted "diagnoses" ++ ":[{" ++ quoted "name" ++ ":" ++ quoted "診斷" ++ ","
       ++ quoted "prob" ++ ":0," ++ quoted "reason" ++ ":" ++ quoted "原因" ++ "}]," ++ newline ++
  "  " ++ quoted "recommendations" ++ ":[{" ++ quoted "code" ++ ":" ++ quoted "代碼" ++ ","
       ++ quoted "name" ++ ":" ++ quoted "醫令" ++ ","
       ++ quoted "reason" ++ ":" ++ quoted "理由" ++ "}]" ++ newline ++
  "}" ++ newline ++
  newline ++
  "病人資料：".

Definition endpoint : string :=
  "https://generativelanguage.googleapis.com/v1beta/models/gemini-2.0-flash:generateContent?key=".

Definition modelCall (h : Host) (key : string) (patientContext : json) : Call :=
  {| url := endpoint ++ key;
     verb := "POST";
     sent := [("Content-Type", "application/json")];
     content :=
       JObj [("contents",
              JArr [JObj [("parts",
                           JArr [JObj [("text",
                                        JStr (instructions ++ stringify h patientContext))]])]]);
             ("generationConfig", JObj [("responseMimeType", JStr "application/json")])] |}.

(** [new Response(JSON.stringify(v), { status, headers })] *)
Definition jsonResponse (code : nat) (v : json) : Response :=
  {| status := code; headers := jsonHeaders; body := Json v |}.

(** [new Response] with a body throws on a status outside 200-599 and on
    a status that allows no body. *)
Definition allowsBody (code : nat) : bool :=
  (200 <=? code) && (code <=? 599)
  && negb ((code =? 204) || (code =? 205) || (code =? 304)).

(** The [catch] block. *)
Definition caught (h : Host) (e : Failure) : Response :=
  jsonResponse 500 (JObj [("error", JStr (describe h e))]).

(** [data?.candidates?.[0]?.content?.parts?.[0]?.text] *)
Definition modelText (data : json) : json :=
  field "text" (first (field "parts" (field "content" (first (field "candidates" data))))).

(** The handler given to [Deno.serve]: its response, and the calls it made
    to the model. *)
Definition serve (h : Host) (req : Request) : Response * list Call :=
  if String.eqb (method req) "OPTIONS"
  then ({| status := 200; headers := cors; body := Text "ok" |}, [])
  else if negb (String.eqb (method req) "POST")
  then (jsonResponse 405 (JObj [("error", JStr "Method not allowed")]), [])
  else
    match nonEmptyId (GEMINI_API_KEY h) with      (* [if (!key)] *)
    | None => (jsonResponse 500 (JObj [("error", JStr "Missing GEMINI_API_KEY")]), [])
    | Some key =>
        match payload req with
        | None => (caught h BodyUnreadable, [])
        | Some patientContext =>
            let call := modelCall h key patientContext in
            match fetch h call with
            | None => (caught h FetchRejected, [call])
            | Some resp =>
                match parsed resp with
                | None => (caught h AnswerUnreadable, [call])
                | Some data =>
                    if negb (ok resp) then
                      if allowsBody (code resp)
                      then (jsonResponse (code resp)
                              (JObj [("error", orNullish (field "error" data) data)]),
                            [call])
                      else (caught h StatusRefused, [call])
                    else
                      let raw := modelText data in
                      if negb (truthy raw)
                      then (jsonResponse 502
                              (JObj [("error", JStr "Unexpected Gemini response");
                                     ("raw", data)]),
                            [call])
                      else
                        match parse h raw with
                        | None => (caught h TextUnparsable, [call])
                        | Some result => (jsonResponse 200 result, [call])
                        end
                end
            end
        end
    end.

(** A body that tells of an error: a JSON object whose first key is [error]. *)
Definition tellsError (b : Body) : Prop :=
  exists e rest, b = Json (JObj (("error", e) :: rest)).

(** A host whose model is out of quota, and a request for an analysis. *)
Definition throttled : Host :=
  {| GEMINI_API_KEY := Some "k";
     fetch := fun _ => Some {| code := 429;
                               parsed := Some (JObj [("error", JStr "quota exceeded")]) |};
     stringify := fun _ => "{}";
     parse := fun _ => None;
     describe := fun _ => "Error" |}.

Definition analysis : Request := {| method := "POST"; payload := Some (JObj []) |}.

End AiAnalyze.

(** ** The first version of the workstation, kept in the browser
       ([apps/web/src/App.tsx], lines 1342-1677) *)

Module Prototype.

Record Note := {
  n_id : Z;
  n_date : string;
  n_type : string;
  n_title : string;
  n_content : string;
}.

Record Order := {
  o_id : Q;
  o_code : string;
  o_name : string;
  o_time : string;
  o_status : string;
}.

Record Diagnosis := { d_name : string; d_prob : Z; d_reason : string }.
Record Recommendation := { r_code : string; r_name : string; r_reason : string }.

Record AiSuggestion := {
  diagnoses : list Diagnosis;
  recommendations : list Recommendation;
}.

(** The component's state ([useState], lines 1368-1386). *)
Record State := {
  notes : list Note;
  orders : list Order;
  editingNote : option Note;
  orderInput : string;
  isAiLoading : bool;
  aiResult : option AiSuggestion;
  selectedAiOrders : list string;
}.

(** What the browser answers during one handler: the n-th [Date.now()],
    [Math.random()] and [toLocaleTimeString(...)], and its conversion to
    upper case. *)
Record Browser := {
  dateNow : nat -> Z;
  mathRandom : nat -> Q;
  timeOfDay : nat -> string;
  upperCase : string -> string;     (* [s.toUpperCase()] for a text without ASCII characters *)
}.

(** [{ ...note, id }] *)
Definition withId (id : Z) (note : Note) : Note :=
  {| n_id := id; n_date := n_date note; n_type := n_type note;
     n_title := n_title note; n_content := n_content note |}.

(** [handleSaveNote] (lines 1395-1403) *)
Definition handleSaveNote (b : Browser) (s : State) : State :=
  match editingNote s with
  | None => s
  | Some draft =>
      {| notes :=
           if existsb (fun n => Z.eqb (n_id n) (n_id draft)) (notes s)
           then map (fun n => if Z.eqb (n_id n) (n_id draft) then draft else n) (notes s)
           else withId (dateNow b 0) draft :: notes s;
         orders := orders s;
         editingNote := None;
         orderInput := orderInput s;
         isAiLoading := isAiLoading s;
         aiResult := aiResult s;
         selectedAiOrders := selectedAiOrders s |}
  end.

(** [handleAddOrder] (lines 1406-1419); [None] when [code.toUpperCase()]
    would throw for want of a first piece. *)
Definition handleAddOrder (b : Browser) (rawInput : string) (s : State) : option State :=
  let val := JsString.trim rawInput in
  if negb (JsString.truthy val) then Some s else
  match JsString.split " " val with
  | [] => None
  | code :: nameParts =>
      let newOrder :=
        {| o_id := inject_Z (dateNow b 0);
           o_code := JsString.toUpperCase (upperCase b) code;
           o_name := JsString.orElse (JsString.join " " nameParts) "General Order";
           o_time := timeOfDay b 0;
           o_status := "Sent" |} in
      Some {| notes := notes s;
              orders := newOrder :: orders s;
              editingNote := editingNote s;
              orderInput := "";
              isAiLoading := isAiLoading s;
              aiResult := aiResult s;
              selectedAiOrders := selectedAiOrders s |}
  end.

(** [selectedAiOrders.includes(code)] *)
Definition includes (codes : list string) (code : string) : bool :=
  existsb (String.eqb code) codes.

(** The check box of a recommendation (lines 1599-1602). *)
Definition toggleAiOrder (code : string) (checked : bool) (s : State) : State :=
  {| notes := notes s;
     orders := orders s;
     editingNote := editingNote s;
     orderInput := orderInput s;
     isAiLoading := isAiLoading s;
     aiResult := aiResult s;
     selectedAiOrders :=
       if checked then selectedAiOrders s ++ [code]
       else filter (fun c => negb (String.eqb c code)) (selectedAiOrders s) |}.

(** [aiResult?.recommendations.filter(r => selectedAiOrders.includes(r.code)) || []] *)
Definition recommended (s : State) : list Recommendation :=
  match aiResult s with
  | Some result => filter (fun r => includes (selectedAiOrders s) (r_code r))
                          (recommendations result)
  | None => []
  end.

(** [recommended.map(r => ...)], the browser asked once per element. *)
Fixpoint ordersOf (b : Browser) (index : nat) (rs : list Recommendation) : list Order :=
  match rs with
  | [] => []
  | r :: rest =>
      {| o_id := (inject_Z (dateNow b index) + mathRandom b index)%Q;
         o_code := r_code r;
         o_name := r_name r;
         o_time := timeOfDay b index;
         o_status := "Sent" |} :: ordersOf b (S index) rest
  end.

(** [applyAiOrders] (lines 1444-1456) *)
Definition applyAiOrders (b : Browser) (s : State) : State :=
  {| notes := notes s;
     orders := ordersOf b 0 (recommended s) ++ orders s;
     editingNote := editingNote s;
     orderInput := orderInput s;
     isAiLoading := isAiLoading s;
     aiResult := None;
     selectedAiOrders := [] |}.

(** The state of the first visit (lines 1368-1386, nothing saved yet),
    with the first note opened and retitled. *)
Definition retitling : State :=
  let note := {| n_id := 1; n_date := "12/25"; n_type := "Admission Note";
                 n_title := "初步評估"; n_content := "患者主訴胸痛..." |} in
  {| notes := [note];
     orders := [{| o_id := 1; o_code := "IV001"; o_name := "N/S 500ml IV drip";
                   o_time := "08:45"; o_status := "Active" |}];
     editingNote := Some {| n_id := 1; n_date := "12/25"; n_type := "Admission Note";
                            n_title := "Chest pain"; n_content := "患者主訴胸痛..." |};
     orderInput := "";
     isAiLoading := false;
     aiResult := None;
     selectedAiOrders := [] |}.

Definition midnight : Browser :=
  {| dateNow := fun _ => 1766620800000%Z; mathRandom := fun _ => 1 # 2;
     timeOfDay := fun _ => "12:00 AM"; upperCase := fun s => s |}.

End Prototype.

(** * Properties *)

(** ** Strings *)

Module JsStringFacts.
Import JsString.

Lemma split_nonempty (sep : ascii) (s : string) : split sep s <> [].
Proof.
  induction s as [|c rest IH]; simpl; [discriminate|].
  destruct (Ascii.eqb c sep); [discriminate|].
  destruct (split sep rest); discriminate.
Qed.

(** Splitting on a space and joining with a space gives the string back. *)
Lemma join_split (s : string) : join " " (split " " s) = s.
Proof.
  induction s as [|c rest IH]; simpl; [reflexivity|].
  destruct (Ascii.eqb_spec c " ") as [->|Hc].
  - destruct (split " " rest) as [|p ps] eqn:E.
    + exfalso; exact (split_nonempty _ _ E).
    + simpl in *. rewrite IH. reflexivity.
  - destruct (split " " rest) as [|p ps] eqn:E.
    + exfalso; exact (split_nonempty _ _ E).
    + simpl in *. destruct ps; simpl in *; rewrite <- IH; reflexivity.
Qed.

Lemma append_empty (s : string) : (s ++ "")%string = s.
Proof. induction s as [|c r IH]; simpl; [reflexivity|rewrite IH; reflexivity]. Qed.

Lemma append_assoc (a b c : string) : ((a ++ b) ++ c)%string = (a ++ b ++ c)%string.
Proof. induction a as [|x r IH]; simpl; [reflexivity|rewrite IH; reflexivity]. Qed.

Lemma length_append (a b : string) : String.length (a ++ b) = String.length a + String.length b.
Proof. induction a as [|x r IH]; simpl; [reflexivity|rewrite IH; reflexivity]. Qed.

(** *** White space *)

Lemma byte_is (c : ascii) (n : nat) : nat_of_ascii c = n -> c = ascii_of_nat n.
Proof. intros <-. symmetry. apply ascii_nat_embedding. Qed.

Ltac in_list := simpl; repeat (first [left; reflexivity | right]).

Lemma isWhiteSpace_listed (a : ascii) :
  isWhiteSpace a = true -> In (String a "") whiteSpaceCharacters.
Proof.
  unfold isWhiteSpace. intros H.
  assert (Hn : nat_of_ascii a = 9 \/ nat_of_ascii a = 10 \/ nat_of_ascii a = 11 \/
               nat_of_ascii a = 12 \/ nat_of_ascii a = 13 \/ nat_of_ascii a = 32).
  { apply orb_true_iff in H. destruct H as [H|H].
    - apply andb_true_iff in H. destruct H as [H1 H2].
      apply Nat.leb_le in H1, H2. lia.
    - apply Nat.eqb_eq in H. lia. }
  repeat (destruct Hn as [Hn|Hn]; [rewrite (byte_is _ _ Hn); in_list|]).
  rewrite (byte_is _ _ Hn); in_list.
Qed.

Lemma isWhiteSpace2_listed (a b : ascii) :
  isWhiteSpace2 a b = true -> In (String a (String b "")) whiteSpaceCharacters.
Proof.
  unfold isWhiteSpace2, byte. intros H.
  apply andb_true_iff in H. destruct H as [H1 H2].
  apply Nat.eqb_eq in H1, H2.
  rewrite (byte_is _ _ H1), (byte_is _ _ H2). in_list.
Qed.

Lemma isWhiteSpace3_listed (a b c : ascii) :
  isWhiteSpace3 a b c = true ->
  In (String a (String b (String c ""))) whiteSpaceCharacters.
Proof.
  unfold isWhiteSpace3, byte. cbv zeta. intros H.
  repeat first [ rewrite orb_true_iff in H | rewrite andb_true_iff in H ].
  repeat rewrite Nat.eqb_eq in H. repeat rewrite Nat.leb_le in H.
  destruct H as [[[[H|H]|H]|H]|H]; destruct H as [[Ha Hb] Hc];
    rewrite (byte_is _ _ Ha), (byte_is _ _ Hb);
    try (rewrite (byte_is _ _ Hc); in_list).
  assert (Hn : nat_of_ascii c = 128 \/ nat_of_ascii c = 129 \/ nat_of_ascii c = 130 \/
               nat_of_ascii c = 131 \/ nat_of_ascii c = 132 \/ nat_of_ascii c = 133 \/
               nat_of_ascii c = 134 \/ nat_of_ascii c = 135 \/ nat_of_ascii c = 136 \/
               nat_of_ascii c = 137 \/ nat_of_ascii c = 138 \/ nat_of_ascii c = 168 \/
               nat_of_ascii c = 169 \/ nat_of_ascii c = 175) by lia.
  repeat (destruct Hn as [Hn|Hn]; [rewrite (byte_is _ _ Hn); in_list|]).
  rewrite (byte_is _ _ Hn); in_list.
Qed.

(** [trimStart] steps over a white space character. *)
Lemma trimStart_listed (w rest : string) :
  In w whiteSpaceCharacters -> trimStart (w ++ rest) = trimStart rest.
Proof.
  intros H. simpl in H.
  repeat (destruct H as [<-|H]; [reflexivity|]). destruct H.
Qed.

Lemma listed_nonempty (w : string) : In w whiteSpaceCharacters -> 0 < String.length w.
Proof.
  intros H. simpl in H.
  repeat (destruct H as [<-|H]; [simpl; lia|]). destruct H.
Qed.

(** One step of [trimStart]. *)
Lemma trimStart_step (s : string) :
  trimStart s = s \/
  exists w rest, In w whiteSpaceCharacters /\ s = (w ++ rest)%string
                 /\ trimStart s = trimStart rest.
Proof.
  destruct s as [|a rest]; [left; reflexivity|].
  cbn [trimStart].
  destruct (isWhiteSpace a) eqn:E1.
  { right. exists (String a ""), rest. split; [apply isWhiteSpace_listed, E1|]. split; reflexivity. }
  destruct rest as [|b rest2]; [left; reflexivity|].
  destruct (isWhiteSpace2 a b) eqn:E2.
  { right. exists (String a (String b "")), rest2.
    split; [apply isWhiteSpace2_listed, E2|]. split; reflexivity. }
  destruct rest2 as [|c rest3]; [left; reflexivity|].
  destruct (isWhiteSpace3 a b c) eqn:E3; [|left; reflexivity].
  right. exists (String a (String b (String c ""))), rest3.
  split; [apply isWhiteSpace3_listed, E3|]. split; reflexivity.
Qed.

Lemma by_length (P : string -> Prop) :
  (forall s, (forall r, String.length r < String.length s -> P r) -> P s) ->
  forall s, P s.
Proof.
  intros H s.
  assert (G : forall n r, String.length r < n -> P r).
  { induction n as [|n IH]; intros r Hr; [lia|].
    apply H. intros r' Hr'. apply IH. lia. }
  apply (G (S (String.length s))). lia.
Qed.

Lemma trimStart_lead (s : string) :
  exists lead, s = (lead ++ trimStart s)%string /\ AllWhite lead.
Proof.
  induction s as [s IH] using by_length.
  destruct (trimStart_step s) as [->|(w & rest & Hw & -> & ->)].
  - exists "". split; [reflexivity|constructor].
  - destruct (IH rest) as (lead & Hlead & Hwhite).
    { rewrite length_append. pose proof (listed_nonempty w Hw). lia. }
    exists (w ++ lead)%string. split; [|constructor; assumption].
    rewrite append_assoc. rewrite <- Hlead. reflexivity.
Qed.

Lemma trimStart_idem (s : string) : trimStart (trimStart s) = trimStart s.
Proof.
  induction s as [s IH] using by_length.
  destruct (trimStart_step s) as [H|(w & rest & Hw & -> & H)].
  - rewrite H. exact H.
  - rewrite H. apply IH.
    rewrite length_append. pose proof (listed_nonempty w Hw). lia.
Qed.

Lemma trimStart_shorter (s : string) : String.length (trimStart s) <= String.length s.
Proof.
  destruct (trimStart_lead s) as (lead & H & _).
  rewrite H at 2. rewrite length_append. lia.
Qed.

(** What [trimStart] returns starts with no white space character. *)
Lemma trimStart_tight (s w rest : string) :
  In w whiteSpaceCharacters -> trimStart s <> (w ++ rest)%string.
Proof.
  intros Hw H.
  pose proof (trimStart_idem s) as Hi. rewrite H in Hi.
  rewrite (trimStart_listed w rest Hw) in Hi.
  pose proof (trimStart_shorter rest) as Hl. rewrite Hi, length_append in Hl.
  pose proof (listed_nonempty w Hw). lia.
Qed.

Lemma allWhite_blank (s : string) : AllWhite s -> trimStart s = "".
Proof.
  induction 1 as [|w s Hw _ IH]; [reflexivity|].
  rewrite (trimStart_listed w s Hw). exact IH.
Qed.

Lemma blank_allWhite (s : string) : isBlank s = true -> AllWhite s.
Proof.
  unfold isBlank. intros H.
  destruct (trimStart_lead s) as (lead & Hs & Hlead).
  destruct (trimStart s); [|discriminate].
  rewrite append_empty in Hs. rewrite Hs. exact Hlead.
Qed.

Lemma trimEnd_trail (s : string) :
  exists trail, s = (trimEnd s ++ trail)%string /\ AllWhite trail.
Proof.
  induction s as [|c rest (trail & Hs & Htrail)].
  - exists "". split; [reflexivity|constructor].
  - cbn [trimEnd]. destruct (isBlank (String c rest)) eqn:E.
    + exists (String c rest). split; [reflexivity|apply blank_allWhite, E].
    + exists trail. split; [|exact Htrail]. simpl. rewrite <- Hs. reflexivity.
Qed.

(** [trimEnd] keeps nothing of a blank end. *)
Lemma trimEnd_cut (p q : string) :
  trimStart q = "" -> String.length (trimEnd (p ++ q)) <= String.length p.
Proof.
  intros Hq. induction p as [|c p IH].
  - simpl. destruct q as [|c q]; [simpl; lia|].
    cbn [trimEnd]. unfold isBlank. rewrite Hq. simpl; lia.
  - change (String c p ++ q)%string with (String c (p ++ q)).
    cbn [trimEnd]. destruct (isBlank _); simpl; lia.
Qed.

(** What [trimEnd] returns ends with no white space character. *)
Lemma trimEnd_tight (s w rest : string) :
  In w whiteSpaceCharacters -> trimEnd s <> (rest ++ w)%string.
Proof.
  intros Hw H.
  destruct (trimEnd_trail s) as (trail & Hs & Htrail).
  rewrite H, append_assoc in Hs.
  assert (Hblank : trimStart (w ++ trail) = "").
  { apply allWhite_blank. constructor; assumption. }
  pose proof (trimEnd_cut rest (w ++ trail) Hblank) as Hl.
  rewrite <- Hs, H, length_append in Hl.
  pose proof (listed_nonempty w Hw). lia.
Qed.

(** [trim] removes the white space at the two ends, and nothing else. *)
Lemma trim_stripped (s : string) : Stripped s (trim s).
Proof.
  unfold trim.
  destruct (trimStart_lead s) as (lead & Hs & Hlead).
  destruct (trimEnd_trail (trimStart s)) as (trail & Ht & Htrail).
  split; [|split].
  - exists lead, trail. split; [|split; assumption].
    rewrite <- Ht. exact Hs.
  - intros w rest Hw H. rewrite H, append_assoc in Ht.
    exact (trimStart_tight s w _ Hw Ht).
  - intros w rest Hw. apply trimEnd_tight, Hw.
Qed.

(** A trimmed string is empty or starts with a character that is not
    white space. *)
Lemma trim_head (s : string) :
  trim s = EmptyString \/
  exists c r, trim s = String c r /\ isWhiteSpace c = false.
Proof.
  destruct (trim s) as [|c r] eqn:E; [left; reflexivity|right].
  exists c, r. split; [reflexivity|].
  destruct (isWhiteSpace c) eqn:Hc; [exfalso|reflexivity].
  destruct (trim_stripped s) as (_ & Htight & _).
  apply (Htight (String c "") r (isWhiteSpace_listed c Hc)). rewrite E. reflexivity.
Qed.

(** *** Upper case *)

Lemma capital_upperChar (c : ascii) : upperChar c = capital c.
Proof. destruct c as [[] [] [] [] [] [] [] []]; reflexivity. Qed.

Lemma outsideAscii_append (a b : string) :
  outsideAscii a -> outsideAscii b -> outsideAscii (a ++ b).
Proof.
  induction a as [|c r IH]; simpl; [intros _ H; exact H|].
  intros [Hc Hr] Hb. split; [exact Hc|apply IH; assumption].
Qed.

Lemma upperFrom_uppercased (outside : string -> string) (s : string) :
  forall stretch,
    outsideAscii stretch ->
    Uppercased outside (stretch ++ s) (upperFrom outside stretch s).
Proof.
  induction s as [|c rest IH]; intros stretch Hstretch; cbn [upperFrom].
  - rewrite append_empty. destruct stretch as [|d stretch]; [constructor|].
    cbn [converted].
    rewrite <- (append_empty (String d stretch)) at 1.
    rewrite <- (append_empty (outside (String d stretch))).
    apply upper_outside; [discriminate|exact Hstretch|exact I|constructor].
  - unfold isAscii. destruct (Nat.ltb_spec (nat_of_ascii c) 128) as [Hc|Hc].
    + assert (Hrest : Uppercased outside (String c rest)
                        (String (upperChar c) (upperFrom outside "" rest))).
      { rewrite capital_upperChar. apply upper_ascii; [exact Hc|].
        exact (IH "" I). }
      destruct stretch as [|d stretch]; [exact Hrest|].
      cbn [converted]. apply upper_outside; [discriminate|exact Hstretch|exact Hc|exact Hrest].
    + specialize (IH (stretch ++ String c "")%string).
      rewrite append_assoc in IH. apply IH.
      apply outsideAscii_append; [exact Hstretch|]. simpl. split; [exact Hc|exact I].
Qed.

Lemma toUpperCase_uppercased (outside : string -> string) (s : string) :
  Uppercased outside s (toUpperCase outside s).
Proof. exact (upperFrom_uppercased outside s "" I). Qed.

(** A text is cut in one way into a stretch outside ASCII and what
    follows it. *)
Lemma stretch_unique (stretch1 stretch2 s1 s2 : string) :
  outsideAscii stretch1 -> outsideAscii stretch2 -> atAscii s1 -> atAscii s2 ->
  (stretch1 ++ s1)%string = (stretch2 ++ s2)%string ->
  stretch1 = stretch2 /\ s1 = s2.
Proof.
  revert stretch2. induction stretch1 as [|c r IH]; intros [|d r'] H1 H2 Hs1 Hs2 H; simpl in *.
  - split; [reflexivity|exact H].
  - subst s1. simpl in Hs1. destruct H2 as [H2 _]. lia.
  - subst s2. simpl in Hs2. destruct H1 as [H1 _]. lia.
  - injection H as -> H. destruct H1 as [_ H1]. destruct H2 as [_ H2].
    destruct (IH r' H1 H2 Hs1 Hs2 H) as [-> ->]. split; reflexivity.
Qed.

(** A text has one upper case. *)
Lemma uppercased_unique (outside : string -> string) (s upper1 upper2 : string) :
  Uppercased outside s upper1 -> Uppercased outside s upper2 -> upper1 = upper2.
Proof.
  intros H1. revert upper2.
  induction H1 as [|c s t Hc _ IH|stretch s t Hne Hout Hat _ IH]; intros upper2 H2.
  - remember EmptyString as text eqn:Etext.
    destruct H2 as [|c' s' t' Hc' Hrest|stretch' s' t' Hne' Hout' Hat' Hrest].
    + reflexivity.
    + discriminate.
    + destruct stretch'; [contradiction|discriminate].
  - remember (String c s) as text eqn:Etext.
    destruct H2 as [|c' s' t' Hc' Hrest|stretch' s' t' Hne' Hout' Hat' Hrest].
    + discriminate.
    + injection Etext as -> ->. f_equal. apply IH. exact Hrest.
    + destruct stretch' as [|d r]; [contradiction|].
      simpl in Etext. injection Etext as -> _. destruct Hout' as [Hout' _]. lia.
  - remember (stretch ++ s)%string as text eqn:Etext.
    destruct H2 as [|c' s' t' Hc' Hrest|stretch' s' t' Hne' Hout' Hat' Hrest].
    + destruct stretch; [contradiction|discriminate].
    + destruct stretch as [|d r]; [contradiction|].
      simpl in Etext. injection Etext as -> _. destruct Hout as [Hout _]. lia.
    + destruct (stretch_unique _ _ _ _ Hout' Hout Hat' Hat Etext) as [-> ->].
      f_equal. apply IH. exact Hrest.
Qed.

Lemma truthy_true (s : string) : truthy s = true <-> s <> EmptyString.
Proof. destruct s; simpl; split; congruence. Qed.

End JsStringFacts.

Module OrderTextFacts.
Import JsString OrderText JsStringFacts.

(** [split] puts the first token in front; joining the other pieces gives
    what follows the first space. *)
Lemma split_firstToken (s : string) :
  exists pieces, split " " s = firstToken s :: pieces /\ join " " pieces = remainder s.
Proof.
  induction s as [|c rest [pieces [IHs IHj]]]; simpl.
  - exists []; split; reflexivity.
  - destruct (Ascii.eqb c " ").
    + exists (split " " rest); split; [reflexivity|apply join_split].
    + rewrite IHs. exists pieces; split; [reflexivity|exact IHj].
Qed.

Lemma parseTrimmed_spec (outside : string -> string) (val : string) :
  parseTrimmed outside val =
  {| code := if truthy (firstToken val)
             then Some (toUpperCase outside (firstToken val)) else None;
     name := orElse (remainder val) "General Order" |}.
Proof.
  unfold parseTrimmed. destruct (split_firstToken val) as [pieces [-> ->]]. reflexivity.
Qed.

Lemma firstToken_nonempty (c : ascii) (r : string) :
  isWhiteSpace c = false -> truthy (firstToken (String c r)) = true.
Proof.
  intros H; simpl. destruct (Ascii.eqb_spec c " ") as [->|_]; [discriminate H|reflexivity].
Qed.

(** The parse of an input, as the specification words it. *)
Lemma parse_spec (outside : string -> string) (rawInput : string) :
  parse outside rawInput =
  if truthy (trim rawInput)
  then Some {| code := Some (toUpperCase outside (firstToken (trim rawInput)));
               name := orElse (remainder (trim rawInput)) "General Order" |}
  else None.
Proof.
  unfold parse. destruct (trim_head rawInput) as [->|[c [r [-> Hc]]]]; [reflexivity|].
  cbn [truthy]. rewrite parseTrimmed_spec, (firstToken_nonempty c r Hc). reflexivity.
Qed.

End OrderTextFacts.

(** ** Invariants of handlers *)

Section Preserves.
Variable Inv : World -> Prop.

Lemma preserves_ret {A} (a : A) : preserves Inv (ret a).
Proof. intros env w H; exact H. Qed.

Lemma preserves_throw {A} : preserves Inv (@throw A).
Proof. intros env w H; exact H. Qed.

Lemma preserves_now : preserves Inv now.
Proof. intros env w H; exact H. Qed.

Lemma preserves_globalNumber : preserves Inv globalNumber.
Proof. intros env w H; exact H. Qed.

Lemma preserves_upperCaseTable : preserves Inv upperCaseTable.
Proof. intros env w H; exact H. Qed.

Lemma preserves_newDate s : preserves Inv (newDate s).
Proof. intros env w H; exact H. Qed.

Lemma preserves_bind {A B} (m : Js A) (k : A -> Js B) :
  preserves Inv m -> (forall a, preserves Inv (k a)) -> preserves Inv (bind m k).
Proof.
  intros Hm Hk env w H. unfold exec, bind.
  specialize (Hm env w H). unfold exec in Hm.
  destruct (m env w) as [[a|] w']; simpl in *; [apply Hk|]; exact Hm.
Qed.

Lemma preserves_tryCatch {A} (m handler : Js A) :
  preserves Inv m -> preserves Inv handler -> preserves Inv (tryCatch m handler).
Proof.
  intros Hm Hh env w H. unfold exec, tryCatch.
  specialize (Hm env w H). unfold exec in Hm.
  destruct (m env w) as [[a|] w']; simpl in *; [|apply Hh]; exact Hm.
Qed.

Lemma preserves_tryFinally {A} (m : Js A) (fin : Js unit) :
  preserves Inv m -> preserves Inv fin -> preserves Inv (tryFinally m fin).
Proof.
  intros Hm Hf env w H. unfold exec, tryFinally.
  specialize (Hm env w H). unfold exec in Hm.
  destruct (m env w) as [c w']; simpl in *.
  specialize (Hf env w' Hm). unfold exec in Hf.
  destruct (fin env w') as [[[]|] w'']; exact Hf.
Qed.

Lemma preserves_spawn (m : Js unit) : preserves Inv m -> preserves Inv (spawn m).
Proof. intros Hm env w H. exact (Hm env w H). Qed.

Lemma preserves_both {A B} (a : Js A) (b : Js B) :
  preserves Inv a -> preserves Inv b -> preserves Inv (both a b).
Proof.
  intros Ha Hb env w H. unfold exec, both.
  specialize (Ha env w H). unfold exec in Ha.
  destruct (a env w) as [ca w1]; simpl in *.
  specialize (Hb env w1 Ha). unfold exec in Hb.
  destruct (b env w1) as [cb w2]; simpl in *.
  destruct ca, cb; exact Hb.
Qed.

Lemma preserves_forEach {A} (l : list A) (body : A -> Js unit) :
  (forall x, preserves Inv (body x)) -> preserves Inv (forEach l body).
Proof.
  intros Hb. induction l as [|x rest IH]; simpl.
  - apply preserves_ret.
  - apply preserves_bind; [apply Hb|intros _; exact IH].
Qed.
End Preserves.

Section Fieldwise.
Variables (PS : Store -> Prop) (PU : UI -> Prop) (PT : list Effect -> Prop).

Lemma fieldwise_setState (f : UI -> UI) :
  (forall u, PU u -> PU (f u)) -> preserves (fieldwise PS PU PT) (setState f).
Proof. intros Hf env w (HS & HU & HT). repeat split; simpl; auto. Qed.

Lemma fieldwise_alert (message : string) :
  (forall tr, PT tr -> PT (tr ++ [Alert message])) ->
  preserves (fieldwise PS PU PT) (alert message).
Proof. intros He env w (HS & HU & HT). repeat split; simpl; auto. Qed.

Lemma fieldwise_consoleError (label : string) :
  (forall tr, PT tr -> PT (tr ++ [ConsoleError label])) ->
  preserves (fieldwise PS PU PT) (consoleError label).
Proof. intros He env w (HS & HU & HT). repeat split; simpl; auto. Qed.

Lemma fieldwise_invoke (fn : string) (body : value) :
  (forall tr, PT tr -> PT (tr ++ [Invoke fn body])) ->
  preserves (fieldwise PS PU PT) (invoke fn body).
Proof.
  intros He env w (HS & HU & HT). unfold exec, invoke.
  destruct (invokeOutcome env (clock w)); repeat split; simpl; auto.
Qed.

Lemma fieldwise_storeCall (t : table) (request : Effect)
    (apply : Env -> nat -> Store -> Store * list Row) :
  (forall tr, PT tr -> PT (tr ++ [request])) ->
  (forall env n st, PS st -> PS (fst (apply env n st))) ->
  preserves (fieldwise PS PU PT) (storeCall t request apply).
Proof.
  intros He Ha env w (HS & HU & HT). unfold exec, storeCall.
  destruct (storeOutcome env t (clock w)).
  - specialize (Ha env (clock w) (store w) HS).
    destruct (apply env (clock w) (store w)) as [st' rows].
    repeat split; simpl; auto.
  - repeat split; simpl; auto.
  - repeat split; simpl; auto.
Qed.
End Fieldwise.

Lemma emittedSince_refl (before : list Effect) (ok : Effect -> Prop) :
  emittedSince before ok before.
Proof. exists []. rewrite app_nil_r. split; constructor. Qed.

Lemma emittedSince_snoc (before : list Effect) (ok : Effect -> Prop) (e : Effect) (tr : list Effect) :
  ok e -> emittedSince before ok tr -> emittedSince before ok (tr ++ [e]).
Proof.
  intros He (es & -> & Hes). exists (es ++ [e]). rewrite app_assoc. split; [reflexivity|].
  apply Forall_app; split; [exact Hes|constructor; [exact He|constructor]].
Qed.

(** The handlers and what they are made of, for unfolding. *)
Create HintDb js_ops.
#[local] Hint Unfold
  setPatients setSelectedPatientId setEncounters setSelectedEncounterId
  setNotes setOrders setResults setDdx setIsBusy setIsPatientModalOpen
  setEditingNote setIsAiLoading setLatestAiRun setAiSuggestions
  setSelectedAiOrderSuggestionIds setInput
  dbSelect dbInsert dbUpdate toISOString reportError logEvent
  fetchPatients fetchEncounters fetchEncounterData fetchLatestAi
  patientEffect encounterEffect createPatient createEncounter saveNote
  addOrder addResult addHumanDdx runAiBody runAi applyAiOrders
  handle runEffects : js_ops.

(** Walks down a handler to its primitive calls; [side] settles what the
    invariant asks of each of them. *)
Ltac js_walk side :=
  repeat (cbv beta zeta;
    lazymatch goal with
    | |- preserves _ (ret _) => apply preserves_ret
    | |- preserves _ throw => apply preserves_throw
    | |- preserves _ now => apply preserves_now
    | |- preserves _ globalNumber => apply preserves_globalNumber
    | |- preserves _ upperCaseTable => apply preserves_upperCaseTable
    | |- preserves _ (newDate _) => apply preserves_newDate
    | |- preserves _ (bind _ _) => apply preserves_bind; [|intros ?]
    | |- preserves _ (tryCatch _ _) => apply preserves_tryCatch
    | |- preserves _ (tryFinally _ _) => apply preserves_tryFinally
    | |- preserves _ (spawn _) => apply preserves_spawn
    | |- preserves _ (both _ _) => apply preserves_both
    | |- preserves _ (forEach _ _) => apply preserves_forEach; intros ?
    | |- preserves _ (setState _) => apply fieldwise_setState; side
    | |- preserves _ (alert _) => apply fieldwise_alert; side
    | |- preserves _ (consoleError _) => apply fieldwise_consoleError; side
    | |- preserves _ (invoke _ _) => apply fieldwise_invoke; side
    | |- preserves _ (storeCall _ _ _) => apply fieldwise_storeCall; side
    | |- preserves _ (match ?x with _ => _ end) => destruct x eqn:?
    | |- preserves _ _ => progress autounfold with js_ops
    end).

(** ** Shape of the selects *)

Ltac shape_side :=
  solve [ intros; exact I
        | intros; apply emittedSince_snoc; [ reflexivity | assumption ] ].

Lemma handle_actualShape (before : list Effect) (a : Action) (u : UI) :
  preserves (fieldwise anyStore anyUI (emittedSince before (fun e => actualShape e = true)))
            (handle a u).
Proof. destruct a; js_walk shape_side. Qed.

Lemma runEffects_actualShape (before : list Effect) (mounting : bool) (rendered current : UI) :
  preserves (fieldwise anyStore anyUI (emittedSince before (fun e => actualShape e = true)))
            (runEffects mounting rendered current).
Proof. js_walk shape_side. Qed.

(** An invariant of the handlers and of the effects is an invariant of a
    whole user event. *)
Lemma step_preserves (Inv : World -> Prop) :
  (forall a u, preserves Inv (handle a u)) ->
  (forall mounting rendered current, preserves Inv (runEffects mounting rendered current)) ->
  forall env a w, Inv w -> Inv (step env a w).
Proof.
  intros Hh He env a w H. unfold step.
  apply (He false), (He (isReload a)), (Hh a). exact H.
Qed.

Lemma fieldwise_trace (ok : Effect -> Prop) (w w' : World) :
  fieldwise anyStore anyUI (emittedSince (trace w) ok) w' ->
  emittedSince (trace w) ok (trace w').
Proof. intros (_ & _ & H); exact H. Qed.

Lemma fieldwise_trace_start (ok : Effect -> Prop) (w : World) :
  fieldwise anyStore anyUI (emittedSince (trace w) ok) w.
Proof. repeat split. apply emittedSince_refl. Qed.

Lemma Forall_forallb {A} (f : A -> bool) (l : list A) :
  Forall (fun x => f x = true) l -> forallb f l = true.
Proof. intros H; apply forallb_forall. apply Forall_forall. exact H. Qed.

(** What was emitted since [before], read back off the trace. *)
Lemma emittedSince_skipn (before tr : list Effect) (f : Effect -> bool) :
  emittedSince before (fun e => f e = true) tr ->
  forallb f (skipn (length before) tr) = true.
Proof.
  intros (es & -> & H). rewrite skipn_app, skipn_all, Nat.sub_diag. simpl.
  apply Forall_forallb; exact H.
Qed.

(** C5, as stated, fails twice. With an encounter selected, an AI round
    trip reloads the suggestions of the new run oldest first
    ([ascending: true], line 285); and mounting the component fetches the
    patients with no filter (lines 205-208). *)
Lemma C5_stated_shape_fails :
  ~ stepEmits (fun e => statedShape e = true) calmEnv RunAi ward /\
  ~ stepEmits (fun e => statedShape e = true) calmEnv Reload (boot emptyStore).
Proof.
  split; intros H; apply emittedSince_skipn in H; vm_compute in H; discriminate H.
Qed.

(** C5, amended: every select is ordered on a timestamp column; it is
    filtered by the owning foreign key and newest first, except that the
    patients (which have no owner) are fetched unfiltered, and that the
    suggestions of the latest AI run, filtered by [ai_run_id], are ordered
    by [created_at] oldest first. Table by table: patients, unfiltered, by
    [created_at]; encounters, of one patient, by [created_at]; notes,
    orders, results and ddx entries, of one encounter, by [occurred_at];
    AI runs, of one encounter, by [created_at]; no event of the timeline is
    ever read. *)
Theorem C5_selects_have_actual_shape (env : Env) (a : Action) (w : World) :
  stepEmits (fun e => actualShape e = true) env a w.
Proof.
  apply fieldwise_trace.
  apply step_preserves.
  - intros; apply handle_actualShape.
  - intros; apply runEffects_actualShape.
  - apply fieldwise_trace_start.
Qed.

(** ** Traces of a handler that starts with an insert *)

Ltac any_side :=
  solve [ intros; exact I
        | intros; apply emittedSince_snoc; [ exact I | assumption ] ].

Lemma nonEmptyId_Some (o : option string) (s : string) :
  nonEmptyId o = Some s -> o = Some s /\ s <> "".
Proof.
  destruct o as [x|]; simpl; [|discriminate].
  destruct x; simpl; [discriminate|]. intros H; injection H as <-. split; [reflexivity|discriminate].
Qed.

Lemma rowsOf_withRows (t t' : table) (f : list Row -> list Row) (st : Store) :
  rowsOf t' (withRows t f st) = if table_eqb t t' then f (rowsOf t' st) else rowsOf t' st.
Proof. destruct st, t, t'; reflexivity. Qed.

(** The first effect of [dbInsert ... ;; k] is the insert, and the store
    holds the stamped rows afterwards when it accepted them and [k] leaves
    the table alone. *)
Lemma dbInsert_then {B} (t : table) (rows : list Row) (returning : option (list string))
    (k : Response -> Js B) (env : Env) (w : World) :
  (forall r PS,
      (forall st f, PS st -> PS (withRows patient_events_t f st)) ->
      preserves (fieldwise PS anyUI (emittedSince (trace w ++ [Insert t rows]) anyEffect)) (k r)) ->
  let w' := exec (bind (dbInsert t rows returning) k) env w in
  (exists rest, trace w' = trace w ++ Insert t rows :: rest) /\
  (t <> patient_events_t -> storeOutcome env t (clock w) = Ok ->
   rowsOf t (store w') = rowsOf t (store w) ++ stamp env (clock w) 0 rows).
Proof.
  intros Hk w'. subst w'. unfold exec, bind, dbInsert, storeCall.
  destruct (storeOutcome env t (clock w)) eqn:Ho; cbn [fst snd].
  - set (w1 := withStore _ _).
    assert (H1 : fieldwise
                   (fun st => t <> patient_events_t ->
                              rowsOf t st = rowsOf t (store w) ++ stamp env (clock w) 0 rows)
                   anyUI (emittedSince (trace w ++ [Insert t rows]) anyEffect) w1).
    { repeat split; [|apply emittedSince_refl].
      subst w1; simpl. rewrite rowsOf_withRows.
      destruct t; reflexivity. }
    match goal with |- context [k ?r env w1] => specialize (Hk r) end.
    match type of H1 with fieldwise ?PS _ _ _ => specialize (Hk PS) end.
    match type of Hk with ?P -> _ =>
      assert (HP : P); [|specialize (Hk HP env w1 H1)] end.
    { intros st f Hst Hne. rewrite rowsOf_withRows.
      destruct t; try (apply Hst; exact Hne). exfalso; apply Hne; reflexivity. }
    unfold exec in Hk. destruct (k _ env w1) as [c w2]; cbn [snd] in *.
    destruct Hk as (HS & _ & (es & -> & _)).
    split; [exists es; rewrite <- app_assoc; reflexivity|intros Hne _; exact (HS Hne)].
  - set (w1 := tick _).
    assert (H1 : fieldwise (fun _ => True) anyUI
                   (emittedSince (trace w ++ [Insert t rows]) anyEffect) w1).
    { repeat split. apply emittedSince_refl. }
    match goal with |- context [k ?r env w1] => specialize (Hk r) end.
    specialize (Hk (fun _ => True) (fun _ _ _ => I) env w1 H1).
    unfold exec in Hk. destruct (k _ env w1) as [c w2]; cbn [snd] in *.
    destruct Hk as (_ & _ & (es & -> & _)).
    split; [exists es; rewrite <- app_assoc; reflexivity|discriminate].
  - cbn. split; [exists []; reflexivity|discriminate].
Qed.

Ltac frame_side :=
  solve [ intros; exact I
        | intros; apply emittedSince_snoc; [ exact I | assumption ]
        | intros; cbn [fst]; auto ].

(** ** Order text parsing *)

Lemma orElse_default (s fallback : string) :
  JsString.orElse s fallback = match s with EmptyString => fallback | _ => s end.
Proof. destruct s; reflexivity. Qed.

Lemma bind_upperCaseTable {A} (k : (string -> string) -> Js A) (env : Env) (w : World) :
  bind upperCaseTable k env w = k (upperCase env) env w.
Proof. reflexivity. Qed.

(** C1. The value [addOrder] works on is the input without the white space
    at its two ends (every white space character of JavaScript, not only
    the ASCII ones). When nothing is left, no order is created and nothing
    changes. Otherwise, with an encounter selected, the first request of
    [addOrder] is the insert of one order whose code is the first
    space-separated token in upper case (each ASCII letter replaced by its
    capital, text outside ASCII converted by the engine; there is one such
    text) and whose name is
    what follows the first space, or "General Order" when nothing does; the
    store holds that row once it has accepted the insert. The three inputs
    of the specification parse as it says, and so do a lower-case input and
    inputs with an ideographic space. *)
Theorem C1_addOrder_parses (env : Env) (w : World) (rawInput : string) :
  let val := JsString.trim rawInput in
  let w' := exec (addOrder (ui w) rawInput) env w in
  Stripped rawInput val /\
  (val = "" -> addOrder (ui w) rawInput env w = (Normal tt, w)) /\
  (forall encounterId,
      val <> "" ->
      nonEmptyId (selectedEncounterId (ui w)) = Some encounterId ->
      exists code,
        Uppercased (upperCase env) (OrderText.firstToken val) code /\
        (forall other,
            Uppercased (upperCase env) (OrderText.firstToken val) other -> other = code) /\
        let row := specifiedOrder encounterId code (specifiedName val) (clock w) in
        (exists rest, trace w' = trace w ++ Insert orders_t [row] :: rest) /\
        (storeOutcome env orders_t (clock w) = Ok ->
         orders_rows (store w') = orders_rows (store w) ++ stamp env (clock w) 0 [row])) /\
  (forall outside,
      OrderText.parse outside "IV001 N/S 500ml" =
        Some {| OrderText.code := Some "IV001"; OrderText.name := "N/S 500ml" |} /\
      OrderText.parse outside "CBC" =
        Some {| OrderText.code := Some "CBC"; OrderText.name := "General Order" |} /\
      OrderText.parse outside "  " = None /\
      OrderText.parse outside "iv001 n/s 500ml" =
        Some {| OrderText.code := Some "IV001"; OrderText.name := "n/s 500ml" |} /\
      OrderText.parse outside (utf8 [227; 128; 128] ++ "cbc" ++ utf8 [227; 128; 128]) =
        Some {| OrderText.code := Some "CBC"; OrderText.name := "General Order" |} /\
      OrderText.parse outside (utf8 [32; 227; 128; 128; 194; 160; 9]) = None).
Proof.
  intros val w'. split; [apply JsStringFacts.trim_stripped|].
  split; [|split; [|intros outside; repeat split; reflexivity]].
  - intros Hval. unfold addOrder.
    destruct (nonEmptyId (selectedEncounterId (ui w))); [|reflexivity].
    rewrite bind_upperCaseTable, OrderTextFacts.parse_spec. fold val. rewrite Hval. reflexivity.
  - intros encounterId Hval Hsel.
    exists (JsString.toUpperCase (upperCase env) (OrderText.firstToken val)).
    split; [apply JsStringFacts.toUpperCase_uppercased|].
    split.
    { intros other Hother.
      exact (JsStringFacts.uppercased_unique _ _ _ _ Hother
               (JsStringFacts.toUpperCase_uppercased _ _)). }
    intros row. subst w'. unfold addOrder. rewrite Hsel.
    unfold exec. rewrite bind_upperCaseTable, OrderTextFacts.parse_spec. fold val.
    apply JsStringFacts.truthy_true in Hval. rewrite Hval.
    unfold bind at 1, now. cbn [fst snd].
    unfold orderRow. cbn [OrderText.code OrderText.name optStr]. rewrite orElse_default.
    fold (specifiedName val).
    fold (specifiedOrder encounterId
            (JsString.toUpperCase (upperCase env) (OrderText.firstToken val))
            (specifiedName val) (clock w)).
    fold row.
    match goal with
    | |- context [bind (dbInsert ?t ?rows ?ret) ?k env w] =>
        destruct (dbInsert_then t rows ret k env w) as [Htrace Hstore]
    end.
    + intros r PS HPS. js_walk frame_side.
    + split; [exact Htrace|]. intros Hok. apply Hstore; [discriminate|exact Hok].
Qed.

(** ** Guards *)

Lemma sameId_refl (o : option string) : sameId o o = true.
Proof. destruct o; simpl; [apply String.eqb_refl|reflexivity]. Qed.

Lemma sameId_eq (a b : option string) : sameId a b = true -> a = b.
Proof.
  destruct a, b; simpl; try discriminate; [|reflexivity].
  intros H; apply String.eqb_eq in H; congruence.
Qed.

(** A handler that leaves the world as it found it triggers no effect. *)
Lemma step_of_noop (env : Env) (a : Action) (w : World) :
  isReload a = false ->
  handle a (ui w) env w = (Normal tt, w) ->
  step env a w = w.
Proof.
  intros Ha H. unfold step. rewrite H, Ha. cbn [snd].
  unfold runEffects. rewrite !sameId_refl. reflexivity.
Qed.

(** C7. With no selected suggestion of type order, [applyAiOrders] does
    nothing: the world (store, state, trace of requests, clock) is the
    same after the handler and after the whole user event. *)
Theorem C7_apply_nothing_is_noop (env : Env) (w : World) :
  picksOf (ui w) = [] ->
  applyAiOrders (ui w) env w = (Normal tt, w) /\
  step env ApplyAiOrders w = w.
Proof.
  intros Hpicks.
  assert (H : applyAiOrders (ui w) env w = (Normal tt, w)).
  { unfold applyAiOrders. rewrite Hpicks.
    destruct (nonEmptyId (selectedEncounterId (ui w))); reflexivity. }
  split; [exact H|]. apply step_of_noop; [reflexivity|exact H].
Qed.

Lemma hasEncounterRef_literal (e : string) (rest : Row) :
  e <> "" -> hasEncounterRef (("encounter_id", VStr e) :: rest).
Proof. intros He. exists e. split; [reflexivity|exact He]. Qed.

Lemma Forall_map_intro {A B} (P : B -> Prop) (f : A -> B) (l : list A) :
  (forall x, P (f x)) -> Forall P (map f l).
Proof. intros H. induction l; simpl; constructor; auto. Qed.

Ltac nonempty_id :=
  match goal with
  | H : nonEmptyId _ = Some ?s |- ?s <> _ => exact (proj2 (nonEmptyId_Some _ _ H))
  end.

Ltac ref_rows :=
  repeat first
    [ apply Forall_nil
    | apply Forall_cons
    | apply Forall_app; split
    | apply Forall_map_intro; intros ?
    | apply hasEncounterRef_literal; nonempty_id
    | progress unfold diagRows, orderRows, ddxRows, aiOrderRow, orderRow ].

Ltac ref_side :=
  solve [ intros; exact I
        | intros; apply emittedSince_snoc; [ | assumption ];
          first [ exact I | discriminate 1 | intros _; ref_rows ] ].

Lemma handle_refersToEncounter (before : list Effect) (a : Action) (u : UI) :
  preserves (fieldwise anyStore anyUI (emittedSince before refersToEncounter)) (handle a u).
Proof. destruct a; js_walk ref_side. Qed.

Lemma runEffects_refersToEncounter (before : list Effect) (mounting : bool) (rendered current : UI) :
  preserves (fieldwise anyStore anyUI (emittedSince before refersToEncounter))
            (runEffects mounting rendered current).
Proof. js_walk ref_side. Qed.

(** C9. With no encounter selected, [saveNote], [addOrder], [addHumanDdx],
    [runAi] and [applyAiOrders] return at once: no request is issued and
    nothing changes. Hence every row a user event writes to a table of
    encounter data names an encounter. *)
Theorem C9_guarded_by_encounter (env : Env) (w : World) :
  (nonEmptyId (selectedEncounterId (ui w)) = None ->
   saveNote (ui w) env w = (Normal tt, w) /\
   (forall rawInput, addOrder (ui w) rawInput env w = (Normal tt, w)) /\
   addHumanDdx (ui w) env w = (Normal tt, w) /\
   runAi (ui w) env w = (Normal tt, w) /\
   applyAiOrders (ui w) env w = (Normal tt, w)) /\
  (forall a, stepEmits refersToEncounter env a w).
Proof.
  split.
  - intros H.
    unfold saveNote, addOrder, addHumanDdx, runAi, applyAiOrders. rewrite H.
    repeat split; reflexivity.
  - intros a. apply fieldwise_trace. apply step_preserves.
    + intros; apply handle_refersToEncounter.
    + intros; apply runEffects_refersToEncounter.
    + apply fieldwise_trace_start.
Qed.

(** ** Probability of a human DDX entry *)

Lemma humanProb_nullOrFinite (Number : string -> number) (text : string) :
  nullOrFinite (humanProb Number text).
Proof.
  unfold humanProb, nullOrFinite.
  destruct (JsString.truthy (JsString.trim text)); simpl; [|left; reflexivity].
  destruct (Number text) as [| |q]; simpl; [left|left|right; exists q]; reflexivity.
Qed.

(** C10. The [prob] of the row [addHumanDdx] sends is [null] or a finite
    number, whatever [Number] makes of the text: [null] for a text that
    trims to nothing, [null] when the conversion is NaN or an infinity.
    With an encounter selected and a name given, that row is the first
    thing the handler sends. *)
Theorem C10_human_prob_null_or_finite (env : Env) (w : World) :
  let u := ui w in
  let text := inputs u ddxProb in
  let prob := humanProb (toNumber env) text in
  nullOrFinite prob /\
  (JsString.trim text = "" -> prob = VNull) /\
  (toNumber env text = NaN -> prob = VNull) /\
  (forall negative, toNumber env text = Infinity negative -> prob = VNull) /\
  (forall encounterId,
      nonEmptyId (selectedEncounterId u) = Some encounterId ->
      JsString.trim (inputs u ddxName) <> "" ->
      let row := humanDdxRow env u encounterId (clock w) in
      get "prob" row = prob /\
      exists rest,
        trace (exec (addHumanDdx u) env w) = trace w ++ Insert ddx_entries_t [row] :: rest).
Proof.
  intros u text prob. subst prob. split; [|split; [|split; [|split]]].
  - apply humanProb_nullOrFinite.
  - intros H. unfold humanProb. rewrite H. reflexivity.
  - intros H. unfold humanProb. rewrite H.
    destruct (JsString.truthy (JsString.trim text)); reflexivity.
  - intros negative H. unfold humanProb. rewrite H.
    destruct (JsString.truthy (JsString.trim text)); reflexivity.
  - intros encounterId Hsel Hname row. split; [reflexivity|]. subst row.
    unfold addHumanDdx. rewrite Hsel.
    apply JsStringFacts.truthy_true in Hname. fold u. rewrite Hname. cbn [negb].
    unfold exec, bind at 1, globalNumber. cbn [fst snd].
    unfold bind at 1, now. cbn [fst snd].
    fold (humanDdxRow env u encounterId (clock w)).
    match goal with
    | |- context [bind (dbInsert ?t ?rows ?ret) ?k env w] =>
        destruct (dbInsert_then t rows ret k env w) as [Htrace _]
    end.
    + intros r PS HPS. js_walk frame_side.
    + exact Htrace.
Qed.

(** ** The AI round trip *)

Lemma runEffects_idle (rendered current : UI) (env : Env) (w : World) :
  selectedPatientId current = selectedPatientId rendered ->
  selectedEncounterId current = selectedEncounterId rendered ->
  runEffects false rendered current env w = (Normal tt, w).
Proof.
  intros Hp He. unfold runEffects. rewrite Hp, He, !sameId_refl. reflexivity.
Qed.

(** A handler that keeps the selection triggers no effect. *)
Lemma step_keeps_selection (env : Env) (a : Action) (w : World) :
  isReload a = false ->
  let w' := exec (handle a (ui w)) env w in
  selectedPatientId (ui w') = selectedPatientId (ui w) ->
  selectedEncounterId (ui w') = selectedEncounterId (ui w) ->
  step env a w = w'.
Proof.
  intros Ha w' Hp He. unfold step. fold (exec (handle a (ui w)) env w). fold w'.
  rewrite Ha, (runEffects_idle (ui w) (ui w') env w' Hp He). cbn [snd].
  rewrite runEffects_idle; reflexivity.
Qed.

(** C2. When an encounter is selected, no AI call is in flight and the
    call of the AI function fails (with an error or by rejecting), [runAi]
    logs, alerts and stops: nothing else is requested, the store is as
    before, and so are the notes, orders, results and ddx on screen. *)
Theorem C2_failed_ai_call_persists_nothing (env : Env) (w : World) (encounterId : string) :
  nonEmptyId (selectedEncounterId (ui w)) = Some encounterId ->
  isAiLoading (ui w) = false ->
  invokeFails (invokeOutcome env (clock w)) = true ->
  let w' := exec (runAi (ui w)) env w in
  (exists es, trace w' = trace w ++ es /\ map kind es = [KInvoke; KConsoleError; KAlert]) /\
  store w' = store w /\
  notes (ui w') = notes (ui w) /\
  orders (ui w') = orders (ui w) /\
  results (ui w') = results (ui w) /\
  ddx (ui w') = ddx (ui w) /\
  fst (runAi (ui w) env w) = Normal tt /\
  step env RunAi w = w'.
Proof.
  intros Hsel Hload Hfail w'.
  assert (H : (exists es, trace w' = trace w ++ es /\ map kind es = [KInvoke; KConsoleError; KAlert]) /\
              store w' = store w /\
              notes (ui w') = notes (ui w) /\
              orders (ui w') = orders (ui w) /\
              results (ui w') = results (ui w) /\
              ddx (ui w') = ddx (ui w) /\
              fst (runAi (ui w) env w) = Normal tt /\
              selectedPatientId (ui w') = selectedPatientId (ui w) /\
              selectedEncounterId (ui w') = selectedEncounterId (ui w)).
  { subst w'. unfold exec, runAi. rewrite Hsel, Hload.
    destruct w as [st u tr c]. destruct u. cbn in Hfail |- *.
    unfold runAiBody, tryFinally, tryCatch, bind, invoke. cbn.
    destruct (invokeOutcome env c); [discriminate Hfail| |]; cbn;
      rewrite <- !app_assoc;
      (split; [eexists; split; [reflexivity|reflexivity]|repeat split]). }
  destruct H as (Ht & Hs & Hn & Ho & Hr & Hd & Hc & Hp & He).
  repeat (split; [assumption|]).
  exact (step_keeps_selection env RunAi w eq_refl Hp He).
Qed.

Lemma fetchEncounterData_spec (encounterId : string) (env : Env) (w : World) :
  let r := fetchEncounterData encounterId env w in
  store (snd r) = store w /\
  clock (snd r) = 4 + clock w /\
  (exists rest, trace (snd r) = trace w ++ encounterDataSelects encounterId ++ rest /\
                Forall (fun e => kind e = KConsoleError) rest) /\
  (reloadAnswered env (clock w) = true -> fst r = Normal tt).
Proof.
  destruct w as [st u tr c]. unfold reloadAnswered.
  unfold fetchEncounterData, tryFinally, both, bind, dbSelect, storeCall, reportError,
    setIsBusy, setNotes, setOrders, setResults, setDdx, setState, consoleError, ret.
  cbn -[evalSelect].
  repeat (match goal with
          | |- context [match storeOutcome ?e ?t ?n with _ => _ end] =>
              destruct (storeOutcome e t n)
          end; cbn -[evalSelect]);
    rewrite <- ?app_assoc; cbn [app];
    (split; [reflexivity|split; [reflexivity|split; [|first [reflexivity|discriminate]]]]);
    eexists; (split; [reflexivity|]); repeat constructor.
Qed.

Lemma fetchLatestAi_spec (encounterId : string) (env : Env) (w : World) :
  let r := fetchLatestAi encounterId env w in
  store (snd r) = store w /\
  exists q rest, trace (snd r) = trace w ++ Select q :: rest /\ q_from q = ai_runs_t.
Proof.
  destruct w as [st u tr c].
  unfold fetchLatestAi, bind, dbSelect, storeCall, setLatestAiRun, setAiSuggestions,
    setState, consoleError, ret.
  cbn -[evalSelect].
  destruct (storeOutcome env ai_runs_t c); cbn -[evalSelect].
  - destruct (hd_error _) as [run|]; cbn -[evalSelect].
    + destruct (storeOutcome env ai_suggestions_t (S c)); cbn -[evalSelect];
        rewrite <- ?app_assoc; cbn [app];
        (split; [reflexivity|]); eexists; eexists; (split; reflexivity).
    + split; [reflexivity|]; eexists; eexists; (split; reflexivity).
  - rewrite <- ?app_assoc; cbn [app].
    split; [reflexivity|]; eexists; eexists; (split; reflexivity).
  - split; [reflexivity|]; eexists; eexists; (split; reflexivity).
Qed.

(** C3. In an AI round trip whose call of the AI function has replied
    (a store call fails when it resolves with [error] set, which is what
    [runErr], [sugErr] and [ddxErr] hold): when the store refuses the run
    row, or accepts it and refuses the suggestion rows, [runAi] logs,
    alerts with the store's message and stops, so that no later insert is
    requested; when the store accepts both and refuses the ddx rows,
    [runAi] only logs: the suggestion rows stay in the store, the four
    requests that reload the encounter data follow at once, and the fetch
    of the latest AI run follows them unless one of the four is rejected. *)
Theorem C3_save_failures (env : Env) (w : World) (encounterId : string)
    (result : AiFunctionResult) :
  nonEmptyId (selectedEncounterId (ui w)) = Some encounterId ->
  isAiLoading (ui w) = false ->
  invokeOutcome env (clock w) = Replied result ->
  let c := clock w in
  let w' := exec (runAi (ui w)) env w in
  (forall message,
      storeOutcome env ai_runs_t (1 + c) = Failed message ->
      (exists es, trace w' = trace w ++ es /\
                  map kind es = [KInvoke; KInsert ai_runs_t; KConsoleError; KAlert] /\
                  In (Alert ("AI 結果儲存失敗(ai_runs): " ++ message)) es) /\
      store w' = store w) /\
  (forall message,
      storeOutcome env ai_runs_t (1 + c) = Ok ->
      storeOutcome env ai_suggestions_t (3 + c) = Failed message ->
      (exists es, trace w' = trace w ++ es /\
                  map kind es = [KInvoke; KInsert ai_runs_t; KInsert patient_events_t;
                                 KInsert ai_suggestions_t; KConsoleError; KAlert] /\
                  In (Alert ("AI 結果儲存失敗(ai_suggestions): " ++ message)) es) /\
      ai_suggestions_rows (store w') = ai_suggestions_rows (store w) /\
      ddx_entries_rows (store w') = ddx_entries_rows (store w)) /\
  (forall message,
      storeOutcome env ai_runs_t (1 + c) = Ok ->
      storeOutcome env ai_suggestions_t (3 + c) = Ok ->
      storeOutcome env ddx_entries_t (4 + c) = Failed message ->
      (exists es rest,
          trace w' = trace w ++ es ++ rest /\
          map kind es = [KInvoke; KInsert ai_runs_t; KInsert patient_events_t;
                         KInsert ai_suggestions_t; KInsert ddx_entries_t; KConsoleError;
                         KSelect notes_t; KSelect orders_t; KSelect results_t;
                         KSelect ddx_entries_t] /\
          (reloadAnswered env (5 + c) = true -> In (KSelect ai_runs_t) (map kind rest))) /\
      ai_suggestions_rows (store w') =
        ai_suggestions_rows (store w)
        ++ stamp env (3 + c) 0 (suggestionRows encounterId (savedRunId env (1 + c)) result) /\
      ddx_entries_rows (store w') = ddx_entries_rows (store w)).
Proof.
  intros Hsel Hload Hreply c w'. subst c w'.
  pose proof (fetchEncounterData_spec encounterId env) as Hdata.
  pose proof (fetchLatestAi_spec encounterId env) as Hlatest.
  unfold exec, runAi, runAiBody. rewrite Hsel, Hload.
  revert Hdata Hlatest.
  generalize (fetchEncounterData encounterId) (fetchLatestAi encounterId).
  intros reloadData reloadAi Hdata Hlatest.
  destruct w as [st u tr c]. destruct u, st. cbn in Hreply |- *.
  unfold logEvent.
  unfold tryFinally, tryCatch, bind, invoke, dbInsert, storeCall,
    now, ret, consoleError, alert, reportError, setIsAiLoading, setSelectedAiOrderSuggestionIds,
    setState.
  cbn -[aiContext jsonOfResult diagRows orderRows ddxRows String.append].
  rewrite Hreply.
  cbn -[aiContext jsonOfResult diagRows orderRows ddxRows String.append].
  split; [|split].
  - intros message Hrun. rewrite Hrun.
    cbn -[aiContext jsonOfResult diagRows orderRows ddxRows String.append].
    rewrite <- !app_assoc. cbn [app].
    split; [|reflexivity].
    eexists; split; [reflexivity|]. split; [reflexivity|]. simpl. auto.
  - intros message Hrun Hsug. rewrite Hrun.
    cbn -[aiContext jsonOfResult diagRows orderRows ddxRows String.append].
    destruct (storeOutcome env patient_events_t (S (S c)));
      cbn -[aiContext jsonOfResult diagRows orderRows ddxRows String.append];
      rewrite Hsug;
      cbn -[aiContext jsonOfResult diagRows orderRows ddxRows String.append];
      rewrite <- !app_assoc; cbn [app];
      (split; [|split; reflexivity]);
      (eexists; split; [reflexivity|]; split; [reflexivity|]; simpl; auto 10).
  - intros message Hrun Hsug Hddx. rewrite Hrun.
    cbn -[aiContext jsonOfResult diagRows orderRows ddxRows String.append].
    destruct (storeOutcome env patient_events_t (S (S c)));
      cbn -[aiContext jsonOfResult diagRows orderRows ddxRows String.append];
      rewrite Hsug;
      cbn -[aiContext jsonOfResult diagRows orderRows ddxRows String.append];
      rewrite Hddx;
      cbn -[aiContext jsonOfResult diagRows orderRows ddxRows String.append];
      match goal with
      | |- context [reloadData env ?w5] =>
          pose proof (Hdata w5) as H5; cbv zeta in H5;
          destruct (reloadData env w5) as [c6 w6]
      end;
      cbn [fst snd store clock trace emit tick withStore withUI] in H5;
      destruct H5 as (Hst6 & Hck6 & (rest6 & Htr6 & Hrest6) & Hans6);
      (destruct c6 as [[]|];
       [ match goal with
         | |- context [reloadAi env ?w] =>
             pose proof (Hlatest w) as H7; cbv zeta in H7;
             destruct (reloadAi env w) as [c7 w7]
         end;
         cbn [fst snd] in H7; destruct H7 as (Hst7 & q & rest7 & Htr7 & Hq);
         destruct c7 as [[]|]
       | ]);
      cbn [fst snd store trace ui emit tick withStore withUI
           ai_suggestions_rows ddx_entries_rows];
      rewrite ?Hst7, ?Htr7, Hst6, Htr6;
      unfold encounterDataSelects, suggestionRows, savedRunId;
      rewrite <- ?app_assoc; cbn [app];
      (split; [|split; reflexivity]);
      eexists (_ :: _ :: _ :: _ :: _ :: _ :: _ :: _ :: _ :: _ :: []), _;
      (split; [cbn [app]; reflexivity|]);
      (split; [reflexivity|]);
      intros Hans;
      first [ rewrite map_app; apply in_or_app; right; left; cbn [map kind];
              rewrite Hq; reflexivity
            | specialize (Hans6 Hans); discriminate Hans6 ].
Qed.

(** ** Orders are sent, and stay so *)

Lemma stamp_sent (env : Env) (instant index : nat) (rows : list Row) :
  Forall sentRow rows -> Forall sentRow (stamp env instant index rows).
Proof.
  intros H. revert index. induction H as [|r rows Hr _ IH]; intros index; simpl; constructor.
  - exact Hr.
  - apply IH.
Qed.

Lemma ordersExtend_refl (st : Store) : ordersExtend (orders_rows st) st.
Proof. exists []. rewrite app_nil_r. split; constructor. Qed.

Lemma ordersExtend_other (before : list Row) (t : table) (f : list Row -> list Row) (st : Store) :
  table_eqb t orders_t = false ->
  ordersExtend before st -> ordersExtend before (withRows t f st).
Proof.
  intros Ht (added & Heq & Hall). exists added. split; [|exact Hall].
  rewrite <- Heq. change (rowsOf orders_t (withRows t f st) = rowsOf orders_t st).
  rewrite rowsOf_withRows, Ht. reflexivity.
Qed.

Lemma ordersExtend_insert (before : list Row) (env : Env) (n : nat) (rows : list Row) (st : Store) :
  Forall sentRow rows ->
  ordersExtend before st ->
  ordersExtend before (withRows orders_t (fun old => old ++ stamp env n 0 rows) st).
Proof.
  intros Hrows (added & Heq & Hall). exists (added ++ stamp env n 0 rows). split.
  - change (rowsOf orders_t (withRows orders_t (fun old => old ++ stamp env n 0 rows) st)
            = before ++ added ++ stamp env n 0 rows).
    rewrite rowsOf_withRows. cbn. rewrite Heq, app_assoc. reflexivity.
  - apply Forall_app. split; [exact Hall|apply stamp_sent; exact Hrows].
Qed.

Ltac sent_rows :=
  repeat first
    [ apply Forall_nil
    | apply Forall_cons
    | apply Forall_map_intro; intros ?
    | reflexivity ].

Ltac sent_side :=
  solve [ intros; exact I
        | intros; apply emittedSince_snoc; [ | assumption ];
          first [ exact I | sent_rows ]
        | intros; cbn [fst];
          first [ assumption
                | apply ordersExtend_other; [reflexivity|assumption]
                | apply ordersExtend_insert; [sent_rows|assumption] ] ].

Lemma handle_keepsOrdersSent (before : list Effect) (rows : list Row) (a : Action) (u : UI) :
  preserves (fieldwise (ordersExtend rows) anyUI (emittedSince before keepsOrdersSent))
            (handle a u).
Proof. destruct a; js_walk sent_side. Qed.

Lemma runEffects_keepsOrdersSent (before : list Effect) (rows : list Row)
    (mounting : bool) (rendered current : UI) :
  preserves (fieldwise (ordersExtend rows) anyUI (emittedSince before keepsOrdersSent))
            (runEffects mounting rendered current).
Proof. js_walk sent_side. Qed.

(** C6. Whatever the user does, every order row sent to the store has
    status "sent", no update of an order is ever requested, and the orders
    the store held are still there unchanged, followed by sent ones. *)
Theorem C6_orders_stay_sent (env : Env) (a : Action) (w : World) :
  stepEmits keepsOrdersSent env a w /\
  ordersExtend (orders_rows (store w)) (store (step env a w)).
Proof.
  assert (H : fieldwise (ordersExtend (orders_rows (store w))) anyUI
                (emittedSince (trace w) keepsOrdersSent) (step env a w)).
  { apply step_preserves.
    - intros; apply handle_keepsOrdersSent.
    - intros; apply runEffects_keepsOrdersSent.
    - repeat split; [apply ordersExtend_refl|apply emittedSince_refl]. }
  destruct H as (HS & _ & HT). split; assumption.
Qed.

(** ** The audit trail is advisory *)

Lemma sameButAudit_refl (w : World) : sameButAudit w w.
Proof. repeat split. Qed.

Lemma auditBlind_ret {A} (a : A) : auditBlind (ret a).
Proof. intros env audit w1 w2 H. split; [reflexivity|exact H]. Qed.

Lemma auditBlind_throw {A} : auditBlind (@throw A).
Proof. intros env audit w1 w2 H. split; [reflexivity|exact H]. Qed.

Lemma auditBlind_now : auditBlind now.
Proof.
  intros env audit w1 w2 H. split; [|exact H].
  destruct H as (_ & _ & Hc & _). simpl. rewrite Hc. reflexivity.
Qed.

Lemma auditBlind_globalNumber : auditBlind globalNumber.
Proof. intros env audit w1 w2 H. split; [reflexivity|exact H]. Qed.

Lemma auditBlind_upperCaseTable : auditBlind upperCaseTable.
Proof. intros env audit w1 w2 H; split; [reflexivity|exact H]. Qed.

Lemma auditBlind_newDate (s : string) : auditBlind (newDate s).
Proof. intros env audit w1 w2 H. split; [reflexivity|exact H]. Qed.

Lemma auditBlind_bind {A B} (m : Js A) (k : A -> Js B) :
  auditBlind m -> (forall a, auditBlind (k a)) -> auditBlind (bind m k).
Proof.
  intros Hm Hk env audit w1 w2 H. unfold bind.
  destruct (Hm env audit w1 w2 H) as [Hc Hw].
  destruct (m (withAuditOutcome audit env) w1) as [c1 w1'].
  destruct (m env w2) as [c2 w2']. cbn [fst snd] in *. subst c2.
  destruct c1 as [a|]; [apply Hk; exact Hw|split; [reflexivity|exact Hw]].
Qed.

Lemma auditBlind_tryCatch {A} (m handler : Js A) :
  auditBlind m -> auditBlind handler -> auditBlind (tryCatch m handler).
Proof.
  intros Hm Hh env audit w1 w2 H. unfold tryCatch.
  destruct (Hm env audit w1 w2 H) as [Hc Hw].
  destruct (m (withAuditOutcome audit env) w1) as [c1 w1'].
  destruct (m env w2) as [c2 w2']. cbn [fst snd] in *. subst c2.
  destruct c1 as [a|]; [split; [reflexivity|exact Hw]|apply Hh; exact Hw].
Qed.

Lemma auditBlind_tryFinally {A} (m : Js A) (fin : Js unit) :
  auditBlind m -> auditBlind fin -> auditBlind (tryFinally m fin).
Proof.
  intros Hm Hf env audit w1 w2 H. unfold tryFinally.
  destruct (Hm env audit w1 w2 H) as [Hc Hw].
  destruct (m (withAuditOutcome audit env) w1) as [c1 w1'].
  destruct (m env w2) as [c2 w2']. cbn [fst snd] in *. subst c2.
  destruct (Hf env audit w1' w2' Hw) as [Hc' Hw'].
  destruct (fin (withAuditOutcome audit env) w1') as [d1 w1''].
  destruct (fin env w2') as [d2 w2'']. cbn [fst snd] in *. subst d2.
  destruct d1 as [[]|]; split; (reflexivity || exact Hw').
Qed.

Lemma auditBlind_spawn (m : Js unit) : auditBlind m -> auditBlind (spawn m).
Proof.
  intros Hm env audit w1 w2 H. split; [reflexivity|].
  exact (proj2 (Hm env audit w1 w2 H)).
Qed.

Lemma auditBlind_both {A B} (a : Js A) (b : Js B) :
  auditBlind a -> auditBlind b -> auditBlind (both a b).
Proof.
  intros Ha Hb env audit w1 w2 H. unfold both.
  destruct (Ha env audit w1 w2 H) as [Hc Hw].
  destruct (a (withAuditOutcome audit env) w1) as [c1 w1'].
  destruct (a env w2) as [c2 w2']. cbn [fst snd] in *. subst c2.
  destruct (Hb env audit w1' w2' Hw) as [Hc' Hw'].
  destruct (b (withAuditOutcome audit env) w1') as [d1 w1''].
  destruct (b env w2') as [d2 w2'']. cbn [fst snd] in *. subst d2.
  destruct c1, d1; split; (reflexivity || exact Hw').
Qed.

Lemma auditBlind_forEach {A} (l : list A) (body : A -> Js unit) :
  (forall x, auditBlind (body x)) -> auditBlind (forEach l body).
Proof.
  intros Hb. induction l as [|x rest IH]; simpl.
  - apply auditBlind_ret.
  - apply auditBlind_bind; [apply Hb|intros _; exact IH].
Qed.

Lemma auditBlind_setState (f : UI -> UI) : auditBlind (setState f).
Proof.
  intros env audit w1 w2 (Hu & Ht & Hc & Hs). split; [reflexivity|].
  repeat split; simpl; congruence || assumption.
Qed.

Lemma auditBlind_alert (message : string) : auditBlind (alert message).
Proof.
  intros env audit w1 w2 (Hu & Ht & Hc & Hs). split; [reflexivity|].
  repeat split; simpl; congruence || assumption.
Qed.

Lemma auditBlind_consoleError (label : string) : auditBlind (consoleError label).
Proof.
  intros env audit w1 w2 (Hu & Ht & Hc & Hs). split; [reflexivity|].
  repeat split; simpl; congruence || assumption.
Qed.

Lemma auditBlind_invoke (fn : string) (body : value) : auditBlind (invoke fn body).
Proof.
  intros env audit w1 w2 (Hu & Ht & Hc & Hs). unfold invoke. cbn [invokeOutcome withAuditOutcome].
  rewrite Hc. destruct (invokeOutcome env (clock w2)); cbn [fst snd];
    (split; [reflexivity|]); repeat split; simpl; congruence || assumption.
Qed.

(** A store call on another table than [patient_events], whose result
    and whose effect on the store only depend on the rows that are not
    audit rows. *)
Lemma auditBlind_storeCall (t : table) (request : Effect)
    (apply : Env -> nat -> Store -> Store * list Row) :
  t <> patient_events_t ->
  (forall env audit n st1 st2,
      (forall t', t' <> patient_events_t -> rowsOf t' st1 = rowsOf t' st2) ->
      snd (apply (withAuditOutcome audit env) n st1) = snd (apply env n st2) /\
      (forall t', t' <> patient_events_t ->
                  rowsOf t' (fst (apply (withAuditOutcome audit env) n st1))
                  = rowsOf t' (fst (apply env n st2)))) ->
  auditBlind (storeCall t request apply).
Proof.
  intros Ht Ha env audit w1 w2 (Hu & Htr & Hc & Hs). unfold storeCall.
  assert (Ho : storeOutcome (withAuditOutcome audit env) t (clock w1)
               = storeOutcome env t (clock w2)).
  { rewrite Hc. destruct t; try reflexivity. exfalso; apply Ht; reflexivity. }
  rewrite Ho. destruct (storeOutcome env t (clock w2)).
  - destruct (Ha env audit (clock w1) (store w1) (store w2) Hs) as [Hrows Hst].
    rewrite Hc in Hrows, Hst |- *.
    destruct (apply (withAuditOutcome audit env) (clock w2) (store w1)) as [st1' rows1].
    destruct (apply env (clock w2) (store w2)) as [st2' rows2].
    cbn [fst snd] in *. subst rows2. split; [reflexivity|].
    repeat split; simpl; congruence || assumption.
  - cbn [fst snd]. split; [reflexivity|]. repeat split; simpl; congruence || assumption.
  - cbn [fst snd]. split; [reflexivity|]. repeat split; simpl; congruence || assumption.
Qed.

Lemma rowsOf_withRows_congr (t : table) (f : list Row -> list Row) (st1 st2 : Store) :
  t <> patient_events_t ->
  (forall t', t' <> patient_events_t -> rowsOf t' st1 = rowsOf t' st2) ->
  forall t', t' <> patient_events_t ->
             rowsOf t' (withRows t f st1) = rowsOf t' (withRows t f st2).
Proof.
  intros Ht H t' Ht'. rewrite !rowsOf_withRows.
  destruct (table_eqb t t'); rewrite (H t' Ht'); reflexivity.
Qed.

Lemma auditBlind_dbSelect (q : SelectQuery) :
  q_from q <> patient_events_t -> auditBlind (dbSelect q).
Proof.
  intros Hq. apply auditBlind_storeCall; [exact Hq|].
  intros env audit n st1 st2 H. cbn [fst snd]. split; [|exact H].
  unfold evalSelect. rewrite (H _ Hq). reflexivity.
Qed.

Lemma stamp_withAuditOutcome (audit : nat -> Outcome) (env : Env) (n i : nat) (rows : list Row) :
  stamp (withAuditOutcome audit env) n i rows = stamp env n i rows.
Proof. revert i. induction rows as [|r rest IH]; intros i; simpl; [|rewrite IH]; reflexivity. Qed.

Lemma auditBlind_dbInsert (t : table) (rows : list Row) (returning : option (list string)) :
  t <> patient_events_t -> auditBlind (dbInsert t rows returning).
Proof.
  intros Ht. apply auditBlind_storeCall; [exact Ht|].
  intros env audit n st1 st2 H. cbn [fst snd]. rewrite stamp_withAuditOutcome.
  split; [reflexivity|]. apply rowsOf_withRows_congr; assumption.
Qed.

Lemma auditBlind_dbUpdate (t : table) (patch : Row) (col v : string) :
  t <> patient_events_t -> auditBlind (dbUpdate t patch col v).
Proof.
  intros Ht. apply auditBlind_storeCall; [exact Ht|].
  intros env audit n st1 st2 H. cbn [fst snd]. split; [reflexivity|].
  apply rowsOf_withRows_congr; assumption.
Qed.


(** [logEvent] sends one insert and never fails, whatever the store does. *)
Lemma logEvent_spec (encounter_id actor_type event_type : string)
    (entity_table : option string) (entity_id : value)
    (summary : option string) (payload : option value) (env : Env) (w : World) :
  let r := logEvent encounter_id actor_type event_type entity_table entity_id summary payload
             env w in
  fst r = Normal tt /\
  ui (snd r) = ui w /\
  trace (snd r) = trace w ++ [Insert patient_events_t
                                [eventRow encounter_id actor_type event_type entity_table
                                          entity_id summary payload (clock w)]] /\
  clock (snd r) = S (clock w) /\
  forall t, t <> patient_events_t -> rowsOf t (store (snd r)) = rowsOf t (store w).
Proof.
  unfold logEvent, tryCatch, bind, now, dbInsert, storeCall, ret. cbn [fst snd].
  destruct (storeOutcome env patient_events_t (clock w)); cbn; repeat split; try reflexivity.
  intros t Ht. rewrite rowsOf_withRows.
  destruct t; try reflexivity. exfalso; apply Ht; reflexivity.
Qed.

Lemma auditBlind_logEvent (encounter_id actor_type event_type : string)
    (entity_table : option string) (entity_id : value)
    (summary : option string) (payload : option value) :
  auditBlind (logEvent encounter_id actor_type event_type entity_table entity_id summary payload).
Proof.
  intros env audit w1 w2 (Hu & Htr & Hc & Hs).
  destruct (logEvent_spec encounter_id actor_type event_type entity_table entity_id summary
              payload (withAuditOutcome audit env) w1) as (Hr1 & Hu1 & Ht1 & Hc1 & Hs1).
  destruct (logEvent_spec encounter_id actor_type event_type entity_table entity_id summary
              payload env w2) as (Hr2 & Hu2 & Ht2 & Hc2 & Hs2).
  split; [congruence|]. repeat split; try congruence.
  intros t Ht. rewrite (Hs1 t Ht), (Hs2 t Ht). apply Hs; exact Ht.
Qed.

(** The handlers, down to the store calls and to [logEvent]. *)
Create HintDb js_handlers.
#[local] Hint Unfold
  setPatients setSelectedPatientId setEncounters setSelectedEncounterId
  setNotes setOrders setResults setDdx setIsBusy setIsPatientModalOpen
  setEditingNote setIsAiLoading setLatestAiRun setAiSuggestions
  setSelectedAiOrderSuggestionIds setInput
  toISOString reportError
  fetchPatients fetchEncounters fetchEncounterData fetchLatestAi
  patientEffect encounterEffect createPatient createEncounter saveNote
  addOrder addResult addHumanDdx runAiBody runAi applyAiOrders
  handle runEffects : js_handlers.

Ltac js_blind :=
  repeat (cbv beta zeta;
    lazymatch goal with
    | |- auditBlind (ret _) => apply auditBlind_ret
    | |- auditBlind throw => apply auditBlind_throw
    | |- auditBlind now => apply auditBlind_now
    | |- auditBlind globalNumber => apply auditBlind_globalNumber
    | |- auditBlind upperCaseTable => apply auditBlind_upperCaseTable
    | |- auditBlind (newDate _) => apply auditBlind_newDate
    | |- auditBlind (bind _ _) => apply auditBlind_bind; [|intros ?]
    | |- auditBlind (tryCatch _ _) => apply auditBlind_tryCatch
    | |- auditBlind (tryFinally _ _) => apply auditBlind_tryFinally
    | |- auditBlind (spawn _) => apply auditBlind_spawn
    | |- auditBlind (both _ _) => apply auditBlind_both
    | |- auditBlind (forEach _ _) => apply auditBlind_forEach; intros ?
    | |- auditBlind (setState _) => apply auditBlind_setState
    | |- auditBlind (alert _) => apply auditBlind_alert
    | |- auditBlind (consoleError _) => apply auditBlind_consoleError
    | |- auditBlind (invoke _ _) => apply auditBlind_invoke
    | |- auditBlind (logEvent _ _ _ _ _ _ _) => apply auditBlind_logEvent
    | |- auditBlind (dbSelect _) => apply auditBlind_dbSelect; discriminate
    | |- auditBlind (dbInsert _ _ _) => apply auditBlind_dbInsert; discriminate
    | |- auditBlind (dbUpdate _ _ _ _) => apply auditBlind_dbUpdate; discriminate
    | |- auditBlind (match ?x with _ => _ end) => destruct x eqn:?
    | |- auditBlind _ => progress autounfold with js_handlers
    end).

Lemma handle_auditBlind (a : Action) (u : UI) : auditBlind (handle a u).
Proof. destruct a; js_blind. Qed.

Lemma runEffects_auditBlind (mounting : bool) (rendered current : UI) :
  auditBlind (runEffects mounting rendered current).
Proof. js_blind. Qed.

(** C4. The insert of a patient event is best effort. [logEvent] sends
    its row and returns normally whatever the store answers: it neither
    alerts nor throws, and leaves the screen and every other table alone.
    And for every user event, how the audit inserts end changes neither
    how the handler completes nor the world it leaves, audit rows apart:
    the primary rows are written and the handler goes on all the same. *)
Theorem C4_audit_is_best_effort (env : Env) (audit : nat -> Outcome) (w : World) :
  (forall encounter_id actor_type event_type entity_table entity_id summary payload,
      let r := logEvent encounter_id actor_type event_type entity_table entity_id summary
                 payload (withAuditOutcome audit env) w in
      fst r = Normal tt /\
      ui (snd r) = ui w /\
      trace (snd r) = trace w ++ [Insert patient_events_t
                                    [eventRow encounter_id actor_type event_type entity_table
                                              entity_id summary payload (clock w)]] /\
      forall t, t <> patient_events_t -> rowsOf t (store (snd r)) = rowsOf t (store w)) /\
  (forall a,
      fst (handle a (ui w) (withAuditOutcome audit env) w) = fst (handle a (ui w) env w) /\
      sameButAudit (step (withAuditOutcome audit env) a w) (step env a w)).
Proof.
  split.
  - intros encounter_id actor_type event_type entity_table entity_id summary payload r.
    destruct (logEvent_spec encounter_id actor_type event_type entity_table entity_id summary
                payload (withAuditOutcome audit env) w) as (Hr & Hu & Ht & _ & Hs).
    repeat split; assumption.
  - intros a.
    destruct (handle_auditBlind a (ui w) env audit w w (sameButAudit_refl w)) as [Hc H1].
    split; [exact Hc|]. unfold step.
    set (w1 := snd (handle a (ui w) (withAuditOutcome audit env) w)) in *.
    set (w2 := snd (handle a (ui w) env w)) in *.
    assert (Hu1 : ui w1 = ui w2) by apply H1.
    rewrite Hu1.
    destruct (runEffects_auditBlind (isReload a) (ui w) (ui w2) env audit w1 w2 H1) as [_ H2].
    set (w1' := snd (runEffects _ _ _ (withAuditOutcome audit env) w1)) in *.
    set (w2' := snd (runEffects _ _ _ env w2)) in *.
    assert (Hu2 : ui w1' = ui w2') by apply H2.
    rewrite Hu2.
    apply runEffects_auditBlind. exact H2.
Qed.

(** ** Selecting a patient *)

Ltac ui_side :=
  solve [ intros; exact I
        | let u := fresh "u" in let H := fresh "H" in
          intros u H; destruct u; cbn in *;
          first [ exact H | reflexivity | solve [intuition congruence] ] ].

Lemma exec_bind_normal {B} (m : Js unit) (k : unit -> Js B) (env : Env) (w : World) :
  fst (m env w) = Normal tt ->
  exec (bind m k) env w = exec (k tt) env (exec m env w).
Proof.
  unfold exec, bind. destruct (m env w) as [c w']; cbn [fst snd].
  intros ->. reflexivity.
Qed.

Lemma patientEffect_normal (u : UI) (env : Env) (w : World) :
  fst (patientEffect u env w) = Normal tt.
Proof. unfold patientEffect. destruct (nonEmptyId _); reflexivity. Qed.

(** A handler that maintains every value of a projection of the state
    leaves that projection as it was. *)
Lemma preserves_ui_value {A B} (proj : UI -> B) (m : Js A) :
  (forall b, preserves (fieldwise anyStore (fun u => proj u = b) anyTrace) m) ->
  forall env w, proj (ui (exec m env w)) = proj (ui w).
Proof.
  intros H env w.
  assert (Hw : fieldwise anyStore (fun u => proj u = proj (ui w)) anyTrace w)
    by (repeat split).
  destruct (H (proj (ui w)) env w Hw) as (_ & Hu & _). exact Hu.
Qed.

Lemma fetchEncounters_keeps (patientId : string) (env : Env) (w : World) :
  let w' := exec (spawn (fetchEncounters patientId)) env w in
  (viewsOf (ui w'), selectedPatientId (ui w'), selectedEncounterId (ui w'))
  = (viewsOf (ui w), selectedPatientId (ui w), selectedEncounterId (ui w)).
Proof.
  apply (preserves_ui_value
           (fun u => (viewsOf u, selectedPatientId u, selectedEncounterId u))).
  intros b. js_walk ui_side.
Qed.

(** The patient effect leaves the views alone, and keeps the selected
    encounter or clears it. *)
Lemma patientEffect_ui (u : UI) (env : Env) (w : World) :
  let w' := exec (patientEffect u) env w in
  viewsOf (ui w') = viewsOf (ui w) /\
  selectedPatientId (ui w') = selectedPatientId (ui w) /\
  (selectedEncounterId (ui w') = selectedEncounterId (ui w) \/
   selectedEncounterId (ui w') = None).
Proof.
  intros w'. subst w'. unfold patientEffect. destruct (nonEmptyId (selectedPatientId u)).
  - pose proof (fetchEncounters_keeps s env w) as H. cbv zeta in H.
    pose proof (f_equal (fun t => fst (fst t)) H) as HV.
    pose proof (f_equal (fun t => snd (fst t)) H) as HP.
    pose proof (f_equal snd H) as HE.
    cbn [fst snd] in HV, HP, HE. auto.
  - destruct w as [st x tr c]. destruct x. cbn. auto.
Qed.


(** The encounter effect keeps the selection, and empties the views when
    it runs with no encounter selected. *)
Lemma encounterEffect_ui (u : UI) (env : Env) (w : World) :
  let w' := exec (encounterEffect u) env w in
  selectedPatientId (ui w') = selectedPatientId (ui w) /\
  selectedEncounterId (ui w') = selectedEncounterId (ui w) /\
  (nonEmptyId (selectedEncounterId u) = None -> viewsOf (ui w') = noViews).
Proof.
  intros w'.
  assert (H : (selectedPatientId (ui w'), selectedEncounterId (ui w'))
              = (selectedPatientId (ui w), selectedEncounterId (ui w))).
  { apply (preserves_ui_value (fun x => (selectedPatientId x, selectedEncounterId x))).
    intros b. js_walk ui_side. }
  pose proof (f_equal fst H) as HP. pose proof (f_equal snd H) as HE.
  cbn [fst snd] in HP, HE. repeat split; [exact HP|exact HE|].
  intros Hnone. subst w'. unfold encounterEffect. rewrite Hnone.
  destruct w as [st x tr c]. destruct x. reflexivity.
Qed.

Lemma render_unfold (mounting : bool) (rendered : UI) (env : Env) (w : World) :
  render mounting rendered env w =
  let wa := if mounting || negb (sameId (selectedPatientId rendered) (selectedPatientId (ui w)))
            then exec (patientEffect (ui w)) env w else w in
  if mounting || negb (sameId (selectedEncounterId rendered) (selectedEncounterId (ui w)))
  then exec (encounterEffect (ui w)) env wa else wa.
Proof.
  unfold render, runEffects. rewrite exec_bind_normal.
  - destruct (mounting || negb (sameId (selectedPatientId rendered) _));
      destruct (mounting || negb (sameId (selectedEncounterId rendered) _)); reflexivity.
  - destruct (mounting || negb (sameId (selectedPatientId rendered) _));
      [apply patientEffect_normal|reflexivity].
Qed.

Lemma render_keeps_patient (mounting : bool) (rendered : UI) (env : Env) (w : World) :
  selectedPatientId (ui (render mounting rendered env w)) = selectedPatientId (ui w).
Proof.
  rewrite render_unfold. cbv zeta.
  destruct (mounting || negb (sameId (selectedPatientId rendered) _));
    destruct (mounting || negb (sameId (selectedEncounterId rendered) _));
    repeat first [ rewrite (proj1 (encounterEffect_ui _ _ _))
                 | rewrite (proj1 (proj2 (patientEffect_ui _ _ _))) ];
    reflexivity.
Qed.

(** After a render, either the selected encounter is as it was and the
    views are cleared when none is selected, or the selection has just
    been dropped (and the next render deals with it). This needs the
    state to be cleared already when the render does not see the selected
    encounter change. *)
Lemma render_post (mounting : bool) (rendered : UI) (env : Env) (w : World) :
  (mounting = false ->
   sameId (selectedEncounterId rendered) (selectedEncounterId (ui w)) = true ->
   cleared (ui w)) ->
  let w' := render mounting rendered env w in
  (selectedEncounterId (ui w') = selectedEncounterId (ui w) /\ cleared (ui w')) \/
  (selectedEncounterId (ui w') = None /\ selectedEncounterId (ui w) <> None).
Proof.
  intros Hyp w'. subst w'. rewrite render_unfold. cbv zeta.
  set (wa := if mounting || negb (sameId (selectedPatientId rendered) _) then _ else w).
  assert (Ha : viewsOf (ui wa) = viewsOf (ui w) /\
               (selectedEncounterId (ui wa) = selectedEncounterId (ui w) \/
                selectedEncounterId (ui wa) = None)).
  { subst wa. destruct (mounting || negb (sameId (selectedPatientId rendered) _)).
    - destruct (patientEffect_ui (ui w) env w) as (HV & _ & HE). split; assumption.
    - split; [reflexivity|left; reflexivity]. }
  clearbody wa. destruct Ha as [HV HE].
  set (fires := mounting || negb (sameId (selectedEncounterId rendered) _)).
  assert (Hb : let w' := if fires then exec (encounterEffect (ui w)) env wa else wa in
               selectedEncounterId (ui w') = selectedEncounterId (ui wa) /\
               (nonEmptyId (selectedEncounterId (ui w)) = None -> viewsOf (ui w') = noViews)).
  { cbv zeta. destruct fires eqn:Hf.
    - destruct (encounterEffect_ui (ui w) env wa) as (_ & HE' & HV'). split; assumption.
    - split; [reflexivity|]. intros Hnone. rewrite HV.
      subst fires. apply orb_false_elim in Hf. destruct Hf as [Hm Hs].
      apply negb_false_iff in Hs. exact (Hyp Hm Hs Hnone). }
  cbv zeta in Hb. destruct Hb as [HE' HV'].
  destruct (selectedEncounterId (ui w)) as [e|] eqn:Hsel.
  - destruct HE as [HE|HE].
    + left. split; [congruence|]. intros Hnone. apply HV'. rewrite HE', HE in Hnone. exact Hnone.
    + right. split; [congruence|discriminate].
  - left. assert (selectedEncounterId (ui wa) = None) by (destruct HE; assumption).
    split; [congruence|]. intros _. apply HV'. reflexivity.
Qed.

(** A render that sees the same patient keeps the selected encounter. *)
Lemma render_quiet (rendered : UI) (env : Env) (w : World) :
  selectedPatientId rendered = selectedPatientId (ui w) ->
  (sameId (selectedEncounterId rendered) (selectedEncounterId (ui w)) = true -> cleared (ui w)) ->
  cleared (ui (render false rendered env w)).
Proof.
  intros HP Hyp.
  destruct (render_post false rendered env w (fun _ => Hyp)) as [[_ H]|[Hnone Hsome]];
    [exact H|].
  exfalso. apply Hsome. rewrite <- Hnone.
  rewrite render_unfold. cbv zeta. rewrite HP, sameId_refl. cbn [negb orb].
  destruct (negb _); [|reflexivity].
  symmetry. apply (encounterEffect_ui (ui w) env w).
Qed.

Lemma step_as_renders (env : Env) (a : Action) (w : World) :
  step env a w =
  let w1 := exec (handle a (ui w)) env w in
  render false (ui w1) env (render (isReload a) (ui w) env w1).
Proof. reflexivity. Qed.

Lemma handle_keepsViews (a : Action) (u : UI) (env : Env) (w : World) :
  keepsViews a = true ->
  viewsOf (ui (exec (handle a u) env w)) = viewsOf (ui w).
Proof.
  intros Ha. apply (preserves_ui_value viewsOf). intros b.
  destruct a; try discriminate Ha; js_walk ui_side.
Qed.

(** The other handlers, reloading apart, keep the selected encounter... *)
Lemma handle_keepsEncounter (a : Action) (u : UI) (env : Env) (w : World) :
  keepsViews a = false -> isReload a = false ->
  selectedEncounterId (ui (exec (handle a u) env w)) = selectedEncounterId (ui w).
Proof.
  intros Ha Hr. apply (preserves_ui_value selectedEncounterId). intros b.
  destruct a; try discriminate Ha; try discriminate Hr; js_walk ui_side.
Qed.

(** ... and do nothing when none is selected. *)
Lemma handle_guarded (a : Action) (env : Env) (w : World) :
  keepsViews a = false -> isReload a = false ->
  nonEmptyId (selectedEncounterId (ui w)) = None ->
  handle a (ui w) env w = (Normal tt, w).
Proof.
  intros Ha Hr Hnone.
  destruct a; try discriminate Ha; try discriminate Hr; cbn [handle];
    unfold checkboxShown, saveNote, addOrder, addResult, addHumanDdx, runAi, applyAiOrders;
    rewrite Hnone; reflexivity.
Qed.

Lemma handle_cleared (a : Action) (env : Env) (w : World) :
  isReload a = false ->
  cleared (ui w) ->
  let w1 := exec (handle a (ui w)) env w in
  sameId (selectedEncounterId (ui w)) (selectedEncounterId (ui w1)) = true ->
  cleared (ui w1).
Proof.
  intros Hr Hw w1 Hsame Hnone. apply sameId_eq in Hsame.
  destruct (keepsViews a) eqn:Ha.
  - subst w1. rewrite handle_keepsViews by exact Ha. apply Hw. rewrite Hsame. exact Hnone.
  - rewrite <- Hsame in Hnone. subst w1. unfold exec.
    rewrite (handle_guarded a env w Ha Hr Hnone). cbn [snd]. exact (Hw Hnone).
Qed.

(** Every user event keeps the views cleared. *)
Lemma step_cleared (env : Env) (a : Action) (w : World) :
  cleared (ui w) -> cleared (ui (step env a w)).
Proof.
  intros Hw. rewrite step_as_renders. cbv zeta.
  set (w1 := exec (handle a (ui w)) env w).
  assert (H1 : isReload a = false ->
               sameId (selectedEncounterId (ui w)) (selectedEncounterId (ui w1)) = true ->
               cleared (ui w1)).
  { intros Hr. apply handle_cleared; assumption. }
  pose proof (render_post (isReload a) (ui w) env w1 H1) as H2. cbv zeta in H2.
  apply render_quiet.
  - symmetry. apply render_keeps_patient.
  - intros Hsame. apply sameId_eq in Hsame.
    destruct H2 as [[_ H]|[Hnone Hsome]]; [exact H|].
    exfalso. apply Hsome. rewrite Hsame. exact Hnone.
Qed.

(** Clicking a patient leaves no encounter selected. *)
Lemma clickPatient_selection (env : Env) (patientId : string) (w : World) :
  let w' := step env (ClickPatient patientId) w in
  selectedPatientId (ui w') = Some patientId /\ selectedEncounterId (ui w') = None.
Proof.
  intros w'.
  assert (H : fieldwise anyStore
                (fun u => selectedPatientId u = Some patientId /\ selectedEncounterId u = None)
                anyTrace w').
  { subst w'. unfold step.
    set (w1 := snd (handle (ClickPatient patientId) (ui w) env w)).
    assert (H1 : fieldwise anyStore
                   (fun u => selectedPatientId u = Some patientId /\ selectedEncounterId u = None)
                   anyTrace w1).
    { subst w1. destruct w as [st u tr c]. destruct u. repeat split. }
    clearbody w1.
    assert (He : forall mounting rendered current,
               preserves (fieldwise anyStore
                            (fun u => selectedPatientId u = Some patientId /\
                                      selectedEncounterId u = None) anyTrace)
                         (runEffects mounting rendered current)).
    { intros. js_walk ui_side. }
    apply (He false), (He (isReload (ClickPatient patientId))). exact H1. }
  destruct H as (_ & H & _). exact H.
Qed.

(** C8. A patient is selected by a click on the list, and also by
    creating one; the second path does not clear the encounter. On the
    ward, with Wang's encounter selected and its order on screen, creating
    the patient Lin selects Lin and leaves Wang's encounter selected, with
    its order on screen, under a patient who has no encounter. Clicking Lin
    in the list afterwards does clear the encounter and its views. *)
Theorem C8_created_patient_keeps_encounter :
  let before := run calmEnv [TypeInto orderInput "CBC"; AddOrder] ward in
  let created :=
    run calmEnv [OpenPatientModal true; TypeInto newPatientName "Lin"; CreatePatient] before in
  let clicked := step calmEnv (ClickPatient "u17-0") created in
  selectedPatientId (ui before) = Some "u01-0" /\
  selectedEncounterId (ui before) = Some "u04-0" /\
  selectedPatientId (ui created) = Some "u17-0" /\
  selectedEncounterId (ui created) = Some "u04-0" /\
  encounters (ui created) = [] /\
  viewsOf (ui created) = viewsOf (ui before) /\
  map (get "encounter_id") (orders (ui created)) = [VStr "u04-0"] /\
  selectedPatientId (ui clicked) = Some "u17-0" /\
  selectedEncounterId (ui clicked) = None /\
  viewsOf (ui clicked) = noViews.
Proof. vm_compute. repeat split; reflexivity. Qed.

(** ** The properties at work on a session *)

Lemma C1_witness :
  JsString.trim "  " = "" /\
  addOrder (ui ward) "  " calmEnv ward = (Normal tt, ward) /\
  JsString.trim " céfazolin 1g " = "céfazolin 1g" /\
  nonEmptyId (selectedEncounterId (ui ward)) = Some "u04-0" /\
  OrderText.parse (upperCase calmEnv) " céfazolin 1g " =
    Some {| OrderText.code := Some "CÉFAZOLIN"; OrderText.name := "1g" |} /\
  exists code,
    Uppercased (upperCase calmEnv) "céfazolin" code /\
    exists rest,
      trace (exec (addOrder (ui ward) " céfazolin 1g ") calmEnv ward)
      = trace ward ++ Insert orders_t [specifiedOrder "u04-0" code "1g" (clock ward)] :: rest.
Proof.
  pose proof (C1_addOrder_parses calmEnv ward "  ") as H1.
  pose proof (C1_addOrder_parses calmEnv ward " céfazolin 1g ") as H2.
  cbv zeta in H1, H2.
  destruct H1 as (_ & H1 & _). destruct H2 as (_ & _ & H2 & _).
  assert (Hval : JsString.trim " céfazolin 1g " = "céfazolin 1g") by (vm_compute; reflexivity).
  assert (Hne : JsString.trim " céfazolin 1g " <> "") by (rewrite Hval; discriminate).
  split; [reflexivity|]. split; [apply H1; reflexivity|]. split; [exact Hval|].
  split; [reflexivity|]. split; [reflexivity|].
  destruct (H2 "u04-0" Hne eq_refl) as (code & Hcode & _ & Htrace & _).
  rewrite Hval in Hcode, Htrace.
  exists code. split; [exact Hcode|exact Htrace].
Defined.

Lemma C2_witness :
  let w' := exec (runAi (ui ward)) failingAiEnv ward in
  nonEmptyId (selectedEncounterId (ui ward)) = Some "u04-0" /\
  isAiLoading (ui ward) = false /\
  invokeFails (invokeOutcome failingAiEnv (clock ward)) = true /\
  store w' = store ward /\
  notes (ui w') = notes (ui ward) /\
  orders (ui w') = orders (ui ward) /\
  results (ui w') = results (ui ward) /\
  ddx (ui w') = ddx (ui ward).
Proof.
  intros w'.
  destruct (C2_failed_ai_call_persists_nothing failingAiEnv ward "u04-0" eq_refl eq_refl eq_refl)
    as (_ & Hs & Hn & Ho & Hr & Hd & _).
  repeat split; assumption.
Defined.

Lemma C3_witness :
  nonEmptyId (selectedEncounterId (ui ward)) = Some "u04-0" /\
  isAiLoading (ui ward) = false /\
  invokeOutcome (refusing ai_runs_t) (clock ward) = Replied sampleReply /\
  storeOutcome (refusing ai_runs_t) ai_runs_t (1 + clock ward) = Failed "permission denied" /\
  store (exec (runAi (ui ward)) (refusing ai_runs_t) ward) = store ward /\
  storeOutcome (refusing ai_suggestions_t) ai_suggestions_t (3 + clock ward)
    = Failed "permission denied" /\
  ddx_entries_rows (store (exec (runAi (ui ward)) (refusing ai_suggestions_t) ward))
    = ddx_entries_rows (store ward) /\
  storeOutcome (refusing ddx_entries_t) ddx_entries_t (4 + clock ward)
    = Failed "permission denied" /\
  ai_suggestions_rows (store (exec (runAi (ui ward)) (refusing ddx_entries_t) ward))
    = ai_suggestions_rows (store ward)
      ++ stamp (refusing ddx_entries_t) (3 + clock ward) 0
           (suggestionRows "u04-0" (savedRunId (refusing ddx_entries_t) (1 + clock ward))
              sampleReply).
Proof.
  destruct (C3_save_failures (refusing ai_runs_t) ward "u04-0" sampleReply
              eq_refl eq_refl eq_refl) as (Hrun & _ & _).
  destruct (C3_save_failures (refusing ai_suggestions_t) ward "u04-0" sampleReply
              eq_refl eq_refl eq_refl) as (_ & Hsug & _).
  destruct (C3_save_failures (refusing ddx_entries_t) ward "u04-0" sampleReply
              eq_refl eq_refl eq_refl) as (_ & _ & Hddx).
  destruct (Hrun "permission denied" eq_refl) as (_ & Hstore).
  destruct (Hsug "permission denied" eq_refl eq_refl) as (_ & _ & Hkept).
  destruct (Hddx "permission denied" eq_refl eq_refl eq_refl) as (_ & Hsaved & _).
  repeat split; assumption.
Defined.

Lemma C7_witness :
  picksOf (ui ward) = [] /\
  applyAiOrders (ui ward) calmEnv ward = (Normal tt, ward) /\
  step calmEnv ApplyAiOrders ward = ward.
Proof.
  split; [reflexivity|]. exact (C7_apply_nothing_is_noop calmEnv ward eq_refl).
Defined.

Lemma C9_witness :
  nonEmptyId (selectedEncounterId (ui (boot emptyStore))) = None /\
  runAi (ui (boot emptyStore)) calmEnv (boot emptyStore) = (Normal tt, boot emptyStore) /\
  addOrder (ui (boot emptyStore)) "CBC" calmEnv (boot emptyStore) = (Normal tt, boot emptyStore).
Proof.
  destruct (C9_guarded_by_encounter calmEnv (boot emptyStore)) as (H & _).
  destruct (H eq_refl) as (_ & Horder & _ & Hai & _).
  split; [reflexivity|]. split; [exact Hai|apply Horder].
Defined.

Lemma C10_witness :
  JsString.trim (inputs (ui (drafting "  ")) ddxProb) = "" /\
  humanProb (toNumber calmEnv) (inputs (ui (drafting "  ")) ddxProb) = VNull /\
  toNumber calmEnv (inputs (ui (drafting "likely")) ddxProb) = NaN /\
  humanProb (toNumber calmEnv) (inputs (ui (drafting "likely")) ddxProb) = VNull /\
  toNumber calmEnv (inputs (ui (drafting "Infinity")) ddxProb) = Infinity false /\
  humanProb (toNumber calmEnv) (inputs (ui (drafting "Infinity")) ddxProb) = VNull /\
  nonEmptyId (selectedEncounterId (ui (drafting "likely"))) = Some "u04-0" /\
  JsString.trim (inputs (ui (drafting "likely")) ddxName) <> "" /\
  exists rest,
    trace (exec (addHumanDdx (ui (drafting "likely"))) calmEnv (drafting "likely"))
    = trace (drafting "likely")
      ++ Insert ddx_entries_t
           [humanDdxRow calmEnv (ui (drafting "likely")) "u04-0" (clock (drafting "likely"))]
         :: rest.
Proof.
  destruct (C10_human_prob_null_or_finite calmEnv (drafting "  ")) as (_ & Hblank & _).
  destruct (C10_human_prob_null_or_finite calmEnv (drafting "Infinity"))
    as (_ & _ & _ & Hinf & _).
  destruct (C10_human_prob_null_or_finite calmEnv (drafting "likely"))
    as (_ & _ & Hnan & _ & Hrow).
  assert (Hname : JsString.trim (inputs (ui (drafting "likely")) ddxName) <> "")
    by (vm_compute; discriminate).
  split; [reflexivity|]. split; [exact (Hblank eq_refl)|].
  split; [reflexivity|]. split; [exact (Hnan eq_refl)|].
  split; [reflexivity|]. split; [exact (Hinf false eq_refl)|].
  split; [reflexivity|]. split; [exact Hname|].
  exact (proj2 (Hrow "u04-0" eq_refl Hname)).
Defined.

(** * Further properties of the handlers *)

(** ** The AI round trip always settles *)

Lemma tryFinally_setState {A} (m : Js A) (f : UI -> UI) (env : Env) (w : World) :
  tryFinally m (setState f) env w = (fst (m env w), withUI f (snd (m env w))).
Proof. unfold tryFinally, setState. destruct (m env w) as [c w']. reflexivity. Qed.

Lemma bind_setState {B} (f : UI -> UI) (k : unit -> Js B) (env : Env) (w : World) :
  bind (setState f) k env w = k tt env (withUI f w).
Proof. reflexivity. Qed.

Lemma completion_unit (c : Completion unit) : c = Normal tt \/ c = Thrown.
Proof. destruct c as [[]|]; auto. Qed.

(** X1. [runAi] never throws, whatever the AI function and the store do,
    and it leaves the loading flag as it found it: either it does nothing
    (no encounter, or a run already in flight), or it raises the flag and
    lowers it again on every path. *)
Theorem X1_runAi_settles (env : Env) (w : World) :
  fst (runAi (ui w) env w) = Normal tt /\
  isAiLoading (ui (exec (runAi (ui w)) env w)) = isAiLoading (ui w) /\
  (isAiLoading (ui w) = true -> runAi (ui w) env w = (Normal tt, w)).
Proof.
  unfold exec, runAi.
  destruct (nonEmptyId (selectedEncounterId (ui w))) as [e|];
    [|repeat split; reflexivity].
  destruct (isAiLoading (ui w)) eqn:Hload; [repeat split; solve [reflexivity|exact Hload]|].
  unfold setIsAiLoading, setSelectedAiOrderSuggestionIds.
  rewrite !bind_setState, tryFinally_setState. cbn [fst snd].
  split; [|split; [|discriminate]].
  - unfold tryCatch.
    match goal with |- context [runAiBody ?e ?u env ?w1] =>
      destruct (runAiBody e u env w1) as [c w2] end.
    destruct (completion_unit c) as [-> | ->]; reflexivity.
  - match goal with |- context [snd ?r] => destruct (snd r) as [st u tr c] end.
    destruct u. reflexivity.
Qed.

(** ** What the fetches put on screen *)

Lemma in_insertBy (col : string) (ascending : bool) (r x : Row) (sorted : list Row) :
  In x (insertBy col ascending r sorted) -> x = r \/ In x sorted.
Proof.
  induction sorted as [|r' rest IH]; simpl.
  - intros [<-|[]]; auto.
  - destruct (if ascending then _ else _).
    + intros [<-|H]; auto.
    + intros [<-|H]; [auto|]. destruct (IH H); auto.
Qed.

Lemma in_orderBy (col : string) (ascending : bool) (x : Row) (rows : list Row) :
  In x (orderBy col ascending rows) -> In x rows.
Proof.
  unfold orderBy. intros H. apply in_rev. revert H.
  induction (rev rows) as [|r rest IH]; simpl; [auto|].
  intros H. destruct (in_insertBy _ _ _ _ _ H) as [->|H']; auto.
Qed.

Lemma in_firstn_inv {A} (n : nat) (x : A) (l : list A) : In x (firstn n l) -> In x l.
Proof.
  revert l. induction n as [|n IH]; intros [|y l]; simpl; try tauto.
  intros [->|H]; [left; reflexivity|right; apply IH; exact H].
Qed.

Lemma in_limitTo (n : option nat) (x : Row) (rows : list Row) :
  In x (limitTo n rows) -> In x rows.
Proof. destruct n; simpl; [apply in_firstn_inv|auto]. Qed.

(** A select of all columns with an [eq] filter returns rows of the table
    that pass the filter. *)
Lemma evalSelect_star (t : table) (col v orderCol : string) (ascending : bool) (st : Store) :
  Forall (fun r => isStr (get col r) v = true /\ In r (rowsOf t st))
         (evalSelect (selectStar t col v orderCol ascending) st).
Proof.
  apply Forall_forall. intros r Hr. unfold evalSelect, selectStar in Hr.
  cbn [q_from q_columns q_eq q_order q_limit fst snd] in Hr.
  apply in_map_iff in Hr. destruct Hr as (r0 & <- & Hr).
  apply in_limitTo, in_orderBy, filter_In in Hr. destruct Hr as [Hin Hsat].
  split; assumption.
Qed.

Lemma answered_star (env : Env) (t : table) (col v orderCol : string) (ascending : bool)
    (instant : nat) (st : Store) :
  Forall (fun r => isStr (get col r) v = true /\ In r (rowsOf t st))
         (answered env (selectStar t col v orderCol ascending) instant st).
Proof.
  unfold answered. destruct (storeOutcome _ _ _); [apply evalSelect_star|constructor|constructor].
Qed.

Lemma fetchEncounterData_lists (encounterId : string) (env : Env) (w : World) :
  let r := fetchEncounterData encounterId env w in
  let c := clock w in
  let u' := ui (snd r) in
  let q := fun t => selectStar t "encounter_id" encounterId "occurred_at" false in
  isBusy u' = false /\
  (reloadAnswered env c = true ->
   fst r = Normal tt /\
   notes u' = answered env (q notes_t) c (store w) /\
   orders u' = answered env (q orders_t) (1 + c) (store w) /\
   results u' = answered env (q results_t) (2 + c) (store w) /\
   ddx u' = answered env (q ddx_entries_t) (3 + c) (store w)) /\
  (reloadAnswered env c = false ->
   fst r = Thrown /\
   notes u' = notes (ui w) /\ orders u' = orders (ui w) /\
   results u' = results (ui w) /\ ddx u' = ddx (ui w)).
Proof.
  destruct w as [st u tr c]. destruct u. unfold reloadAnswered, answered.
  unfold fetchEncounterData, tryFinally, both, bind, dbSelect, storeCall, reportError,
    setIsBusy, setNotes, setOrders, setResults, setDdx, setState, consoleError, ret.
  cbn -[evalSelect].
  repeat (match goal with
          | |- context [match storeOutcome ?e ?t ?n with _ => _ end] =>
              destruct (storeOutcome e t n)
          end; cbn -[evalSelect]);
    repeat split; solve [reflexivity | discriminate].
Qed.

(** X2. [fetchEncounterData] never writes and always ends with the busy
    flag lowered. When none of its four selects is rejected it completes,
    and each list on screen is what its select answered: rows of the store
    that belong to the encounter asked for, and none at all for a select
    that answered with an error. When one is rejected it throws and the
    four lists stay as they were. *)
Theorem X2_fetchEncounterData_screen (encounterId : string) (env : Env) (w : World) :
  let r := fetchEncounterData encounterId env w in
  let c := clock w in
  let u' := ui (snd r) in
  let q := fun t => selectStar t "encounter_id" encounterId "occurred_at" false in
  isBusy u' = false /\
  store (snd r) = store w /\
  (reloadAnswered env c = true ->
   fst r = Normal tt /\
   (notes u' = answered env (q notes_t) c (store w) /\
    orders u' = answered env (q orders_t) (1 + c) (store w) /\
    results u' = answered env (q results_t) (2 + c) (store w) /\
    ddx u' = answered env (q ddx_entries_t) (3 + c) (store w)) /\
   Forall (fun x => ofEncounter encounterId x /\ In x (notes_rows (store w))) (notes u') /\
   Forall (fun x => ofEncounter encounterId x /\ In x (orders_rows (store w))) (orders u') /\
   Forall (fun x => ofEncounter encounterId x /\ In x (results_rows (store w))) (results u') /\
   Forall (fun x => ofEncounter encounterId x /\ In x (ddx_entries_rows (store w))) (ddx u')) /\
  (reloadAnswered env c = false ->
   fst r = Thrown /\
   notes u' = notes (ui w) /\ orders u' = orders (ui w) /\
   results u' = results (ui w) /\ ddx u' = ddx (ui w)).
Proof.
  intros r c u' q.
  destruct (fetchEncounterData_lists encounterId env w) as (Hbusy & Hans & Hrej).
  destruct (fetchEncounterData_spec encounterId env w) as (Hstore & _).
  fold r in Hbusy, Hans, Hrej, Hstore. fold c in Hans, Hrej. fold u' in Hbusy, Hans, Hrej.
  split; [exact Hbusy|]. split; [exact Hstore|]. split; [|exact Hrej].
  intros Ha. destruct (Hans Ha) as (Hc & Hn & Ho & Hr & Hd).
  split; [exact Hc|]. split; [repeat split; assumption|].
  rewrite Hn, Ho, Hr, Hd.
  repeat split;
    match goal with
    | |- Forall _ (answered _ (selectStar ?t _ _ _ _) ?n _) =>
        exact (answered_star env t "encounter_id" encounterId "occurred_at" false n (store w))
    end.
Qed.

Lemma get_project (key : string) (cols : list string) (r : Row) :
  existsb (String.eqb key) cols = true -> get key (project cols r) = get key r.
Proof.
  intros Hkey. unfold project. destruct (existsb (String.eqb "*") cols); [reflexivity|].
  induction r as [|[k v] rest IH]; simpl; [reflexivity|].
  destruct (String.eqb_spec k key) as [->|Hk].
  - rewrite Hkey. simpl. rewrite String.eqb_refl. reflexivity.
  - destruct (existsb (String.eqb k) cols); simpl; [|exact IH].
    destruct (String.eqb_spec k key); [contradiction|exact IH].
Qed.

(** A select with an [eq] filter on a column it returns gives rows that
    pass the filter. *)
Lemma evalSelect_eq (q : SelectQuery) (col v : string) (st : Store) :
  q_eq q = Some (col, v) ->
  existsb (String.eqb col) (q_columns q) = true ->
  Forall (fun r => isStr (get col r) v = true) (evalSelect q st).
Proof.
  intros Hq Hcol. apply Forall_forall. intros r Hr. unfold evalSelect in Hr.
  apply in_map_iff in Hr. destruct Hr as (r0 & <- & Hr).
  apply in_limitTo, in_orderBy, filter_In in Hr. destruct Hr as [_ Hsat].
  rewrite Hq in Hsat. simpl in Hsat. rewrite get_project by exact Hcol. exact Hsat.
Qed.

(** X3. When neither of its selects is rejected, [fetchLatestAi]
    completes and leaves a consistent screen: the run shown, if any, is a
    run of the encounter asked for; every suggestion shown belongs to the
    run shown; and with no run shown (none stored, or the select failed)
    no suggestion is shown. *)
Theorem X3_fetchLatestAi_consistent (encounterId : string) (env : Env) (w : World) :
  rejected (storeOutcome env ai_runs_t (clock w)) = false ->
  rejected (storeOutcome env ai_suggestions_t (1 + clock w)) = false ->
  let r := fetchLatestAi encounterId env w in
  let u' := ui (snd r) in
  fst r = Normal tt /\
  suggestionsOfRunShown u' /\
  (forall run, latestAiRun u' = Some run ->
               isStr (get "encounter_id" run) encounterId = true) /\
  (latestAiRun u' = None -> aiSuggestions u' = []) /\
  (forall message, storeOutcome env ai_runs_t (clock w) = Failed message ->
                   latestAiRun u' = None).
Proof.
  destruct w as [st u tr c]. destruct u. cbn [clock]. intros Hrun Hsug.
  pose proof (evalSelect_eq (latestRunQuery encounterId) "encounter_id" encounterId st
                eq_refl eq_refl) as Hruns.
  unfold suggestionsOfRunShown.
  unfold fetchLatestAi, bind, dbSelect, storeCall, setLatestAiRun, setAiSuggestions,
    setState, consoleError, ret.
  fold (latestRunQuery encounterId).
  cbn -[evalSelect latestRunQuery] in *.
  change (q_from (latestRunQuery encounterId)) with ai_runs_t.
  destruct (storeOutcome env ai_runs_t c); [| |discriminate Hrun]; cbn -[evalSelect latestRunQuery].
  - destruct (evalSelect (latestRunQuery encounterId) st) as [|run others];
      cbn -[evalSelect latestRunQuery].
    + split; [reflexivity|]. split; [intros s []|]. split; [discriminate|].
      split; [reflexivity|discriminate].
    + inversion Hruns as [|? ? Hrun1 _]; subst.
      destruct (storeOutcome env ai_suggestions_t (S c)) eqn:Ho; [| |discriminate Hsug];
        cbn -[evalSelect latestRunQuery];
        (split; [reflexivity|]); (split; [|split; [|split; discriminate]]).
      * intros s Hs. exists run. split; [reflexivity|].
        pose proof (evalSelect_star ai_suggestions_t "ai_run_id" (idOf run) "created_at"
                      true st) as Hall.
        rewrite Forall_forall in Hall. exact (proj1 (Hall s Hs)).
      * intros run' H. injection H as <-. exact Hrun1.
      * intros s [].
      * intros run' H. injection H as <-. exact Hrun1.
  - split; [reflexivity|]. split; [intros s []|]. split; [discriminate|].
    split; reflexivity.
Qed.

(** ** Events that only read *)

Ltac read_side :=
  solve [ intros; exact I
        | intros; apply emittedSince_snoc; [ exact I | assumption ]
        | intros; cbn [fst]; assumption ].

Lemma runEffects_onlyReads (st : Store) (before : list Effect)
    (mounting : bool) (rendered current : UI) :
  preserves (fieldwise (fun s => s = st) anyUI (emittedSince before onlyReads))
            (runEffects mounting rendered current).
Proof. js_walk read_side. Qed.

(** X4. Selecting, typing, opening a dialog, ticking a suggestion and
    reloading the page never write: the store is left as it was, and the
    only requests sent are selects. *)
Theorem X4_reading_events_never_write (env : Env) (a : Action) (w : World) :
  readOnly a = true ->
  store (step env a w) = store w /\ stepEmits onlyReads env a w.
Proof.
  intros Ha.
  assert (H : fieldwise (fun s => s = store w) anyUI (emittedSince (trace w) onlyReads)
                (step env a w)).
  { unfold step.
    apply (runEffects_onlyReads (store w) (trace w) false).
    apply (runEffects_onlyReads (store w) (trace w) (isReload a)).
    assert (Hh : preserves (fieldwise (fun s => s = store w) anyUI
                              (emittedSince (trace w) onlyReads)) (handle a (ui w))).
    { destruct a; try discriminate Ha; js_walk read_side. }
    apply Hh. repeat split. apply emittedSince_refl. }
  destruct H as (HS & _ & HT). split; assumption.
Qed.

Lemma X4_witness :
  readOnly (ClickEncounter "u04-0") = true /\
  store (step calmEnv (ClickEncounter "u04-0") ward) = store ward.
Proof.
  split; [reflexivity|].
  exact (proj1 (X4_reading_events_never_write calmEnv (ClickEncounter "u04-0") ward eq_refl)).
Defined.

(** ** Selecting an encounter *)

Lemma fetchLatestAi_first (encounterId : string) (env : Env) (w : World) :
  exists rest,
    trace (exec (fetchLatestAi encounterId) env w)
    = trace w ++ Select (latestRunQuery encounterId) :: rest.
Proof.
  destruct w as [st u tr c].
  unfold exec, fetchLatestAi, bind, dbSelect, storeCall, setLatestAiRun, setAiSuggestions,
    setState, consoleError, ret.
  fold (latestRunQuery encounterId).
  cbn -[evalSelect latestRunQuery].
  change (q_from (latestRunQuery encounterId)) with ai_runs_t.
  destruct (storeOutcome env ai_runs_t c); cbn -[evalSelect latestRunQuery].
  - destruct (hd_error _) as [run|]; cbn -[evalSelect latestRunQuery].
    + destruct (storeOutcome env ai_suggestions_t (S c)); cbn -[evalSelect latestRunQuery];
        rewrite <- ?app_assoc; cbn [app]; eexists; reflexivity.
    + eexists; reflexivity.
  - rewrite <- ?app_assoc; cbn [app]. eexists; reflexivity.
  - eexists; reflexivity.
Qed.

Lemma encounterEffect_loads (u : UI) (encounterId : string) (env : Env) (w : World) :
  nonEmptyId (selectedEncounterId u) = Some encounterId ->
  let w' := exec (encounterEffect u) env w in
  store w' = store w /\
  exists rest1 rest2,
    trace w' = trace w ++ encounterDataSelects encounterId ++ rest1
               ++ Select (latestRunQuery encounterId) :: rest2.
Proof.
  intros Hsel w'. subst w'. unfold encounterEffect. rewrite Hsel.
  rewrite exec_bind_normal by reflexivity.
  change (exec (spawn (fetchEncounterData encounterId)) env w)
    with (snd (fetchEncounterData encounterId env w)).
  destruct (fetchEncounterData_spec encounterId env w) as (Hst & _ & (rest1 & Htr & _) & _).
  set (w1 := snd (fetchEncounterData encounterId env w)) in *.
  change (exec (spawn (fetchLatestAi encounterId)) env w1)
    with (exec (fetchLatestAi encounterId) env w1).
  destruct (fetchLatestAi_spec encounterId env w1) as (Hst2 & _).
  destruct (fetchLatestAi_first encounterId env w1) as (rest2 & Htr2).
  split; [unfold exec; congruence|].
  exists rest1, rest2. rewrite Htr2, Htr, <- !app_assoc. reflexivity.
Qed.

Lemma clickEncounter_ui (encounterId : string) (env : Env) (w : World) :
  let w1 := exec (handle (ClickEncounter encounterId) (ui w)) env w in
  store w1 = store w /\ trace w1 = trace w /\ clock w1 = clock w /\
  selectedPatientId (ui w1) = selectedPatientId (ui w) /\
  selectedEncounterId (ui w1) = Some encounterId /\
  (selectedEncounterId (ui w) = Some encounterId -> w1 = w).
Proof.
  destruct w as [st u tr c]. destruct u. cbn. repeat split. intros ->. reflexivity.
Qed.

(** X5. Clicking the encounter that is already selected changes nothing
    and sends nothing. Clicking another one selects it and loads it: the
    four selects of its data are sent, then the select of its latest AI
    run, and the store is not written. *)
Theorem X5_clickEncounter_loads (env : Env) (w : World) (encounterId : string) :
  let w' := step env (ClickEncounter encounterId) w in
  (selectedEncounterId (ui w) = Some encounterId -> w' = w) /\
  (encounterId <> "" ->
   selectedEncounterId (ui w) <> Some encounterId ->
   selectedEncounterId (ui w') = Some encounterId /\
   store w' = store w /\
   exists rest1 rest2,
     trace w' = trace w ++ encounterDataSelects encounterId ++ rest1
                ++ Select (latestRunQuery encounterId) :: rest2).
Proof.
  intros w'. subst w'. rewrite step_as_renders. cbv zeta.
  destruct (clickEncounter_ui encounterId env w) as (Hst & Htr & Hck & Hp & He & Hsame).
  set (w1 := exec (handle (ClickEncounter encounterId) (ui w)) env w) in *.
  cbn [isReload]. split.
  - intros Hsel. rewrite (Hsame Hsel). unfold render, exec.
    rewrite (runEffects_idle (ui w) (ui w) env w eq_refl eq_refl). cbn [snd].
    rewrite (runEffects_idle (ui w) (ui w) env w eq_refl eq_refl). reflexivity.
  - intros Hne Hdiff.
    assert (Hnon : nonEmptyId (selectedEncounterId (ui w1)) = Some encounterId).
    { rewrite He. destruct encounterId; [contradiction|reflexivity]. }
    assert (Hfire : sameId (selectedEncounterId (ui w)) (selectedEncounterId (ui w1)) = false).
    { rewrite He. destruct (sameId _ _) eqn:E; [|reflexivity].
      apply sameId_eq in E. contradiction. }
    rewrite (render_unfold false (ui w) env w1). cbv zeta.
    rewrite Hp, sameId_refl, Hfire. cbn [negb orb].
    destruct (encounterEffect_ui (ui w1) env w1) as (Hp2 & He2 & _).
    destruct (encounterEffect_loads (ui w1) encounterId env w1 Hnon) as (Hst2 & rest1 & rest2 & Htr2).
    set (w2 := exec (encounterEffect (ui w1)) env w1) in *.
    assert (Hquiet : render false (ui w1) env w2 = w2).
    { unfold render, exec. rewrite runEffects_idle by assumption. reflexivity. }
    rewrite Hquiet.
    split; [congruence|]. split; [congruence|].
    exists rest1, rest2. rewrite Htr2, Htr. reflexivity.
Qed.

Lemma X5_witness :
  "u04-0" <> "" /\
  selectedEncounterId (ui (step calmEnv (ClickPatient "u02-0") ward)) <> Some "u04-0" /\
  selectedEncounterId
    (ui (step calmEnv (ClickEncounter "u04-0") (step calmEnv (ClickPatient "u02-0") ward)))
  = Some "u04-0".
Proof.
  assert (H1 : "u04-0" <> "") by discriminate.
  assert (H2 : selectedEncounterId (ui (step calmEnv (ClickPatient "u02-0") ward))
               <> Some "u04-0") by (vm_compute; discriminate).
  split; [exact H1|]. split; [exact H2|].
  exact (proj1 (proj2 (X5_clickEncounter_loads calmEnv
                         (step calmEnv (ClickPatient "u02-0") ward) "u04-0") H1 H2)).
Defined.

(** ** Creating a patient *)

(** X6. [createPatient] does nothing for a name that trims to nothing,
    that is, a name of white space only, of ASCII or not.
    When the store refuses the row, the user is alerted with the store's
    message and the dialog is left as it is: still open, its fields
    intact, nobody newly selected. *)
Theorem X6_createPatient_refused (env : Env) (w : World) :
  let u := ui w in
  let w' := exec (createPatient u) env w in
  Stripped (inputs u newPatientName) (JsString.trim (inputs u newPatientName)) /\
  (JsString.trim (inputs u newPatientName) = "" -> createPatient u env w = (Normal tt, w)) /\
  (forall message,
      JsString.trim (inputs u newPatientName) <> "" ->
      storeOutcome env patients_t (clock w) = Failed message ->
      fst (createPatient u env w) = Normal tt /\
      ui w' = u /\
      store w' = store w /\
      trace w' = trace w ++ [Insert patients_t [patientRow u];
                             ConsoleError "createPatient failed:";
                             Alert ("新增患者失敗: " ++ message)]).
Proof.
  intros u w'. subst u w'. split; [apply JsStringFacts.trim_stripped|].
  unfold exec, createPatient. split.
  - intros ->. reflexivity.
  - intros message Hname Hfail. apply JsStringFacts.truthy_true in Hname. rewrite Hname.
    cbn [negb]. fold (patientRow (ui w)).
    unfold bind, dbInsert, storeCall. rewrite Hfail.
    cbn [single consoleError alert fst snd]. destruct w as [st u tr c]. cbn.
    rewrite <- !app_assoc. repeat split.
Qed.

Lemma X6_witness :
  let blank := step calmEnv (TypeInto newPatientName (utf8 [227; 128; 128; 32; 194; 160])) ward in
  let typed := step calmEnv (TypeInto newPatientName " Lin ") ward in
  inputs (ui blank) newPatientName <> "" /\
  JsString.trim (inputs (ui blank) newPatientName) = "" /\
  createPatient (ui blank) calmEnv blank = (Normal tt, blank) /\
  JsString.trim (inputs (ui typed) newPatientName) <> "" /\
  storeOutcome (refusing patients_t) patients_t (clock typed) = Failed "permission denied" /\
  ui (exec (createPatient (ui typed)) (refusing patients_t) typed) = ui typed.
Proof.
  intros blank typed.
  assert (Hname : JsString.trim (inputs (ui typed) newPatientName) <> "")
    by (vm_compute; discriminate).
  assert (Hnone : JsString.trim (inputs (ui blank) newPatientName) = "")
    by (vm_compute; reflexivity).
  destruct (X6_createPatient_refused calmEnv blank) as (_ & Hblank & _).
  destruct (X6_createPatient_refused (refusing patients_t) typed) as (_ & _ & Hrefused).
  split; [vm_compute; discriminate|]. split; [exact Hnone|].
  split; [exact (Hblank Hnone)|]. split; [exact Hname|].
  split; [reflexivity|].
  exact (proj1 (proj2 (Hrefused "permission denied" Hname eq_refl))).
Defined.

Lemma fetchEncounters_frame (patientId : string) (env : Env) (w : World) :
  let w' := exec (spawn (fetchEncounters patientId)) env w in
  exceptEncounters (ui w') = exceptEncounters (ui w) /\ store w' = store w.
Proof.
  intros w'. split.
  - apply (preserves_ui_value exceptEncounters). intros b. js_walk ui_side.
  - assert (H : fieldwise (fun s => s = store w) anyUI anyTrace w').
    { assert (Hp : preserves (fieldwise (fun s => s = store w) anyUI anyTrace)
                             (spawn (fetchEncounters patientId))) by js_walk read_side.
      apply Hp. repeat split. }
    exact (proj1 H).
Qed.

(** What [createPatient] leaves when the store accepts the row and the
    list of patients is fetched again. *)
Lemma createPatient_accepted (env : Env) (w : World) :
  JsString.trim (inputs (ui w) newPatientName) <> "" ->
  storeOutcome env patients_t (clock w) = Ok ->
  rejected (storeOutcome env patients_t (1 + clock w)) = false ->
  let w1 := exec (createPatient (ui w)) env w in
  selectedPatientId (ui w1) = Some (uuid env (clock w) 0) /\
  selectedEncounterId (ui w1) = selectedEncounterId (ui w) /\
  viewsOf (ui w1) = viewsOf (ui w) /\
  isPatientModalOpen (ui w1) = false /\
  (inputs (ui w1) newPatientName = "" /\ inputs (ui w1) newPatientMrn = "" /\
   inputs (ui w1) newPatientSex = "") /\
  patients_rows (store w1) = patients_rows (store w) ++ stamp env (clock w) 0 [patientRow (ui w)].
Proof.
  intros Hname Hok Hfetch w1. subst w1. unfold exec, createPatient.
  apply JsStringFacts.truthy_true in Hname. rewrite Hname. cbn [negb].
  fold (patientRow (ui w)).
  destruct w as [st u tr c]. destruct u, st. cbn [clock ui Nat.add] in *.
  unfold bind, dbInsert, storeCall, fetchPatients, bind, dbSelect, storeCall,
    setIsPatientModalOpen, setInput, setPatients, setSelectedPatientId, setState,
    consoleError, ret.
  cbn -[evalSelect patientRow]. rewrite Hok. cbn -[evalSelect patientRow].
  destruct (storeOutcome env patients_t (S c)); [| |discriminate Hfetch];
    cbn -[evalSelect]; repeat split.
Qed.

(** X7. When the store accepts the new patient and answers the fetch of
    the list, creating a patient closes the dialog, empties its fields and
    selects the new patient; unlike a click on a patient, it leaves the
    selected encounter and the views of that encounter as they were. *)
Theorem X7_createPatient_selects (env : Env) (w : World) :
  JsString.trim (inputs (ui w) newPatientName) <> "" ->
  storeOutcome env patients_t (clock w) = Ok ->
  rejected (storeOutcome env patients_t (1 + clock w)) = false ->
  uuid env (clock w) 0 <> "" ->
  let w' := step env CreatePatient w in
  selectedPatientId (ui w') = Some (uuid env (clock w) 0) /\
  selectedEncounterId (ui w') = selectedEncounterId (ui w) /\
  viewsOf (ui w') = viewsOf (ui w) /\
  isPatientModalOpen (ui w') = false /\
  (inputs (ui w') newPatientName = "" /\ inputs (ui w') newPatientMrn = "" /\
   inputs (ui w') newPatientSex = "") /\
  patients_rows (store w') = patients_rows (store w) ++ stamp env (clock w) 0 [patientRow (ui w)].
Proof.
  intros Hname Hok Hfetch Hid w'. subst w'. rewrite step_as_renders. cbv zeta.
  cbn [handle isReload].
  destruct (createPatient_accepted env w Hname Hok Hfetch) as (HP & HE & HV & HM & HI & HS).
  set (w1 := exec (createPatient (ui w)) env w) in *.
  assert (Hwa : exists wa, render false (ui w) env w1 = wa /\
                           exceptEncounters (ui wa) = exceptEncounters (ui w1) /\
                           store wa = store w1).
  { rewrite render_unfold. cbv zeta. rewrite HE, sameId_refl. cbn [negb orb].
    destruct (negb _).
    - unfold patientEffect. rewrite HP.
      assert (Hn : nonEmptyId (Some (uuid env (clock w) 0)) = Some (uuid env (clock w) 0)).
      { destruct (uuid env (clock w) 0); [contradiction|reflexivity]. }
      rewrite Hn. eexists. split; [reflexivity|].
      apply fetchEncounters_frame.
    - eexists. repeat split. }
  destruct Hwa as (wa & -> & Hui & Hst).
  assert (Hquiet : render false (ui w1) env wa = wa).
  { unfold render, exec. rewrite runEffects_idle; [reflexivity| |].
    - exact (f_equal (fun t => snd (fst (fst (fst (fst (fst (fst (fst t)))))))) Hui).
    - exact (f_equal (fun t => snd (fst (fst (fst (fst (fst (fst t))))))) Hui). }
  rewrite Hquiet.
  pose proof (f_equal (fun t => snd (fst (fst (fst (fst (fst (fst (fst t)))))))) Hui) as HP'.
  pose proof (f_equal (fun t => snd (fst (fst (fst (fst (fst (fst t))))))) Hui) as HE'.
  pose proof (f_equal (fun t => snd (fst (fst (fst (fst (fst t)))))) Hui) as HV'.
  pose proof (f_equal (fun t => snd (fst (fst (fst t)))) Hui) as HM'.
  pose proof (f_equal (fun t => snd (fst (fst t))) Hui) as HI'.
  cbn [exceptEncounters fst snd] in HP', HE', HV', HM', HI'.
  rewrite HP', HE', HV', HM', HI', Hst. repeat split; tauto || assumption.
Qed.

Lemma X7_witness :
  let w := step calmEnv (TypeInto newPatientName " Lin ") ward in
  JsString.trim (inputs (ui w) newPatientName) <> "" /\
  storeOutcome calmEnv patients_t (clock w) = Ok /\
  rejected (storeOutcome calmEnv patients_t (1 + clock w)) = false /\
  uuid calmEnv (clock w) 0 <> "" /\
  selectedPatientId (ui (step calmEnv CreatePatient w)) = Some (uuid calmEnv (clock w) 0) /\
  selectedEncounterId (ui (step calmEnv CreatePatient w)) = Some "u04-0".
Proof.
  intros w.
  assert (Hname : JsString.trim (inputs (ui w) newPatientName) <> "")
    by (vm_compute; discriminate).
  assert (Hid : uuid calmEnv (clock w) 0 <> "") by (vm_compute; discriminate).
  destruct (X7_createPatient_selects calmEnv w Hname eq_refl eq_refl Hid) as (HP & HE & _).
  split; [exact Hname|]. split; [reflexivity|]. split; [reflexivity|]. split; [exact Hid|].
  split; [exact HP|]. rewrite HE. reflexivity.
Defined.

(** ** Creating an encounter *)





(** ** Saving a note *)

Lemma bind_assoc {A B C} (m : Js A) (f : A -> Js B) (g : B -> Js C) (env : Env) (w : World) :
  bind (bind m f) g env w = bind m (fun x => bind (f x) g) env w.
Proof. unfold bind. destruct (m env w) as [[a|] w']; reflexivity. Qed.

(** The effects of [storeCall ... ;; k]: the request, then those of [k]. *)
Lemma storeCall_then {B} (t : table) (request : Effect)
    (apply : Env -> nat -> Store -> Store * list Row)
    (k : Response -> Js B) (ok : Effect -> Prop) (env : Env) (w : World) :
  (forall r, preserves (fieldwise anyStore anyUI (emittedSince (trace w ++ [request]) ok)) (k r)) ->
  exists rest,
    trace (exec (bind (storeCall t request apply) k) env w) = trace w ++ request :: rest /\
    Forall ok rest.
Proof.
  intros Hk. unfold exec, bind, storeCall.
  assert (Hstart : forall w1, trace w1 = trace w ++ [request] ->
                   fieldwise anyStore anyUI (emittedSince (trace w ++ [request]) ok) w1).
  { intros w1 H1. repeat split. rewrite H1. apply emittedSince_refl. }
  destruct (storeOutcome env t (clock w)).
  - destruct (apply env (clock w) (store w)) as [st' rows]. cbn [fst snd].
    match goal with |- context [k ?r env ?w1] =>
      destruct (Hk r env w1 (Hstart w1 eq_refl)) as (_ & _ & (es & He & Hes)) end.
    unfold exec in He. exists es. rewrite He, <- app_assoc. split; [reflexivity|exact Hes].
  - cbn [fst snd].
    match goal with |- context [k ?r env ?w1] =>
      destruct (Hk r env w1 (Hstart w1 eq_refl)) as (_ & _ & (es & He & Hes)) end.
    unfold exec in He. exists es. rewrite He, <- app_assoc. split; [reflexivity|exact Hes].
  - cbn. exists []. split; [reflexivity|constructor].
Qed.

Lemma occurred_at_exec (env : Env) (d : NoteDraft) (w : World) :
  (if truthyValue (draft_occurred_at d) then toISOString (draft_occurred_at d) else now) env w
  = match occurredOf env d (clock w) with
    | Some t => (Normal t, w)
    | None => (Thrown, w)
    end.
Proof.
  unfold occurredOf, toISOString. destruct (draft_occurred_at d) as [|b|s|n|t|l|l]; cbn;
    try reflexivity.
  - destruct b; reflexivity.
  - destruct (JsString.truthy s); [|reflexivity].
    unfold bind, newDate. cbn. destruct (parseDate env s); reflexivity.
  - destruct n as [|b|q]; cbn; try reflexivity. destruct (negb _); reflexivity.
Qed.

Ltac note_side :=
  solve [ intros; exact I
        | intros; apply emittedSince_snoc; [ split; discriminate | assumption ] ].

Lemma fetchEncounterData_keeps_draft (encounterId : string) (env : Env) (w : World) :
  editingNote (ui (exec (fetchEncounterData encounterId) env w)) = editingNote (ui w).
Proof. apply (preserves_ui_value editingNote). intros b. js_walk ui_side. Qed.

(** X9. [saveNote] does nothing without a draft, and throws before
    sending anything when the draft's time is not a date. Otherwise its
    first request updates the note the draft names, or inserts a note when
    the draft names none, and no other write to the notes follows. When
    the store refuses that request the user is alerted and the draft stays
    open, the screen unchanged; when the store accepts it the draft is
    closed. *)
Theorem X9_saveNote (env : Env) (w : World) (encounterId : string) :
  nonEmptyId (selectedEncounterId (ui w)) = Some encounterId ->
  let u := ui w in
  let c := clock w in
  let w' := exec (saveNote u) env w in
  (editingNote u = None -> saveNote u env w = (Normal tt, w)) /\
  (forall d, editingNote u = Some d -> occurredOf env d c = None ->
             saveNote u env w = (Thrown, w)) /\
  (forall d t,
      editingNote u = Some d -> occurredOf env d c = Some t ->
      (exists rest, trace w' = trace w ++ noteRequest encounterId d t :: rest /\
                    Forall noNoteWrite rest) /\
      (forall message,
          storeOutcome env notes_t c = Failed message ->
          fst (saveNote u env w) = Normal tt /\
          ui w' = u /\ store w' = store w /\
          trace w' = trace w ++ noteRequest encounterId d t :: noteFailure d message) /\
      (storeOutcome env notes_t c = Ok -> editingNote (ui w') = None)).
Proof.
  intros Hsel u c w'. subst u c w'. unfold exec, saveNote. rewrite Hsel.
  split; [intros ->; reflexivity|]. split.
  - intros d -> Hocc. unfold bind at 1. rewrite occurred_at_exec, Hocc. reflexivity.
  - intros d t -> Hocc.
    assert (Hstep : forall (X : nat -> Js unit),
               bind (if truthyValue (draft_occurred_at d)
                     then toISOString (draft_occurred_at d) else now) X env w = X t env w).
    { intros X. unfold bind. rewrite occurred_at_exec, Hocc. reflexivity. }
    rewrite !Hstep. clear Hstep.
    fold (notePayload encounterId d t). unfold noteRequest, noteFailure.
    split; [|split].
    + destruct (nonEmptyId (draft_id d)) as [noteId|]; rewrite bind_assoc.
      * unfold dbUpdate.
        match goal with |- context [bind (storeCall ?t ?rq ?ap) ?k env w] =>
          apply (storeCall_then t rq ap k noNoteWrite env w) end.
        intros r. js_walk note_side.
      * unfold dbInsert.
        match goal with |- context [bind (storeCall ?t ?rq ?ap) ?k env w] =>
          apply (storeCall_then t rq ap k noNoteWrite env w) end.
        intros r. js_walk note_side.
    + intros message Hfail.
      destruct (nonEmptyId (draft_id d)) as [noteId|];
        unfold bind, dbUpdate, dbInsert, storeCall; cbv beta; rewrite Hfail;
        destruct w as [st u tr c]; cbn; rewrite <- !app_assoc; repeat split.
    + intros Hok.
      pose proof (fetchEncounterData_keeps_draft encounterId env) as Hkeep.
      revert Hkeep. unfold exec. generalize (fetchEncounterData encounterId).
      intros reload Hkeep. unfold logEvent.
      destruct w as [st u tr c]. destruct u. cbn [clock] in Hok.
      destruct (nonEmptyId (draft_id d)) as [noteId|];
        unfold bind, tryCatch, bind, now, dbUpdate, dbInsert, storeCall, setEditingNote,
          setState, ret;
        cbn -[notePayload]; rewrite Hok; cbn -[notePayload];
        destruct (storeOutcome env patient_events_t (S c)); cbn -[notePayload];
        rewrite Hkeep; reflexivity.
Qed.

Lemma X9_witness :
  nonEmptyId (selectedEncounterId (ui writing)) = Some "u04-0" /\
  editingNote (ui writing) = Some sampleDraft /\
  occurredOf calmEnv sampleDraft (clock writing) = Some 7 /\
  storeOutcome calmEnv notes_t (clock writing) = Ok /\
  editingNote (ui (exec (saveNote (ui writing)) calmEnv writing)) = None /\
  storeOutcome (refusing notes_t) notes_t (clock writing) = Failed "permission denied" /\
  ui (exec (saveNote (ui writing)) (refusing notes_t) writing) = ui writing.
Proof.
  destruct (X9_saveNote calmEnv writing "u04-0" eq_refl) as (_ & _ & Hok).
  destruct (X9_saveNote (refusing notes_t) writing "u04-0" eq_refl) as (_ & _ & Hko).
  destruct (Hok sampleDraft 7 eq_refl eq_refl) as (_ & _ & Hclosed).
  destruct (Hko sampleDraft 7 eq_refl eq_refl) as (_ & Hrefused & _).
  split; [reflexivity|]. split; [reflexivity|]. split; [reflexivity|]. split; [reflexivity|].
  split; [exact (Hclosed eq_refl)|]. split; [reflexivity|].
  exact (proj1 (proj2 (Hrefused "permission denied" eq_refl))).
Defined.

(** ** Applying AI order suggestions *)

Lemma existsb_eqb_In (s : string) (ids : list string) :
  existsb (String.eqb s) ids = true <-> In s ids.
Proof.
  rewrite existsb_exists. split.
  - intros (x & Hx & Heq). apply String.eqb_eq in Heq. subst. exact Hx.
  - intros H. exists s. split; [exact H|apply String.eqb_refl].
Qed.

Lemma includesId_ext (ids1 ids2 : list string) (v : value) :
  (forall x, In x ids1 <-> In x ids2) -> includesId ids1 v = includesId ids2 v.
Proof.
  intros H. destruct v; try reflexivity. simpl.
  destruct (existsb (String.eqb s) ids2) eqn:E.
  - apply existsb_eqb_In. apply H. apply existsb_eqb_In. exact E.
  - destruct (existsb (String.eqb s) ids1) eqn:E1; [|reflexivity].
    apply existsb_eqb_In, H, existsb_eqb_In in E1. congruence.
Qed.

(** What [filter] keeps. *)
Lemma filter_kept {A : Type} (P : A -> Prop) (f : A -> bool) (l : list A) :
  (forall x, f x = true <-> P x) -> Kept P l (filter f l).
Proof.
  intros H. induction l as [|x rest IH]; cbn [filter]; [constructor|].
  destruct (f x) eqn:E.
  - apply kept_keep; [apply H, E|exact IH].
  - apply kept_strike; [|exact IH]. intros HP. apply H in HP. congruence.
Qed.

Lemma kept_in {A : Type} (P : A -> Prop) (l kept : list A) :
  Kept P l kept -> forall x, In x kept <-> In x l /\ P x.
Proof.
  induction 1 as [|x l kept HP _ IH|x l kept HP _ IH]; intros y; cbn [In].
  - tauto.
  - rewrite IH. split.
    + intros [<-|[Hin Hy]]; [split; [left; reflexivity|exact HP]|split; [right; exact Hin|exact Hy]].
    + intros [[<-|Hin] Hy]; [left; reflexivity|right; split; assumption].
  - rewrite IH. split.
    + intros [Hin Hy]. split; [right; exact Hin|exact Hy].
    + intros [[<-|Hin] Hy]; [contradiction|split; assumption].
Qed.

Lemma tickedOrder_test (u : UI) (p : Row) :
  isStr (get "suggestion_type" p) "order"
  && includesId (selectedAiOrderSuggestionIds u) (get "id" p) = true
  <-> tickedOrder u p.
Proof.
  unfold tickedOrder. rewrite andb_true_iff. split.
  - intros (Htype & Hid). split; [exact Htype|].
    destruct (get "id" p); try discriminate Hid. exists s. split; [reflexivity|].
    apply existsb_eqb_In. exact Hid.
  - intros (Htype & id & Hid & Hsel). split; [exact Htype|].
    rewrite Hid. apply existsb_eqb_In. exact Hsel.
Qed.

(** X10. With an encounter selected and a suggestion shown that is of
    type order and ticked, the first request of [applyAiOrders] inserts
    one order row per pick, in the order the suggestions are shown: the
    picks are the list of suggestions shown with those struck out that are
    not of type order or not ticked. So ticking a diagnosis applies
    nothing, and ticking a suggestion twice or in another order applies
    the same orders. *)
Theorem X10_applied_suggestions (env : Env) (w : World) (encounterId : string) :
  nonEmptyId (selectedEncounterId (ui w)) = Some encounterId ->
  (exists p, picked (ui w) p) ->
  let u := ui w in
  exists picks,
    Kept (tickedOrder u) (aiSuggestions u) picks /\
    (exists rest,
        trace (exec (applyAiOrders u) env w)
        = trace w ++ Insert orders_t (map (aiOrderRow encounterId (clock w)) picks) :: rest) /\
    (forall p, In p picks <-> picked u p) /\
    (forall u2,
        aiSuggestions u2 = aiSuggestions u ->
        (forall id, In id (selectedAiOrderSuggestionIds u2)
                    <-> In id (selectedAiOrderSuggestionIds u)) ->
        Kept (tickedOrder u2) (aiSuggestions u2) picks).
Proof.
  intros Hsel (p0 & Hp0) u. subst u.
  assert (Hkept : Kept (tickedOrder (ui w)) (aiSuggestions (ui w)) (picksOf (ui w))).
  { apply filter_kept. intros p. apply tickedOrder_test. }
  exists (picksOf (ui w)). split; [exact Hkept|]. split; [|split].
  - unfold applyAiOrders. rewrite Hsel.
    destruct (picksOf (ui w)) as [|p ps] eqn:E.
    { exfalso. apply (proj2 (kept_in _ _ _ Hkept p0)). exact Hp0. }
    unfold exec, bind at 1, now. cbn [fst snd].
    match goal with
    | |- context [bind (dbInsert ?t ?rows ?ret) ?k env w] =>
        destruct (dbInsert_then t rows ret k env w) as [Htrace _]
    end.
    + intros r PS HPS. js_walk frame_side.
    + exact Htrace.
  - intros p. apply (kept_in _ _ _ Hkept).
  - intros u2 Hsug Hids. unfold picksOf. rewrite <- Hsug.
    apply filter_kept. intros p. rewrite <- tickedOrder_test.
    rewrite (includesId_ext _ _ (get "id" p) Hids). reflexivity.
Qed.

Lemma X10_witness :
  nonEmptyId (selectedEncounterId (ui ticked)) = Some "u04-0" /\
  (exists p, picked (ui ticked) p) /\
  exists picks,
    map (get "name") picks = [VStr "Troponin-I serial"] /\
    exists rest,
      trace (exec (applyAiOrders (ui ticked)) calmEnv ticked)
      = trace ticked
        ++ Insert orders_t (map (aiOrderRow "u04-0" (clock ticked)) picks) :: rest.
Proof.
  assert (Hpick : exists p, picked (ui ticked) p).
  { assert (H : exists p, hd_error (picksOf (ui ticked)) = Some p)
      by (vm_compute; eexists; reflexivity).
    destruct H as (p & Hp). exists p.
    assert (Hin : In p (picksOf (ui ticked))).
    { destruct (picksOf (ui ticked)) as [|q qs]; [discriminate Hp|].
      injection Hp as ->. left. reflexivity. }
    unfold picksOf in Hin. apply filter_In in Hin. destruct Hin as [Hin Htest].
    split; [exact Hin|]. apply tickedOrder_test. exact Htest. }
  destruct (X10_applied_suggestions calmEnv ticked "u04-0" eq_refl Hpick)
    as (picks & Hkept & Htrace & _).
  split; [reflexivity|]. split; [exact Hpick|].
  exists picks. split; [|exact Htrace].
  assert (Hsug : exists s1 s2, aiSuggestions (ui ticked) = [s1; s2] /\
                               get "suggestion_type" s1 = VStr "diagnosis" /\
                               get "suggestion_type" s2 = VStr "order" /\
                               get "id" s2 = VStr "u14-1" /\
                               get "name" s2 = VStr "Troponin-I serial" /\
                               selectedAiOrderSuggestionIds (ui ticked) = ["u14-1"])
    by (vm_compute; do 2 eexists; repeat split; reflexivity).
  destruct Hsug as (s1 & s2 & Hs & H1 & H2 & Hid & Hname & Hticks).
  rewrite Hs in Hkept.
  inversion Hkept as [|x l k HP Hrest|x l k HP Hrest]; subst.
  { exfalso. destruct HP as (Htype & _). rewrite H1 in Htype. discriminate Htype. }
  inversion Hrest as [|x l k HP2 Hrest2|x l k HP2 Hrest2]; subst.
  - inversion Hrest2; subst. cbn [map]. rewrite Hname. reflexivity.
  - exfalso. apply HP2. split; [rewrite H2; reflexivity|].
    exists "u14-1". split; [exact Hid|]. rewrite Hticks. left. reflexivity.
Defined.

Lemma bind_dbInsert_ok {B} (t : table) (rows : list Row) (returning : option (list string))
    (k : Response -> Js B) (env : Env) (w : World) :
  storeOutcome env t (clock w) = Ok ->
  bind (dbInsert t rows returning) k env w
  = k (Data match returning with
            | Some cols => map (project cols) (stamp env (clock w) 0 rows)
            | None => []
            end)
      env
      (withStore (fun _ => withRows t (fun old => old ++ stamp env (clock w) 0 rows) (store w))
                 (tick (emit (Insert t rows) w))).
Proof. intros H. unfold bind, dbInsert, storeCall. rewrite H. reflexivity. Qed.

Lemma bind_dbInsert_failed {B} (t : table) (rows : list Row) (returning : option (list string))
    (k : Response -> Js B) (env : Env) (w : World) (message : string) :
  storeOutcome env t (clock w) = Failed message ->
  bind (dbInsert t rows returning) k env w
  = k (Error message) env (tick (emit (Insert t rows) w)).
Proof. intros H. unfold bind, dbInsert, storeCall. rewrite H. reflexivity. Qed.

(** One audit insert per row, and nothing else. *)
Lemma forEach_logEvent (encounter_id actor_type event_type : string)
    (entity_table summary : option string) (payload : option value)
    (rows : list Row) (env : Env) (w : World) :
  let r := forEach rows (fun inserted =>
             logEvent encounter_id actor_type event_type entity_table (get "id" inserted)
                      summary payload) env w in
  fst r = Normal tt /\
  ui (snd r) = ui w /\
  (forall t, t <> patient_events_t -> rowsOf t (store (snd r)) = rowsOf t (store w)) /\
  exists audits,
    trace (snd r) = trace w ++ audits /\
    length audits = length rows /\
    Forall (fun e => kind e = KInsert patient_events_t) audits.
Proof.
  revert w. induction rows as [|row rest IH]; intros w; cbn [forEach].
  - cbn. repeat split. exists []. rewrite app_nil_r. repeat split. constructor.
  - destruct (logEvent_spec encounter_id actor_type event_type entity_table (get "id" row)
                summary payload env w) as (Hc & Hu & Ht & _ & Hs).
    unfold bind.
    destruct (logEvent encounter_id actor_type event_type entity_table (get "id" row)
                summary payload env w) as [c1 w1].
    cbn [fst snd] in *. subst c1.
    destruct (IH w1) as (Hc' & Hu' & Hs' & audits & Ht' & Hlen & Hall).
    cbv zeta in *. split; [exact Hc'|]. split; [congruence|].
    split; [intros t Hne; rewrite (Hs' t Hne); apply Hs; exact Hne|].
    eexists (_ :: audits). rewrite Ht', Ht, <- app_assoc. cbn [app].
    split; [reflexivity|]. split; [cbn; rewrite Hlen; reflexivity|].
    constructor; [reflexivity|exact Hall].
Qed.

Lemma fetchEncounterData_keeps_picks (encounterId : string) (env : Env) (w : World) :
  selectedAiOrderSuggestionIds (ui (exec (fetchEncounterData encounterId) env w))
  = selectedAiOrderSuggestionIds (ui w).
Proof. apply (preserves_ui_value selectedAiOrderSuggestionIds). intros b. js_walk ui_side. Qed.

Lemma length_stamp (env : Env) (instant index : nat) (rows : list Row) :
  length (stamp env instant index rows) = length rows.
Proof. revert index. induction rows; intros; simpl; [|rewrite IHrows]; reflexivity. Qed.

(** X11. When the store refuses the orders of [applyAiOrders], the user
    is alerted and nothing else happens: the ticks are kept, no audit
    event is sent, nothing is reloaded. When it accepts them, the rows
    are stored, one audit event is sent per order, the ticks are cleared
    and the encounter data is reloaded. *)
Theorem X11_applyAiOrders_outcomes (env : Env) (w : World) (encounterId : string) :
  nonEmptyId (selectedEncounterId (ui w)) = Some encounterId ->
  picksOf (ui w) <> [] ->
  let u := ui w in
  let c := clock w in
  let rows := appliedRows encounterId u c in
  let w' := exec (applyAiOrders u) env w in
  (forall message,
      storeOutcome env orders_t c = Failed message ->
      ui w' = u /\ store w' = store w /\
      trace w' = trace w ++ [Insert orders_t rows;
                             ConsoleError "applyAiOrders insert failed:";
                             Alert ("套用 AI 醫囑失敗: " ++ message)]) /\
  (storeOutcome env orders_t c = Ok ->
   selectedAiOrderSuggestionIds (ui w') = [] /\
   orders_rows (store w') = orders_rows (store w) ++ stamp env c 0 rows /\
   exists audits rest,
     trace w' = trace w ++ Insert orders_t rows :: audits
                ++ encounterDataSelects encounterId ++ rest /\
     length audits = length (picksOf u) /\
     Forall (fun e => kind e = KInsert patient_events_t) audits).
Proof.
  intros Hsel Hpicks u c rows w'. subst u c rows w'.
  unfold exec, applyAiOrders, appliedRows. rewrite Hsel.
  destruct (picksOf (ui w)) as [|p ps] eqn:E; [contradiction|]. clear Hpicks.
  set (picks := p :: ps) in *.
  assert (Hnow : forall (X : nat -> Js unit), bind now X env w = X (clock w) env w)
    by reflexivity.
  rewrite !Hnow. clear Hnow. split.
  - intros message Hfail. rewrite !(bind_dbInsert_failed _ _ _ _ env w message Hfail).
    destruct w as [st u tr c]. cbn. rewrite <- !app_assoc. repeat split.
  - intros Hok. rewrite !(bind_dbInsert_ok _ _ _ _ env w Hok).
    set (w1 := withStore _ _).
    set (returned := map (project ["id"]) _).
    assert (Hlen : length returned = length picks).
    { subst returned. rewrite length_map, length_stamp, length_map. reflexivity. }
    destruct (forEach_logEvent encounterId "ai" "order_created_from_ai" (Some "orders")
                (Some "Order created from AI suggestion") None returned env w1)
      as (Hc & Hu & Hs & audits & Ht & Hla & Hall).
    cbv zeta in Hc, Hu, Hs, Ht.
    match type of Hc with
    | fst (forEach returned ?f env w1) = _ =>
        assert (Hfor : forall (K : unit -> Js unit),
                   bind (forEach returned f) K env w1
                   = K tt env (snd (forEach returned f env w1)));
        [ intros K; unfold bind; destruct (forEach returned f env w1) as [c2 w2];
          cbn [fst] in Hc; subst c2; reflexivity
        | set (w2 := snd (forEach returned f env w1)) in * ]
    end.
    rewrite !Hfor. clear Hfor.
    unfold setSelectedAiOrderSuggestionIds. rewrite !bind_setState.
    set (w3 := withUI _ w2).
    pose proof (fetchEncounterData_keeps_picks encounterId env w3) as Hkeep.
    destruct (fetchEncounterData_spec encounterId env w3) as (Hst & _ & (rest & Htr & _) & _).
    unfold exec in Hkeep.
    split; [|split].
    + rewrite Hkeep. subst w3. clearbody w2. destruct w2 as [st2 u2 tr2 c2]. destruct u2.
      reflexivity.
    + rewrite Hst. change (store w3) with (store w2).
      change (orders_rows (store w2)) with (rowsOf orders_t (store w2)).
      rewrite Hs by discriminate. subst w1. cbn [store withStore tick emit].
      rewrite rowsOf_withRows. reflexivity.
    + exists audits, rest. rewrite Htr. change (trace w3) with (trace w2). rewrite Ht.
      subst w1. cbn [trace withStore tick emit]. rewrite <- !app_assoc. cbn [app].
      split; [reflexivity|]. split; [congruence|exact Hall].
Qed.

Lemma X11_witness :
  nonEmptyId (selectedEncounterId (ui ticked)) = Some "u04-0" /\
  picksOf (ui ticked) <> [] /\
  storeOutcome (refusing orders_t) orders_t (clock ticked) = Failed "permission denied" /\
  ui (exec (applyAiOrders (ui ticked)) (refusing orders_t) ticked) = ui ticked /\
  storeOutcome calmEnv orders_t (clock ticked) = Ok /\
  selectedAiOrderSuggestionIds (ui (exec (applyAiOrders (ui ticked)) calmEnv ticked)) = [].
Proof.
  assert (Hpicks : picksOf (ui ticked) <> []) by (vm_compute; discriminate).
  destruct (X11_applyAiOrders_outcomes (refusing orders_t) ticked "u04-0" eq_refl Hpicks)
    as (Hko & _).
  destruct (X11_applyAiOrders_outcomes calmEnv ticked "u04-0" eq_refl Hpicks) as (_ & Hok).
  split; [reflexivity|]. split; [exact Hpicks|]. split; [reflexivity|].
  split; [exact (proj1 (Hko "permission denied" eq_refl))|].
  split; [reflexivity|exact (proj1 (Hok eq_refl))].
Defined.

(** ** Ticking a suggestion *)

Lemma toggle_step (env : Env) (w : World) (suggestionId : string) (checked : bool) :
  checkboxShown (ui w) suggestionId = true ->
  let w' := step env (ToggleAiOrder suggestionId checked) w in
  selectedAiOrderSuggestionIds (ui w')
  = (if checked
     then selectedAiOrderSuggestionIds (ui w) ++ [suggestionId]
     else filter (fun x => negb (String.eqb x suggestionId))
                 (selectedAiOrderSuggestionIds (ui w))) /\
  aiSuggestions (ui w') = aiSuggestions (ui w) /\
  selectedEncounterId (ui w') = selectedEncounterId (ui w) /\
  store w' = store w /\ trace w' = trace w.
Proof.
  intros Hshown w'.
  assert (H : let w1 := exec (handle (ToggleAiOrder suggestionId checked) (ui w)) env w in
              selectedAiOrderSuggestionIds (ui w1)
              = (if checked
                 then selectedAiOrderSuggestionIds (ui w) ++ [suggestionId]
                 else filter (fun x => negb (String.eqb x suggestionId))
                             (selectedAiOrderSuggestionIds (ui w))) /\
              aiSuggestions (ui w1) = aiSuggestions (ui w) /\
              selectedPatientId (ui w1) = selectedPatientId (ui w) /\
              selectedEncounterId (ui w1) = selectedEncounterId (ui w) /\
              store w1 = store w /\ trace w1 = trace w).
  { cbn [handle]. rewrite Hshown. destruct w as [st u tr c]. destruct u.
    destruct checked; cbn; repeat split. }
  cbv zeta in H. destruct H as (Hids & Hsug & Hp & He & Hst & Htr).
  subst w'.
  rewrite (step_keeps_selection env (ToggleAiOrder suggestionId checked) w eq_refl Hp He).
  repeat split; assumption.
Qed.

(** X12. Ticking a suggestion that is on screen selects it; unticking it
    removes every occurrence of it from the selection, so that it is no
    longer selected however often it had been ticked. Neither changes
    whether any other suggestion is selected, nor sends anything. *)
Theorem X12_ticking (env : Env) (w : World) (suggestionId : string) :
  checkboxShown (ui w) suggestionId = true ->
  let selected := fun x => selectedAiOrderSuggestionIds (ui x) in
  let on := step env (ToggleAiOrder suggestionId true) w in
  let off := step env (ToggleAiOrder suggestionId false) w in
  In suggestionId (selected on) /\
  ~ In suggestionId (selected off) /\
  ~ In suggestionId (selected (step env (ToggleAiOrder suggestionId false) on)) /\
  (forall other, other <> suggestionId ->
                 (In other (selected on) <-> In other (selected w)) /\
                 (In other (selected off) <-> In other (selected w))) /\
  trace on = trace w /\ trace off = trace w /\ store on = store w /\ store off = store w.
Proof.
  intros Hshown selected on off. subst selected on off. cbv beta.
  destruct (toggle_step env w suggestionId true Hshown) as (Hon & Hsug & Hsel & Hst & Htr).
  destruct (toggle_step env w suggestionId false Hshown) as (Hoff & _ & _ & Hst' & Htr').
  cbv zeta in *.
  assert (Hshown' : checkboxShown (ui (step env (ToggleAiOrder suggestionId true) w))
                      suggestionId = true).
  { unfold checkboxShown in *. rewrite Hsel, Hsug. exact Hshown. }
  destruct (toggle_step env _ suggestionId false Hshown') as (Hoff' & _).
  cbv zeta in Hoff'.
  assert (Hgone : forall ids, ~ In suggestionId
                                (filter (fun x => negb (String.eqb x suggestionId)) ids)).
  { intros ids H. apply filter_In in H. destruct H as [_ H].
    rewrite String.eqb_refl in H. discriminate H. }
  rewrite Hon, Hoff, Hoff'.
  split; [apply in_or_app; right; left; reflexivity|].
  split; [apply Hgone|]. split; [apply Hgone|].
  split; [|repeat split; assumption].
  intros other Hne. split.
  - rewrite in_app_iff. cbn. intuition congruence.
  - rewrite filter_In. split; [tauto|]. intros H. split; [exact H|].
    destruct (String.eqb_spec other suggestionId); [contradiction|reflexivity].
Qed.

Lemma X12_witness :
  checkboxShown (ui ticked) "u14-1" = true /\
  ~ In "u14-1" (selectedAiOrderSuggestionIds
                  (ui (step calmEnv (ToggleAiOrder "u14-1" false) ticked))).
Proof.
  split; [reflexivity|].
  exact (proj1 (proj2 (X12_ticking calmEnv ticked "u14-1" eq_refl))).
Defined.

(** ** What an AI round trip stores *)

Lemma suggestionRows_tagged (encounterId aiRunId : string) (result : AiFunctionResult) :
  Forall (suggestionOf encounterId aiRunId) (suggestionRows encounterId aiRunId result).
Proof.
  unfold suggestionRows. apply Forall_app. split; apply Forall_map_intro; intros x;
    repeat split; auto.
Qed.

(** X13. When the AI function replies and the store accepts the run, the
    suggestions and the ddx rows, [runAi] stores one run row for the
    encounter, then one suggestion per diagnosis and per recommendation
    of the reply, all tagged with the encounter and the identifier of
    that run (diagnoses without code, orders without probability), then
    one ddx entry of source "ai" per diagnosis. *)
Theorem X13_runAi_persists (env : Env) (w : World) (encounterId : string)
    (result : AiFunctionResult) :
  nonEmptyId (selectedEncounterId (ui w)) = Some encounterId ->
  isAiLoading (ui w) = false ->
  invokeOutcome env (clock w) = Replied result ->
  storeOutcome env ai_runs_t (1 + clock w) = Ok ->
  storeOutcome env ai_suggestions_t (3 + clock w) = Ok ->
  storeOutcome env ddx_entries_t (4 + clock w) = Ok ->
  let c := clock w in
  let runId := savedRunId env (1 + c) in
  let w' := exec (runAi (ui w)) env w in
  ai_runs_rows (store w')
  = ai_runs_rows (store w) ++ stamp env (1 + c) 0 [runRow encounterId (ui w) result] /\
  ai_suggestions_rows (store w')
  = ai_suggestions_rows (store w)
    ++ stamp env (3 + c) 0 (suggestionRows encounterId runId result) /\
  ddx_entries_rows (store w')
  = ddx_entries_rows (store w)
    ++ stamp env (4 + c) 0 (ddxRows encounterId runId result (4 + c)) /\
  length (suggestionRows encounterId runId result)
  = length (orEmpty (diagnoses result)) + length (orEmpty (recommendations result)) /\
  Forall (suggestionOf encounterId runId) (suggestionRows encounterId runId result) /\
  length (ddxRows encounterId runId result (4 + c)) = length (orEmpty (diagnoses result)) /\
  Forall (fun r => get "source" r = VStr "ai" /\ get "encounter_id" r = VStr encounterId)
         (ddxRows encounterId runId result (4 + c)).
Proof.
  intros Hsel Hload Hreply Hrun Hsug Hddx c runId w'. subst c runId w'.
  assert (Hstore :
    ai_runs_rows (store (exec (runAi (ui w)) env w))
    = ai_runs_rows (store w) ++ stamp env (1 + clock w) 0 [runRow encounterId (ui w) result] /\
    ai_suggestions_rows (store (exec (runAi (ui w)) env w))
    = ai_suggestions_rows (store w)
      ++ stamp env (3 + clock w) 0
           (suggestionRows encounterId (savedRunId env (1 + clock w)) result) /\
    ddx_entries_rows (store (exec (runAi (ui w)) env w))
    = ddx_entries_rows (store w)
      ++ stamp env (4 + clock w) 0
           (ddxRows encounterId (savedRunId env (1 + clock w)) result (4 + clock w))).
  { pose proof (fetchEncounterData_spec encounterId env) as Hdata.
    pose proof (fetchLatestAi_spec encounterId env) as Hlatest.
    unfold exec, runAi, runAiBody. rewrite Hsel, Hload.
    revert Hdata Hlatest.
    generalize (fetchEncounterData encounterId) (fetchLatestAi encounterId).
    intros reloadData reloadAi Hdata Hlatest.
    destruct w as [st u tr c]. destruct u, st. cbn in Hreply, Hrun, Hsug, Hddx |- *.
    unfold logEvent.
    unfold tryFinally, tryCatch, bind, invoke, dbInsert, storeCall,
      now, ret, consoleError, alert, reportError, setIsAiLoading,
      setSelectedAiOrderSuggestionIds, setState.
    cbn -[aiContext jsonOfResult diagRows orderRows ddxRows String.append].
    rewrite Hreply.
    cbn -[aiContext jsonOfResult diagRows orderRows ddxRows String.append].
    rewrite Hrun.
    cbn -[aiContext jsonOfResult diagRows orderRows ddxRows String.append].
    destruct (storeOutcome env patient_events_t (S (S c)));
      cbn -[aiContext jsonOfResult diagRows orderRows ddxRows String.append];
      rewrite Hsug;
      cbn -[aiContext jsonOfResult diagRows orderRows ddxRows String.append];
      rewrite Hddx;
      cbn -[aiContext jsonOfResult diagRows orderRows ddxRows String.append];
      match goal with
      | |- context [reloadData env ?w5] =>
          pose proof (Hdata w5) as H5; cbv zeta in H5;
          destruct (reloadData env w5) as [c6 w6]
      end;
      cbn [fst snd store clock trace emit tick withStore withUI] in H5;
      destruct H5 as (Hst6 & _);
      (destruct c6 as [[]|];
       [ match goal with
         | |- context [reloadAi env ?w] =>
             pose proof (Hlatest w) as H7; cbv zeta in H7;
             destruct (reloadAi env w) as [c7 w7]
         end;
         cbn [fst snd] in H7; destruct H7 as (Hst7 & _);
         destruct c7 as [[]|]
       | ]);
      cbn [fst snd store trace ui emit tick withStore withUI
           ai_runs_rows ai_suggestions_rows ddx_entries_rows];
      rewrite ?Hst7, Hst6;
      repeat split; reflexivity. }
  destruct Hstore as (H1 & H2 & H3).
  split; [exact H1|]. split; [exact H2|]. split; [exact H3|].
  split; [unfold suggestionRows, diagRows, orderRows; rewrite length_app, !length_map;
          reflexivity|].
  split; [apply suggestionRows_tagged|].
  split; [unfold ddxRows; apply length_map|].
  unfold ddxRows. apply Forall_map_intro. intros x. split; reflexivity.
Qed.

Lemma X13_witness :
  nonEmptyId (selectedEncounterId (ui ward)) = Some "u04-0" /\
  isAiLoading (ui ward) = false /\
  invokeOutcome calmEnv (clock ward) = Replied sampleReply /\
  storeOutcome calmEnv ai_runs_t (1 + clock ward) = Ok /\
  storeOutcome calmEnv ai_suggestions_t (3 + clock ward) = Ok /\
  storeOutcome calmEnv ddx_entries_t (4 + clock ward) = Ok /\
  length (ai_suggestions_rows (store (exec (runAi (ui ward)) calmEnv ward))) = 2.
Proof.
  destruct (X13_runAi_persists calmEnv ward "u04-0" sampleReply
              eq_refl eq_refl eq_refl eq_refl eq_refl eq_refl) as (_ & Hsug & _).
  repeat (split; [reflexivity|]). rewrite Hsug. reflexivity.
Defined.

(** ** Which tables an event writes *)

Lemma table_eqb_eq (a b : table) : table_eqb a b = true -> a = b.
Proof. destruct a, b; simpl; congruence. Qed.

Lemma untouchedOutside_withRows (ws : list table) (before st : Store) (t : table)
    (f : list Row -> list Row) :
  In t ws -> untouchedOutside ws before st -> untouchedOutside ws before (withRows t f st).
Proof.
  intros Hin H t' Hnot. rewrite rowsOf_withRows.
  destruct (table_eqb t t') eqn:E; [|apply H; exact Hnot].
  apply table_eqb_eq in E. subst t'. contradiction.
Qed.

Ltac writes_side :=
  solve [ intros; exact I
        | intros; cbv beta zeta; cbn [fst];
          first [ assumption
                | apply untouchedOutside_withRows; [simpl; tauto|assumption] ] ].

Lemma runEffects_untouched (ws : list table) (before : Store)
    (mounting : bool) (rendered current : UI) :
  preserves (fieldwise (untouchedOutside ws before) anyUI anyTrace)
            (runEffects mounting rendered current).
Proof. js_walk writes_side. Qed.

(** X14. Each user event writes only to its own tables: creating a
    patient to the patients, creating an encounter to the encounters,
    saving a note to the notes, adding an order or applying AI orders to
    the orders, adding a result to the results, adding a ddx entry to the
    ddx entries, an AI round trip to the runs, suggestions and ddx
    entries, each of the last six also to the patient events; every other
    table, and every table for any other event, keeps its rows. *)
Theorem X14_events_write_their_tables (env : Env) (a : Action) (w : World) (t : table) :
  ~ In t (writes a) ->
  rowsOf t (store (step env a w)) = rowsOf t (store w).
Proof.
  intros Ht.
  assert (H : fieldwise (untouchedOutside (writes a) (store w)) anyUI anyTrace (step env a w)).
  { unfold step.
    apply (runEffects_untouched (writes a) (store w) false).
    apply (runEffects_untouched (writes a) (store w) (isReload a)).
    assert (Hh : preserves (fieldwise (untouchedOutside (writes a) (store w)) anyUI anyTrace)
                           (handle a (ui w))).
    { clear Ht. destruct a; cbn [writes]; js_walk writes_side. }
    apply Hh. split; [intros t' _; reflexivity|split; exact I]. }
  destruct H as (HS & _). apply HS. exact Ht.
Qed.

Lemma X14_witness :
  ~ In orders_t (writes RunAi) /\
  rowsOf orders_t (store (step calmEnv RunAi ward)) = rowsOf orders_t (store ward).
Proof.
  assert (H : ~ In orders_t (writes RunAi)) by (simpl; intuition discriminate).
  split; [exact H|]. exact (X14_events_write_their_tables calmEnv RunAi ward orders_t H).
Defined.

(** ** Nothing is deleted *)

Lemma onlyGrew_refl (st : Store) : onlyGrew st st.
Proof.
  split; [intros t _|]; exists []; rewrite app_nil_r; reflexivity.
Qed.

Lemma onlyGrew_insert (before st : Store) (t : table) (more : list Row) :
  onlyGrew before st -> onlyGrew before (withRows t (fun old => old ++ more) st).
Proof.
  intros [Hother Hnotes]. split.
  - intros t' Hne. destruct (Hother t' Hne) as [added Ha]. rewrite rowsOf_withRows.
    destruct (table_eqb t t'); [|exists added; exact Ha].
    exists (added ++ more). rewrite Ha, app_assoc. reflexivity.
  - destruct Hnotes as [added Ha].
    change (notes_rows (withRows t (fun old => old ++ more) st))
      with (rowsOf notes_t (withRows t (fun old => old ++ more) st)).
    rewrite rowsOf_withRows. destruct (table_eqb t notes_t); [|exists added; exact Ha].
    exists (added ++ map (get "id") more).
    change (rowsOf notes_t st) with (notes_rows st). rewrite map_app, Ha, app_assoc.
    reflexivity.
Qed.

Lemma onlyGrew_update (before st : Store) (g : Row -> Row) :
  (forall r, get "id" (g r) = get "id" r) ->
  onlyGrew before st -> onlyGrew before (withRows notes_t (map g) st).
Proof.
  intros Hg [Hother Hnotes]. split.
  - intros t' Hne. rewrite rowsOf_withRows.
    destruct (table_eqb notes_t t') eqn:E; [|apply Hother; exact Hne].
    apply table_eqb_eq in E. congruence.
  - destruct Hnotes as [added Ha]. exists added. rewrite <- Ha.
    change (notes_rows (withRows notes_t (map g) st))
      with (rowsOf notes_t (withRows notes_t (map g) st)).
    rewrite rowsOf_withRows. cbn [table_eqb]. change (rowsOf notes_t st) with (notes_rows st).
    rewrite map_map. apply map_ext. exact Hg.
Qed.

Ltac grew_side :=
  solve [ intros; exact I
        | intros; cbv beta zeta; cbn [fst];
          first [ assumption
                | apply onlyGrew_insert; assumption
                | apply onlyGrew_update;
                  [ let r := fresh "r" in intros r; destruct (isStr _ _); reflexivity
                  | assumption ] ] ].

Lemma runEffects_onlyGrew (before : Store) (mounting : bool) (rendered current : UI) :
  preserves (fieldwise (onlyGrew before) anyUI anyTrace)
            (runEffects mounting rendered current).
Proof. js_walk grew_side. Qed.

Lemma handle_onlyGrew (before : Store) (a : Action) (u : UI) :
  preserves (fieldwise (onlyGrew before) anyUI anyTrace) (handle a u).
Proof. destruct a; js_walk grew_side. Qed.

(** X15. No user event ever deletes a row. After any sequence of events
    every table but the notes holds the rows it held, in the same order,
    followed by new ones; the notes may have been edited in place, but
    they are the same notes, identifier by identifier, followed by new
    ones. *)
Theorem X15_nothing_is_deleted (env : Env) (acts : list Action) (w : World) :
  onlyGrew (store w) (store (run env acts w)).
Proof.
  assert (H : forall before w0, fieldwise (onlyGrew before) anyUI anyTrace w0 ->
                                fieldwise (onlyGrew before) anyUI anyTrace (run env acts w0)).
  { intros before. induction acts as [|a rest IH]; intros w0 H0; cbn [run]; [exact H0|].
    apply IH. apply step_preserves; [intros; apply handle_onlyGrew| |exact H0].
    intros; apply runEffects_onlyGrew. }
  apply (H (store w) w). split; [apply onlyGrew_refl|split; exact I].
Qed.

(** ** Entries typed by the clinician *)

Lemma in_insertBy_intro (col : string) (ascending : bool) (r x : Row) (sorted : list Row) :
  x = r \/ In x sorted -> In x (insertBy col ascending r sorted).
Proof.
  induction sorted as [|r' rest IH]; simpl.
  - intros [->|[]]. left. reflexivity.
  - destruct (if ascending then _ else _); simpl; intros [->|[->|H]]; auto.
Qed.

Lemma in_orderBy_intro (col : string) (ascending : bool) (x : Row) (rows : list Row) :
  In x rows -> In x (orderBy col ascending rows).
Proof.
  unfold orderBy. rewrite (in_rev rows x). generalize (rev rows) as l.
  induction l as [|r l IH]; simpl; [tauto|].
  intros [->|H]; apply in_insertBy_intro; [left; reflexivity|right; apply IH; exact H].
Qed.

(** A select of all columns, without limit, misses no row that matches. *)
Lemma evalSelect_star_complete (t : table) (col v orderCol : string) (ascending : bool)
    (st : Store) (r : Row) :
  In r (rowsOf t st) -> isStr (get col r) v = true ->
  In r (evalSelect (selectStar t col v orderCol ascending) st).
Proof.
  intros Hin Hv. unfold evalSelect, selectStar.
  cbn [q_from q_columns q_eq q_order q_limit fst snd limitTo].
  apply in_map_iff. exists r. split; [reflexivity|].
  apply in_orderBy_intro. apply filter_In. split; [exact Hin|exact Hv].
Qed.

Lemma fetchEncounterData_shows (encounterId : string) (env : Env) (w : World) (t : table)
    (r : Row) :
  In t [orders_t; results_t; ddx_entries_t] ->
  reloadAnswered env (clock w) = true ->
  storeOutcome env t (turn t + clock w) = Ok ->
  In r (rowsOf t (store w)) ->
  isStr (get "encounter_id" r) encounterId = true ->
  In r (shown t (ui (exec (fetchEncounterData encounterId) env w))).
Proof.
  intros Ht Hre Hok Hin Hr.
  destruct (fetchEncounterData_lists encounterId env w) as (_ & H & _).
  destruct (H Hre) as (_ & _ & Ho & Hres & Hd). clear H. unfold exec.
  destruct Ht as [<-|[<-|[<-|[]]]]; cbn [shown turn] in *.
  - rewrite Ho. unfold answered. cbn [q_from selectStar]. rewrite Hok.
    apply evalSelect_star_complete; assumption.
  - rewrite Hres. unfold answered. cbn [q_from selectStar]. rewrite Hok.
    apply evalSelect_star_complete; assumption.
  - rewrite Hd. unfold answered. cbn [q_from selectStar]. rewrite Hok.
    apply evalSelect_star_complete; assumption.
Qed.

Lemma fetchEncounterData_keeps_inputs (encounterId : string) (env : Env) (w : World) :
  inputs (ui (exec (fetchEncounterData encounterId) env w)) = inputs (ui w).
Proof. apply (preserves_ui_value inputs). intros b. js_walk ui_side. Qed.

Lemma withUI_withUI (f g : UI -> UI) (w : World) :
  withUI g (withUI f w) = withUI (fun u => g (f u)) w.
Proof. reflexivity. Qed.

Lemma single_inserted (env : Env) (instant : nat) (row : Row) :
  single (Data (map (project ["*"]) (stamp env instant 0 [row])))
  = inl (("id", VStr (uuid env instant 0)) :: ("created_at", VTime instant) :: row).
Proof. reflexivity. Qed.

Lemma bind_logEvent {B} (encounter_id actor_type event_type : string)
    (entity_table : option string) (entity_id : value)
    (summary : option string) (payload : option value)
    (k : unit -> Js B) (env : Env) (w : World) :
  bind (logEvent encounter_id actor_type event_type entity_table entity_id summary payload)
       k env w
  = k tt env (exec (logEvent encounter_id actor_type event_type entity_table entity_id
                             summary payload) env w).
Proof.
  destruct (logEvent_spec encounter_id actor_type event_type entity_table entity_id
              summary payload env w) as (Hc & _).
  cbv zeta in Hc. unfold bind, exec.
  destruct (logEvent _ _ _ _ _ _ _ env w) as [c w']. cbn [fst snd] in *. subst c.
  reflexivity.
Qed.

(** What follows an accepted entry: the audit event, the emptied fields,
    the reload. *)
Lemma entry_accepted (t : table) (row : Row) (encounterId event_type : string)
    (entity_table summary : option string) (clear : UI -> UI) (env : Env) (w : World) :
  In t [orders_t; results_t; ddx_entries_t] ->
  storeOutcome env t (clock w) = Ok ->
  isStr (get "encounter_id" row) encounterId = true ->
  let c := clock w in
  let inserted := ("id", VStr (uuid env c 0)) :: ("created_at", VTime c) :: row in
  let w1 := withStore (fun _ => withRows t (fun old => old ++ stamp env c 0 [row]) (store w))
                      (tick (emit (Insert t [row]) w)) in
  let w' := exec (fetchEncounterData encounterId) env
                 (withUI clear
                    (exec (logEvent encounterId "human" event_type entity_table
                                    (get "id" inserted) summary None) env w1)) in
  rowsOf t (store w') = rowsOf t (store w) ++ stamp env c 0 [row] /\
  inputs (ui w') = inputs (clear (ui w)) /\
  (exists rest,
      trace w' = trace w ++ Insert t [row]
                 :: Insert patient_events_t
                      [eventRow encounterId "human" event_type entity_table
                                (VStr (uuid env c 0)) summary None (1 + c)]
                 :: encounterDataSelects encounterId ++ rest) /\
  (reloadAnswered env (2 + c) = true -> storeOutcome env t (turn t + (2 + c)) = Ok ->
   Forall (fun r => In r (shown t (ui w'))) (stamp env c 0 [row])).
Proof.
  intros Ht Hok Hrow c inserted w1 w'.
  destruct (logEvent_spec encounterId "human" event_type entity_table (get "id" inserted)
              summary None env w1) as (_ & Hu & Htr & Hc & Hs).
  cbv zeta in Hu, Htr, Hc, Hs.
  change (snd (logEvent encounterId "human" event_type entity_table (get "id" inserted)
                        summary None env w1))
    with (exec (logEvent encounterId "human" event_type entity_table (get "id" inserted)
                         summary None) env w1) in Hu, Htr, Hc, Hs.
  set (w2 := exec (logEvent _ _ _ _ _ _ _) env w1) in *.
  set (w3 := withUI clear w2) in *. subst w'.
  assert (Hne : t <> patient_events_t)
    by (destruct Ht as [<-|[<-|[<-|[]]]]; discriminate).
  assert (Hrows : rowsOf t (store w3) = rowsOf t (store w) ++ stamp env c 0 [row]).
  { change (store w3) with (store w2). rewrite (Hs t Hne). subst w1.
    cbn [store withStore tick emit]. rewrite rowsOf_withRows.
    destruct t; try discriminate; reflexivity. }
  assert (Hclock : clock w3 = 2 + c).
  { change (clock w3) with (clock w2). rewrite Hc. subst w1 c. destruct w; reflexivity. }
  destruct (fetchEncounterData_spec encounterId env w3) as (Hst & _ & (rest & Htr3 & _) & _).
  cbv zeta in Hst, Htr3.
  change (snd (fetchEncounterData encounterId env w3))
    with (exec (fetchEncounterData encounterId) env w3) in Hst, Htr3.
  split; [|split; [|split]].
  - rewrite Hst. exact Hrows.
  - rewrite fetchEncounterData_keeps_inputs. subst w3. change (ui (withUI clear w2)) with (clear (ui w2)).
    rewrite Hu. subst w1. destruct w; reflexivity.
  - exists rest. rewrite Htr3. change (trace w3) with (trace w2). rewrite Htr.
    subst w1 c inserted. destruct w as [st u tr c]. cbn [trace clock withStore tick emit get String.eqb Ascii.eqb Bool.eqb].
    rewrite <- !app_assoc. reflexivity.
  - intros Hre Hturn. rewrite <- Hclock in Hre, Hturn.
    constructor; [|constructor].
    apply fetchEncounterData_shows; try assumption.
    rewrite Hrows. apply in_or_app. right. left. reflexivity.
Qed.

(** X16. Adding an order, a result or a ddx entry to the selected
    encounter. What trims to nothing (white space only, of ASCII or not)
    is ignored. When the store refuses
    the row, the user is alerted with the store's message and nothing
    else happens: the fields keep what was typed, no audit event is sent.
    When it accepts the row, the row is stored, an audit event naming the
    new row is sent, the fields of that entry are emptied (the category
    of a result is kept) and the encounter is reloaded; the new row is
    then on screen, provided the reload's selects are answered. *)
Theorem X16_entries (env : Env) (w : World) (e : Entry) (encounterId : string) :
  nonEmptyId (selectedEncounterId (ui w)) = Some encounterId ->
  let u := ui w in
  let c := clock w in
  let t := entryTable e in
  let w' := exec (handle (entryAction e) u) env w in
  let typed := inputs u (entryField e) in
  Stripped typed (JsString.trim typed) /\
  (entryRow env e encounterId u c = None <-> JsString.trim typed = "") /\
  (entryRow env e encounterId u c = None -> handle (entryAction e) u env w = (Normal tt, w)) /\
  (forall row,
      entryRow env e encounterId u c = Some row ->
      (forall message,
          storeOutcome env t c = Failed message ->
          ui w' = u /\ store w' = store w /\
          trace w' = trace w ++ Insert t [row] :: entryFailure e message) /\
      (storeOutcome env t c = Ok ->
       rowsOf t (store w') = rowsOf t (store w) ++ stamp env c 0 [row] /\
       (forall i, inputs (ui w') i = if emptiedBy e i then "" else inputs u i) /\
       (exists rest,
           trace w' = trace w ++ Insert t [row]
                      :: Insert patient_events_t
                           [entryEvent env e encounterId u (VStr (uuid env c 0)) (1 + c)]
                      :: encounterDataSelects encounterId ++ rest) /\
       (reloadAnswered env (2 + c) = true -> storeOutcome env t (turn t + (2 + c)) = Ok ->
        Forall (fun r => In r (shown t (ui w'))) (stamp env c 0 [row])))).
Proof.
  intros Hsel u c t w' typed.
  assert (Hnow : forall (X : nat -> Js unit), bind now X env w = X (clock w) env w)
    by reflexivity.
  assert (Hnum : forall (X : (string -> number) -> Js unit),
             bind globalNumber X env w = X (toNumber env) env w) by reflexivity.
  assert (Hup : forall (X : (string -> string) -> Js unit),
             bind upperCaseTable X env w = X (upperCase env) env w) by reflexivity.
  split; [apply JsStringFacts.trim_stripped|].
  split.
  { subst typed. destruct e; cbn [entryRow entryField].
    - rewrite OrderTextFacts.parse_spec.
      destruct (JsString.trim (inputs u orderInput)); cbn; split; congruence.
    - destruct (JsString.trim (inputs u resultName)); cbn; split; congruence.
    - destruct (JsString.trim (inputs u ddxName)); cbn; split; congruence. }
  clear typed.
  split.
  - intros Hnone. subst u c.
    destruct e; cbn [entryAction handle entryRow] in *;
      unfold addOrder, addResult, addHumanDdx; rewrite Hsel; rewrite ?Hup.
    + destruct (OrderText.parse _ _); [discriminate|reflexivity].
    + destruct (JsString.truthy _); [discriminate|reflexivity].
    + destruct (JsString.truthy _); [discriminate|reflexivity].
  - intros row Hrow.
    assert (Hin : In t [orders_t; results_t; ddx_entries_t])
      by (subst t; destruct e; simpl; auto).
    assert (Henc : isStr (get "encounter_id" row) encounterId = true).
    { destruct e; cbn [entryRow] in Hrow.
      - destruct (OrderText.parse _ _); [|discriminate]. injection Hrow as <-.
        apply String.eqb_refl.
      - destruct (JsString.truthy _); [|discriminate]. injection Hrow as <-.
        apply String.eqb_refl.
      - destruct (JsString.truthy _); [|discriminate]. injection Hrow as <-.
        apply String.eqb_refl. }
    split.
    + intros message Hfail. subst w' u c t. unfold exec.
      destruct e; cbn [entryAction handle entryRow entryTable entryFailure] in *;
        unfold addOrder, addResult, addHumanDdx; rewrite Hsel; rewrite ?Hup;
        [ destruct (OrderText.parse _ _) as [parsed|]; [|discriminate]
        | destruct (JsString.truthy _); [|discriminate]
        | destruct (JsString.truthy _); [|discriminate] ];
        injection Hrow as <-; cbn [negb]; rewrite ?Hnum, !Hnow;
        cbv beta;
        unfold resultRow, humanDdxRow;
        rewrite (bind_dbInsert_failed _ _ _ _ env w message Hfail);
        destruct w as [st u0 tr c0]; cbn; rewrite <- !app_assoc; repeat split.
    + intros Hok.
      assert (Hgo : exists event_type entity_table summary clear,
                 w' = exec (fetchEncounterData encounterId) env
                        (withUI clear
                           (exec (logEvent encounterId "human" event_type entity_table
                                           (get "id" (("id", VStr (uuid env c 0))
                                                        :: ("created_at", VTime c) :: row))
                                           summary None)
                                 env
                                 (withStore (fun _ => withRows t
                                                        (fun old => old ++ stamp env c 0 [row])
                                                        (store w))
                                            (tick (emit (Insert t [row]) w))))) /\
                 (forall i, inputs (clear u) i = if emptiedBy e i then "" else inputs u i) /\
                 eventRow encounterId "human" event_type entity_table
                          (VStr (uuid env c 0)) summary None (1 + c)
                 = entryEvent env e encounterId u (VStr (uuid env c 0)) (1 + c)).
      { subst w' u c t.
        destruct e; cbn [entryAction handle entryRow entryTable entryEvent] in *;
          unfold addOrder, addResult, addHumanDdx; rewrite Hsel;
          unfold exec at 1; rewrite ?Hup;
          [ destruct (OrderText.parse _ _) as [parsed|]; [|discriminate]
          | destruct (JsString.truthy _); [|discriminate]
          | destruct (JsString.truthy _); [|discriminate] ];
          injection Hrow as <-; cbn [negb option_map];
          do 4 eexists; rewrite ?Hnum, !Hnow;
          cbv beta;
          unfold resultRow, humanDdxRow;
          rewrite (bind_dbInsert_ok _ _ _ _ env w Hok), single_inserted;
          cbv iota beta;
          rewrite bind_logEvent; unfold setInput; rewrite !bind_setState, ?withUI_withUI;
          (split; [reflexivity|]);
          (split; [|reflexivity]);
          intros i; destruct (ui w); destruct i; reflexivity. }
      destruct Hgo as (event_type & entity_table & summary & clear & -> & Hclear & <-).
      destruct (entry_accepted t row encounterId event_type entity_table summary clear env w
                  Hin Hok Henc) as (H1 & H2 & H3 & H4).
      cbv zeta in H1, H2, H3, H4.
      split; [exact H1|]. split; [|split; [exact H3|exact H4]].
      intros i. etransitivity; [exact (f_equal (fun f => f i) H2)|apply Hclear].
Qed.

(** ** The screen and the selected encounter *)

Lemma ofSelected_views (e : string) (u1 u2 : UI) :
  viewsOf u1 = viewsOf u2 -> ofSelected e u1 -> ofSelected e u2.
Proof.
  unfold viewsOf, ofSelected. intros H. injection H as Hn Ho Hr Hd Hl _ _.
  rewrite Hn, Ho, Hr, Hd, Hl. tauto.
Qed.

Lemma coherent_cleared (u : UI) : coherent u -> cleared u.
Proof. unfold coherent, cleared. intros H Hnone. rewrite Hnone in H. exact H. Qed.

Lemma answers_reload (env : Env) (c : nat) : answers env -> reloadAnswered env c = true.
Proof. intros H. unfold reloadAnswered. rewrite !H. reflexivity. Qed.

Lemma Forall_ofEncounter (e : string) (t : table) (st : Store) (rows : list Row) :
  Forall (fun r => isStr (get "encounter_id" r) e = true /\ In r (rowsOf t st)) rows ->
  Forall (ofEncounter e) rows.
Proof. apply Forall_impl. intros r [H _]. exact H. Qed.

Lemma fetchEncounterData_keeps_run (encounterId : string) (env : Env) (w : World) :
  latestAiRun (ui (exec (fetchEncounterData encounterId) env w)) = latestAiRun (ui w).
Proof. apply (preserves_ui_value latestAiRun). intros b. js_walk ui_side. Qed.

(** A reload of encounter [e] leaves its rows on screen, or the rows
    that were there. *)
Lemma fetchEncounterData_loads (e : string) (env : Env) (w : World) :
  let u' := ui (exec (fetchEncounterData e) env w) in
  latestAiRun u' = latestAiRun (ui w) /\
  ((Forall (ofEncounter e) (notes u') /\ Forall (ofEncounter e) (orders u') /\
    Forall (ofEncounter e) (results u') /\ Forall (ofEncounter e) (ddx u')) \/
   (reloadAnswered env (clock w) = false /\
    notes u' = notes (ui w) /\ orders u' = orders (ui w) /\
    results u' = results (ui w) /\ ddx u' = ddx (ui w))).
Proof.
  intros u'. subst u'. split; [apply fetchEncounterData_keeps_run|].
  destruct (fetchEncounterData_lists e env w) as (_ & Hyes & Hno). unfold exec.
  destruct (reloadAnswered env (clock w)).
  - left. destruct (Hyes eq_refl) as (_ & -> & -> & -> & ->).
    repeat split; eapply Forall_ofEncounter; apply answered_star.
  - right. split; [reflexivity|]. apply (Hno eq_refl).
Qed.

Lemma fetchEncounterData_ofSelected (e : string) :
  preserves (fieldwise anyStore (ofSelected e) anyTrace) (fetchEncounterData e).
Proof.
  intros env w (_ & (Hn & Ho & Hr & Hd & Hl) & _). split; [exact I|split; [|exact I]].
  destruct (fetchEncounterData_loads e env w) as (Hrun & [(Hn' & Ho' & Hr' & Hd')|(_ & En & Eo & Er & Ed)]).
  - repeat split; try assumption. rewrite Hrun. exact Hl.
  - unfold ofSelected. rewrite En, Eo, Er, Ed, Hrun. repeat split; assumption.
Qed.

(** [fetchLatestAi] leaves the four lists alone; the run it shows is one
    of encounter [e], unless its first select was rejected and the run is
    the one that was shown. *)
Lemma fetchLatestAi_loads (e : string) (env : Env) (w : World) :
  let u' := ui (exec (fetchLatestAi e) env w) in
  (notes u', orders u', results u', ddx u')
  = (notes (ui w), orders (ui w), results (ui w), ddx (ui w)) /\
  ((forall run, latestAiRun u' = Some run -> ofEncounter e run) \/
   (rejected (storeOutcome env ai_runs_t (clock w)) = true /\
    latestAiRun u' = latestAiRun (ui w))).
Proof.
  intros u'. subst u'. split.
  - apply (preserves_ui_value (fun x => (notes x, orders x, results x, ddx x))).
    intros b. js_walk ui_side.
  - destruct w as [st u tr c]. destruct u.
    pose proof (evalSelect_eq (latestRunQuery e) "encounter_id" e st eq_refl eq_refl) as Hruns.
    unfold exec, fetchLatestAi, bind, dbSelect, storeCall, setLatestAiRun, setAiSuggestions,
      setState, consoleError, ret.
    fold (latestRunQuery e).
    cbn -[evalSelect latestRunQuery] in *.
    change (q_from (latestRunQuery e)) with ai_runs_t.
    destruct (storeOutcome env ai_runs_t c); cbn -[evalSelect latestRunQuery].
    + left. destruct (evalSelect (latestRunQuery e) st) as [|run others];
        cbn -[evalSelect latestRunQuery]; [discriminate|].
      inversion Hruns as [|? ? Hrun1 _]; subst.
      destruct (storeOutcome env ai_suggestions_t (S c)); cbn -[evalSelect latestRunQuery];
        intros run' H; injection H as <-; exact Hrun1.
    + left. discriminate.
    + right. split; reflexivity.
Qed.

Lemma fetchLatestAi_ofSelected (e : string) :
  preserves (fieldwise anyStore (ofSelected e) anyTrace) (fetchLatestAi e).
Proof.
  intros env w (_ & (Hn & Ho & Hr & Hd & Hl) & _). split; [exact I|split; [|exact I]].
  destruct (fetchLatestAi_loads e env w) as (Hlists & Hrun).
  injection Hlists as En Eo Er Ed. unfold ofSelected. rewrite En, Eo, Er, Ed.
  repeat split; try assumption.
  destruct Hrun as [H|[_ H]]; [exact H|rewrite H; exact Hl].
Qed.

(** [js_walk], with the two fetches taken as a whole. *)
Ltac selected_walk :=
  repeat (cbv beta zeta;
    lazymatch goal with
    | |- preserves _ (fetchEncounterData _) => apply fetchEncounterData_ofSelected
    | |- preserves _ (fetchLatestAi _) => apply fetchLatestAi_ofSelected
    | |- preserves _ (ret _) => apply preserves_ret
    | |- preserves _ throw => apply preserves_throw
    | |- preserves _ now => apply preserves_now
    | |- preserves _ globalNumber => apply preserves_globalNumber
    | |- preserves _ upperCaseTable => apply preserves_upperCaseTable
    | |- preserves _ (newDate _) => apply preserves_newDate
    | |- preserves _ (bind _ _) => apply preserves_bind; [|intros ?]
    | |- preserves _ (tryCatch _ _) => apply preserves_tryCatch
    | |- preserves _ (tryFinally _ _) => apply preserves_tryFinally
    | |- preserves _ (spawn _) => apply preserves_spawn
    | |- preserves _ (both _ _) => apply preserves_both
    | |- preserves _ (forEach _ _) => apply preserves_forEach; intros ?
    | |- preserves _ (setState _) => apply fieldwise_setState; ui_side
    | |- preserves _ (alert _) => apply fieldwise_alert; ui_side
    | |- preserves _ (consoleError _) => apply fieldwise_consoleError; ui_side
    | |- preserves _ (invoke _ _) => apply fieldwise_invoke; ui_side
    | |- preserves _ (storeCall _ _ _) => apply fieldwise_storeCall; ui_side
    | |- preserves _ (match ?x with _ => _ end) => destruct x eqn:?
    | |- preserves _ _ => progress autounfold with js_ops
    end).

(** The handlers guarded by the selected encounter reload that encounter
    only. *)
Lemma handle_ofSelected (a : Action) (u : UI) (e : string) :
  keepsViews a = false -> isReload a = false ->
  nonEmptyId (selectedEncounterId u) = Some e ->
  preserves (fieldwise anyStore (ofSelected e) anyTrace) (handle a u).
Proof.
  intros Ha Hr Hsel.
  destruct a; try discriminate Ha; try discriminate Hr; cbn [handle];
    unfold checkboxShown, saveNote, addOrder, addResult, addHumanDdx, runAi, runAiBody,
      applyAiOrders;
    rewrite ?Hsel; selected_walk.
Qed.

Lemma handle_keepsPatient (a : Action) (u : UI) (env : Env) (w : World) :
  keepsViews a = false -> isReload a = false ->
  selectedPatientId (ui (exec (handle a u) env w)) = selectedPatientId (ui w).
Proof.
  intros Ha Hr. apply (preserves_ui_value selectedPatientId). intros b.
  destruct a; try discriminate Ha; try discriminate Hr; js_walk ui_side.
Qed.

Lemma reload_selection (env : Env) (w : World) :
  selectedEncounterId (ui (step env Reload w)) = None.
Proof.
  assert (H : fieldwise anyStore (fun u => selectedEncounterId u = None) anyTrace
                        (step env Reload w)).
  { unfold step.
    assert (He : forall mounting rendered current,
               preserves (fieldwise anyStore (fun u => selectedEncounterId u = None) anyTrace)
                         (runEffects mounting rendered current)).
    { intros. js_walk ui_side. }
    apply (He false), (He (isReload Reload)).
    cbn [handle]. unfold bind, setState. cbn [fst snd].
    assert (Hf : preserves (fieldwise anyStore (fun u => selectedEncounterId u = None) anyTrace)
                           (spawn fetchPatients)) by js_walk ui_side.
    apply Hf. repeat split. }
  destruct H as (_ & H & _). exact H.
Qed.

(** The effect of the selected encounter, run on a new selection, loads
    it when the store answers. *)
Lemma encounterEffect_loads_selected (env : Env) (u : UI) (w : World) (e : string) :
  answers env ->
  nonEmptyId (selectedEncounterId u) = Some e ->
  ofSelected e (ui (exec (encounterEffect u) env w)).
Proof.
  intros Hans Hsel. unfold encounterEffect. rewrite Hsel.
  assert (Hw : exec (spawn (fetchEncounterData e) ;; spawn (fetchLatestAi e)) env w
               = exec (fetchLatestAi e) env (exec (fetchEncounterData e) env w))
    by reflexivity.
  rewrite Hw. clear Hw. set (w1 := exec (fetchEncounterData e) env w).
  destruct (fetchEncounterData_loads e env w) as (_ & [H|(Hno & _)]);
    [|rewrite (answers_reload env (clock w) Hans) in Hno; discriminate].
  fold w1 in H. destruct H as (Hn & Ho & Hr & Hd).
  destruct (fetchLatestAi_loads e env w1) as (Hlists & [Hrun|(Hrej & _)]);
    [|rewrite Hans in Hrej; discriminate].
  injection Hlists as En Eo Er Ed. unfold ofSelected. rewrite En, Eo, Er, Ed.
  repeat split; assumption.
Qed.

Lemma step_coherent (env : Env) (a : Action) (w : World) :
  answers env -> coherent (ui w) -> coherent (ui (step env a w)).
Proof.
  intros Hans Hw.
  pose proof (step_cleared env a w (coherent_cleared _ Hw)) as Hc.
  unfold coherent.
  destruct (nonEmptyId (selectedEncounterId (ui (step env a w)))) as [e'|] eqn:Hsel';
    [|apply Hc; exact Hsel'].
  destruct (isReload a) eqn:Hr.
  { destruct a; try discriminate Hr. rewrite reload_selection in Hsel'. discriminate. }
  destruct (keepsViews a) eqn:Hk.
  - rewrite step_as_renders in *. cbv zeta in *.
    set (w1 := exec (handle a (ui w)) env w) in *.
    pose proof (handle_keepsViews a (ui w) env w Hk) as Hv1. fold w1 in Hv1.
    rewrite Hr in *.
    set (w2 := render false (ui w) env w1) in *.
    pose proof (render_keeps_patient false (ui w) env w1) as Hp2. fold w2 in Hp2.
    assert (H2 : (selectedEncounterId (ui w2) = selectedEncounterId (ui w1) /\
                  ((selectedEncounterId (ui w1) = selectedEncounterId (ui w) /\
                    viewsOf (ui w2) = viewsOf (ui w)) \/
                   forall e, nonEmptyId (selectedEncounterId (ui w1)) = Some e ->
                             ofSelected e (ui w2))) \/
                 (selectedEncounterId (ui w2) = None /\ selectedEncounterId (ui w1) <> None)).
    { subst w2. rewrite render_unfold. cbv zeta. cbn [orb].
      set (wa := if negb (sameId (selectedPatientId (ui w)) (selectedPatientId (ui w1)))
                 then exec (patientEffect (ui w1)) env w1 else w1).
      assert (Ha : viewsOf (ui wa) = viewsOf (ui w1) /\
                   (selectedEncounterId (ui wa) = selectedEncounterId (ui w1) \/
                    selectedEncounterId (ui wa) = None)).
      { subst wa. destruct (negb (sameId (selectedPatientId (ui w)) _)).
        - destruct (patientEffect_ui (ui w1) env w1) as (HV & _ & HE). split; assumption.
        - split; [reflexivity|left; reflexivity]. }
      clearbody wa. destruct Ha as [HVa HEa].
      destruct (sameId (selectedEncounterId (ui w)) (selectedEncounterId (ui w1))) eqn:Hsame;
        cbn [negb].
      - apply sameId_eq in Hsame.
        destruct HEa as [HEa|HEa].
        + left. split; [exact HEa|]. left. split; [symmetry; exact Hsame|].
          rewrite HVa. exact Hv1.
        + destruct (selectedEncounterId (ui w1)) as [x|] eqn:E1.
          * right. split; [exact HEa|discriminate].
          * left. split; [exact HEa|]. left. split; [symmetry; exact Hsame|].
            rewrite HVa. exact Hv1.
      - destruct (encounterEffect_ui (ui w1) env wa) as (_ & HE & _). cbv zeta in HE.
        destruct HEa as [HEa|HEa].
        + left. split; [rewrite HE; exact HEa|]. right. intros e He.
          apply encounterEffect_loads_selected; assumption.
        + destruct (selectedEncounterId (ui w1)) as [x|] eqn:E1.
          * right. split; [rewrite HE; exact HEa|discriminate].
          * left. split; [rewrite HE; exact HEa|]. right. intros e He. discriminate He. }
    assert (H3 : selectedEncounterId (ui w2) = selectedEncounterId (ui w1) ->
                 render false (ui w1) env w2 = w2).
    { intros He. unfold render, exec.
      rewrite (runEffects_idle (ui w1) (ui w2) env w2 Hp2 He). reflexivity. }
    destruct H2 as [(He2 & Hcase)|(Hnone & Hsome)].
    + rewrite (H3 He2) in *. rewrite He2 in Hsel'.
      destruct Hcase as [(He1 & Hv2)|Hload].
      * apply (ofSelected_views e' (ui w)); [symmetry; exact Hv2|].
        unfold coherent in Hw. rewrite <- He1, Hsel' in Hw. exact Hw.
      * apply Hload. exact Hsel'.
    + exfalso.
      assert (Hlast : selectedEncounterId (ui (render false (ui w1) env w2)) = None).
      { rewrite render_unfold. cbv zeta. cbn [orb]. rewrite <- Hp2, sameId_refl. cbn [negb].
        destruct (negb (sameId _ _)); [|exact Hnone].
        destruct (encounterEffect_ui (ui w2) env w2) as (_ & HE & _). cbv zeta in HE.
        rewrite HE. exact Hnone. }
      rewrite Hlast in Hsel'. discriminate.
  - pose proof (handle_keepsEncounter a (ui w) env w Hk Hr) as He.
    pose proof (handle_keepsPatient a (ui w) env w Hk Hr) as Hp.
    rewrite (step_keeps_selection env a w Hr Hp He) in *.
    rewrite He in Hsel'.
    unfold coherent in Hw. rewrite Hsel' in Hw.
    apply (handle_ofSelected a (ui w) e' Hk Hr Hsel' env w).
    split; [exact I|split; [exact Hw|exact I]].
Qed.

(** A click on a patient, whatever is on screen: the encounter effect
    runs, and empties the views, when an encounter was selected. *)
Lemma clickPatient_screen (env : Env) (patientId : string) (w : World) :
  let w' := step env (ClickPatient patientId) w in
  selectedPatientId (ui w') = Some patientId /\
  selectedEncounterId (ui w') = None /\
  (selectedEncounterId (ui w) <> None -> viewsOf (ui w') = noViews) /\
  (selectedEncounterId (ui w) = None -> viewsOf (ui w') = viewsOf (ui w)).
Proof.
  intros w'.
  destruct (clickPatient_selection env patientId w) as [HP HE]. fold w' in HP, HE.
  split; [exact HP|]. split; [exact HE|].
  subst w'. rewrite step_as_renders in *. cbv zeta in *. cbn [isReload] in *.
  set (w1 := exec (handle (ClickPatient patientId) (ui w)) env w) in *.
  assert (H1 : selectedEncounterId (ui w1) = None /\ viewsOf (ui w1) = viewsOf (ui w)).
  { subst w1. destruct w as [st u tr c]. destruct u. split; reflexivity. }
  destruct H1 as [He1 Hv1].
  set (w2 := render false (ui w) env w1) in *.
  assert (H2 : selectedEncounterId (ui w2) = None /\
               (selectedEncounterId (ui w) <> None -> viewsOf (ui w2) = noViews) /\
               (selectedEncounterId (ui w) = None -> viewsOf (ui w2) = viewsOf (ui w))).
  { subst w2. rewrite render_unfold. cbv zeta. cbn [orb].
    set (wa := if negb (sameId (selectedPatientId (ui w)) (selectedPatientId (ui w1)))
               then exec (patientEffect (ui w1)) env w1 else w1).
    assert (Ha : viewsOf (ui wa) = viewsOf (ui w1) /\ selectedEncounterId (ui wa) = None).
    { subst wa. destruct (negb (sameId (selectedPatientId (ui w)) _)).
      - destruct (patientEffect_ui (ui w1) env w1) as (HV & _ & [H|H]).
        + split; [exact HV|]. rewrite H. exact He1.
        + split; [exact HV|exact H].
      - split; [reflexivity|exact He1]. }
    clearbody wa. destruct Ha as [HVa HEa].
    rewrite He1.
    destruct (selectedEncounterId (ui w)) as [x|]; cbn [sameId negb].
    - destruct (encounterEffect_ui (ui w1) env wa) as (_ & HE' & HV'). cbv zeta in HE', HV'.
      split; [rewrite HE'; exact HEa|]. split.
      + intros _. apply HV'. rewrite He1. reflexivity.
      + intros H. discriminate H.
    - split; [exact HEa|]. split.
      + intros H. contradiction H. reflexivity.
      + intros _. rewrite HVa. exact Hv1. }
  destruct H2 as (He2 & Hsome & Hnone).
  assert (H3 : render false (ui w1) env w2 = w2).
  { unfold render, exec. rewrite (runEffects_idle (ui w1) (ui w2) env w2); [reflexivity| |].
    - subst w2. apply render_keeps_patient.
    - rewrite He2, He1. reflexivity. }
  rewrite H3. split; assumption.
Qed.

(** X20. A user event taken alone, every request it starts being
    answered (be it with an error) before anything else happens, keeps the
    screen on the selected encounter: when the notes, orders, results, ddx
    entries and AI run on screen belonged to the encounter selected before
    the event (none being shown when none was selected), those on screen
    after it belong to the encounter selected then. Whatever is on screen,
    a click on a patient leaves no encounter selected, and empties the
    views when one was selected; with none selected it leaves the views as
    they are. A rejected request breaks the first: when the reload that
    follows the creation of a second encounter is rejected, the rows of
    the first one stay on screen under the new selection. *)
Theorem X20_screen_shows_selection :
  (forall env a w, answers env -> coherent (ui w) -> coherent (ui (step env a w))) /\
  (forall env patientId w,
      let w' := step env (ClickPatient patientId) w in
      selectedPatientId (ui w') = Some patientId /\
      selectedEncounterId (ui w') = None /\
      (selectedEncounterId (ui w) <> None -> viewsOf (ui w') = noViews) /\
      (selectedEncounterId (ui w) = None -> viewsOf (ui w') = viewsOf (ui w))) /\
  (let w := run calmEnv [TypeInto orderInput "CBC"; AddOrder] ward in
   let w' := step (droppingFrom 19) CreateEncounter w in
   coherent (ui w) /\
   selectedEncounterId (ui w) = Some "u04-0" /\
   selectedEncounterId (ui w') = Some "u17-0" /\
   map (get "encounter_id") (orders (ui w')) = [VStr "u04-0"] /\
   ~ coherent (ui w')).
Proof.
  split; [exact step_coherent|]. split; [exact clickPatient_screen|].
  cbv zeta.
  set (w := run calmEnv [TypeInto orderInput "CBC"; AddOrder] ward).
  set (w' := step (droppingFrom 19) CreateEncounter w).
  assert (Horders : map (get "encounter_id") (orders (ui w')) = [VStr "u04-0"])
    by (vm_compute; reflexivity).
  split; [|split; [vm_compute; reflexivity|split; [vm_compute; reflexivity|split; [exact Horders|]]]].
  - unfold coherent.
    assert (Hsel : nonEmptyId (selectedEncounterId (ui w)) = Some "u04-0")
      by (vm_compute; reflexivity).
    rewrite Hsel. unfold ofSelected, ofEncounter.
    repeat split; try (apply Forall_forall; apply forallb_forall; vm_compute; reflexivity).
    intros run Hrun. vm_compute in Hrun. discriminate Hrun.
  - unfold coherent.
    assert (Hsel : nonEmptyId (selectedEncounterId (ui w')) = Some "u17-0")
      by (vm_compute; reflexivity).
    rewrite Hsel. intros (_ & Ho & _).
    assert (Hb : forallb (fun r => isStr (get "encounter_id" r) "u17-0") (orders (ui w')) = true).
    { apply forallb_forall. rewrite Forall_forall in Ho. exact Ho. }
    vm_compute in Hb. discriminate Hb.
Qed.

Lemma X20_witness :
  let w := run calmEnv [TypeInto orderInput "CBC"; AddOrder] ward in
  answers calmEnv /\ coherent (ui w) /\
  coherent (ui (step calmEnv CreateEncounter w)) /\
  selectedEncounterId (ui w) <> None /\
  viewsOf (ui (step calmEnv (ClickPatient "u01-0") w)) = noViews.
Proof.
  assert (Hans : answers calmEnv) by (intros t instant; reflexivity).
  destruct X20_screen_shows_selection as (Hstep & Hclick & Hw & _).
  assert (Hsel : selectedEncounterId
                   (ui (run calmEnv [TypeInto orderInput "CBC"; AddOrder] ward)) <> None)
    by (vm_compute; discriminate).
  split; [exact Hans|]. split; [exact Hw|].
  split; [exact (Hstep calmEnv CreateEncounter _ Hans Hw)|].
  split; [exact Hsel|].
  exact (proj1 (proj2 (proj2 (Hclick calmEnv "u01-0" _))) Hsel).
Defined.

(** ** The requests and the schema *)

Lemma project_star (r : Row) : project ["*"] r = r.
Proof. reflexivity. Qed.

Lemma get_head (k : string) (v : value) (r : Row) : get k ((k, v) :: r) = v.
Proof. simpl. rewrite String.eqb_refl. reflexivity. Qed.

(** The identifier the store returns with an inserted row is a string. *)
Lemma stamp_returns_id (env : Env) (instant index : nat) (rows : list Row) (cols : list string)
    (a : Row) :
  existsb (String.eqb "id") cols = true ->
  In a (map (project cols) (stamp env instant index rows)) ->
  exists s, get "id" a = VStr s.
Proof.
  intros Hcols. revert index. induction rows as [|r rest IH]; intros index; simpl; [tauto|].
  intros [<-|H]; [|exact (IH _ H)].
  rewrite get_project by exact Hcols. eexists. reflexivity.
Qed.

(** What follows an insert may rely on what the store returns: an error,
    or the rows it stamped. *)
Lemma conforms_bind_dbInsert {B} (before : list Effect) (t : table) (rows : list Row)
    (returning : option (list string)) (k : Response -> Js B) :
  Forall (fun r => conformsRow t r = true) rows ->
  (forall message,
      preserves (fieldwise anyStore anyUI (emittedSince before conforms)) (k (Error message))) ->
  (forall env instant,
      preserves (fieldwise anyStore anyUI (emittedSince before conforms))
                (k (Data match returning with
                         | Some cols => map (project cols) (stamp env instant 0 rows)
                         | None => []
                         end))) ->
  preserves (fieldwise anyStore anyUI (emittedSince before conforms))
            (bind (dbInsert t rows returning) k).
Proof.
  intros Hrows Herr Hok env w (HS & HU & HT). unfold exec, bind, dbInsert, storeCall.
  assert (H1 : forall w1, trace w1 = trace w ++ [Insert t rows] ->
                          fieldwise anyStore anyUI (emittedSince before conforms) w1).
  { intros w1 E. split; [exact I|split; [exact I|]]. rewrite E.
    apply emittedSince_snoc; [exact Hrows|exact HT]. }
  destruct (storeOutcome env t (clock w)); cbn [fst snd].
  - apply (Hok env (clock w)). apply H1. reflexivity.
  - apply Herr. apply H1. reflexivity.
  - apply H1. reflexivity.
Qed.

Lemma preserves_forEach_in {A} (Inv : World -> Prop) (l : list A) (body : A -> Js unit) :
  (forall x, In x l -> preserves Inv (body x)) -> preserves Inv (forEach l body).
Proof.
  induction l as [|x rest IH]; intros Hb; simpl.
  - apply preserves_ret.
  - apply preserves_bind; [apply Hb; left; reflexivity|intros _].
    apply IH. intros y Hy. apply Hb. right. exact Hy.
Qed.

(** The value a fitting row holds under a key it mentions is one the
    column takes. *)
Lemma fits_get (t : table) (row : Row) (k : string) :
  fits t row = true -> mentions k row = true ->
  exists c, columnOf t k = Some c /\ accepts c (get k row) = true.
Proof.
  unfold fits, mentions. induction row as [|[k' v] rest IH]; simpl; [discriminate|].
  intros Hfit Hm. apply andb_prop in Hfit. destruct Hfit as [Hhead Hrest].
  destruct (String.eqb_spec k' k) as [->|Hne].
  - destruct (columnOf t k) as [c|]; [|discriminate]. exists c. split; [reflexivity|exact Hhead].
  - simpl in Hm. apply IH; assumption.
Qed.

Lemma get_unmentioned (row : Row) (k : string) : mentions k row = false -> get k row = VNull.
Proof.
  unfold mentions. induction row as [|[k' v] rest IH]; simpl; [reflexivity|].
  destruct (String.eqb k' k); simpl; [discriminate|exact IH].
Qed.

(** An order made of a suggestion that fits its table fits the orders. *)
Lemma aiOrderRow_conforms (encounterId : string) (occurred_at : nat) (p : Row) :
  conformsRow ai_suggestions_t p = true ->
  conformsRow orders_t (aiOrderRow encounterId occurred_at p) = true.
Proof.
  unfold conformsRow. intros H. apply andb_prop in H. destruct H as [Hfit Hreq].
  assert (Hname : exists s, get "name" p = VStr s).
  { assert (Hm : mentions "name" p = true).
    { cbn [schema forallb] in Hreq.
      repeat (apply andb_prop in Hreq; destruct Hreq as [? Hreq]).
      match goal with
      | H : negb (c_notNull (notNull (column "name" text_ty))) || _ || _ = true |- _ =>
          exact H
      end. }
    destruct (fits_get ai_suggestions_t p "name" Hfit Hm) as (c & Hc & Ha).
    vm_compute in Hc. injection Hc as <-.
    destruct (get "name" p); try discriminate Ha. eexists; reflexivity. }
  assert (Hcode : get "code" p = VNull \/ exists s, get "code" p = VStr s).
  { destruct (mentions "code" p) eqn:Hm; [|left; apply get_unmentioned; exact Hm].
    destruct (fits_get ai_suggestions_t p "code" Hfit Hm) as (c & Hc & Ha).
    vm_compute in Hc. injection Hc as <-.
    destruct (get "code" p); try discriminate Ha; [left; reflexivity|right; eexists; reflexivity]. }
  unfold aiOrderRow. destruct Hname as [n ->].
  destruct Hcode as [->|[c ->]]; reflexivity.
Qed.

Ltac conforming_rows :=
  unfold orderRow, diagRows, orderRows, ddxRows;
  repeat first
    [ apply Forall_nil
    | apply Forall_cons
    | apply Forall_app; split
    | apply Forall_map_intro; intros ? ];
  cbn [optStr optNum];
  repeat match goal with
         | |- context [optStr ?o] => destruct o; cbn [optStr]
         | |- context [optNum ?o] => destruct o; cbn [optNum]
         | |- context [humanProb ?N ?t] =>
             destruct (humanProb_nullOrFinite N t) as [->|[? ->]]
         end;
  vm_compute; reflexivity.

Ltac conforms_side :=
  solve [ intros; exact I
        | intros; apply emittedSince_snoc; [ exact I | assumption ]
        | intros; apply emittedSince_snoc; [ cbn [conforms]; conforming_rows | assumption ] ].

(** The handlers and what they are made of, down to the inserts. *)
Create HintDb js_above_insert.
#[local] Hint Unfold
  setPatients setSelectedPatientId setEncounters setSelectedEncounterId
  setNotes setOrders setResults setDdx setIsBusy setIsPatientModalOpen
  setEditingNote setIsAiLoading setLatestAiRun setAiSuggestions
  setSelectedAiOrderSuggestionIds setInput
  dbSelect dbUpdate toISOString reportError logEvent
  fetchPatients fetchEncounters fetchEncounterData fetchLatestAi
  patientEffect encounterEffect createPatient createEncounter saveNote
  addOrder addResult addHumanDdx runAiBody runAi applyAiOrders
  handle runEffects : js_above_insert.

(** [js_walk], with the inserts taken together with what they return. *)
Ltac conforms_walk :=
  repeat (cbv beta zeta;
    lazymatch goal with
    | |- preserves _ (bind (dbInsert _ _ _) _) =>
        apply conforms_bind_dbInsert;
        [ conforming_rows
        | intros ?; cbn [single]
        | intros ? ?; cbn [single map stamp]; rewrite ?project_star, ?get_head ]
    | |- preserves _ (ret _) => apply preserves_ret
    | |- preserves _ throw => apply preserves_throw
    | |- preserves _ now => apply preserves_now
    | |- preserves _ globalNumber => apply preserves_globalNumber
    | |- preserves _ upperCaseTable => apply preserves_upperCaseTable
    | |- preserves _ (newDate _) => apply preserves_newDate
    | |- preserves _ (bind _ _) => apply preserves_bind; [|intros ?]
    | |- preserves _ (tryCatch _ _) => apply preserves_tryCatch
    | |- preserves _ (tryFinally _ _) => apply preserves_tryFinally
    | |- preserves _ (spawn _) => apply preserves_spawn
    | |- preserves _ (both _ _) => apply preserves_both
    | |- preserves _ (setState _) => apply fieldwise_setState; conforms_side
    | |- preserves _ (alert _) => apply fieldwise_alert; conforms_side
    | |- preserves _ (consoleError _) => apply fieldwise_consoleError; conforms_side
    | |- preserves _ (invoke _ _) => apply fieldwise_invoke; conforms_side
    | |- preserves _ (storeCall _ _ _) => apply fieldwise_storeCall; conforms_side
    | |- preserves _ (match ?x with _ => _ end) => destruct x eqn:?
    | |- preserves _ _ => progress autounfold with js_above_insert
    end).

Lemma logEvent_conforms (before : list Effect) (encounter_id actor_type event_type : string)
    (entity_table : option string) (entity_id : string) (summary : option string) :
  In actor_type ["human"; "ai"; "system"] ->
  preserves (fieldwise anyStore anyUI (emittedSince before conforms))
            (logEvent encounter_id actor_type event_type entity_table (VStr entity_id)
                      summary None).
Proof.
  intros Hactor.
  destruct Hactor as [<-|[<-|[<-|[]]]]; conforms_walk.
Qed.

Lemma handle_conforms (before : list Effect) (a : Action) (u : UI) :
  Forall (fun s => conformsRow ai_suggestions_t s = true) (aiSuggestions u) ->
  preserves (fieldwise anyStore anyUI (emittedSince before conforms)) (handle a u).
Proof.
  intros Hshown. destruct a; try solve [conforms_walk].
  cbn [handle]. unfold applyAiOrders.
  destruct (nonEmptyId (selectedEncounterId u)) as [encounterId|]; [|apply preserves_ret].
  assert (Hpicks : Forall (fun s => conformsRow ai_suggestions_t s = true) (picksOf u)).
  { rewrite Forall_forall in *. intros s Hs. apply Hshown.
    unfold picksOf in Hs. apply filter_In in Hs. exact (proj1 Hs). }
  destruct (picksOf u) as [|p ps]; [apply preserves_ret|].
  apply preserves_bind; [apply preserves_now|intros occurred_at].
  apply conforms_bind_dbInsert.
  - rewrite Forall_forall in *. intros r Hr. apply in_map_iff in Hr.
    destruct Hr as (s & <- & Hs). apply aiOrderRow_conforms, Hpicks, Hs.
  - intros message. conforms_walk.
  - intros env instant. apply preserves_bind; [|intros _; conforms_walk].
    apply preserves_forEach_in. intros inserted Hin.
    destruct (stamp_returns_id env instant 0 _ ["id"] inserted eq_refl Hin) as [s ->].
    apply logEvent_conforms. simpl. tauto.
Qed.

Lemma runEffects_conforms (before : list Effect) (mounting : bool) (rendered current : UI) :
  preserves (fieldwise anyStore anyUI (emittedSince before conforms))
            (runEffects mounting rendered current).
Proof. conforms_walk. Qed.

(** X21. Every insert and update a user event sends is one the schema
    of the store lets through, provided the AI suggestions on screen are
    rows of their table and the reply of the AI function, which [runAi]
    does not check, has the shape declared for it ([AiFunctionResult]:
    named diagnoses and recommendations, a number for a probability): each
    key is a column of the table and holds a value of its type, no
    [not null] column is given [null] or left out unless it has a default,
    and the [source] and [actor_type] sent are among those the [check]
    constraints allow. *)
Theorem X21_requests_fit_the_schema (env : Env) (a : Action) (w : World) :
  Forall (fun s => conformsRow ai_suggestions_t s = true) (aiSuggestions (ui w)) ->
  stepEmits conforms env a w.
Proof.
  intros Hshown. unfold stepEmits. apply fieldwise_trace. unfold step.
  apply (runEffects_conforms (trace w) false).
  apply (runEffects_conforms (trace w) (isReload a)).
  apply (handle_conforms (trace w) a (ui w) Hshown).
  apply fieldwise_trace_start.
Qed.

Lemma X21_witness :
  Forall (fun s => conformsRow ai_suggestions_t s = true) (aiSuggestions (ui ticked)) /\
  stepEmits conforms calmEnv ApplyAiOrders ticked.
Proof.
  assert (H : Forall (fun s => conformsRow ai_suggestions_t s = true) (aiSuggestions (ui ticked))).
  { apply Forall_forall. apply forallb_forall. vm_compute. reflexivity. }
  split; [exact H|]. exact (X21_requests_fit_the_schema calmEnv ApplyAiOrders ticked H).
Defined.

(** ** The AI function *)

Module AiAnalyzeFacts.
Import AiAnalyze.

Lemma ok_false_allowed (resp : Fetched) :
  ok resp = false -> allowsBody (code resp) = true -> 300 <= code resp <= 599.
Proof.
  unfold ok, allowsBody. intros Hok Hallow.
  apply andb_prop in Hallow. destruct Hallow as (Hrange & _).
  apply andb_prop in Hrange. destruct Hrange as (Hlo & Hhi).
  apply Nat.leb_le in Hlo, Hhi. rewrite (proj2 (Nat.leb_le _ _) Hlo) in Hok.
  apply Nat.leb_gt in Hok. lia.
Qed.

Ltac walk :=
  repeat match goal with
         | _ => progress cbn [negb fst snd status headers body jsonResponse caught]
         | |- context [String.eqb (method ?r) ?m] => destruct (String.eqb (method r) m) eqn:?
         | |- context [match nonEmptyId ?k with _ => _ end] => destruct (nonEmptyId k) eqn:?
         | |- context [match payload ?r with _ => _ end] => destruct (payload r) eqn:?
         | |- context [match fetch ?h ?c with _ => _ end] => destruct (fetch h c) eqn:?
         | |- context [match parsed ?r with _ => _ end] => destruct (parsed r) eqn:?
         | |- context [ok ?r] => destruct (ok r) eqn:?
         | |- context [allowsBody ?c] => destruct (allowsBody c) eqn:?
         | |- context [truthy ?v] => destruct (truthy v) eqn:?
         | |- context [match parse ?h ?v with _ => _ end] => destruct (parse h v) eqn:?
         end.

End AiAnalyzeFacts.

(** X17. Every response of the AI function carries the three CORS
    headers. The answer to a preflight is the plain text "ok"; every other
    response is declared and sent as JSON. *)
Theorem X17_serve_cors (h : AiAnalyze.Host) (req : AiAnalyze.Request) :
  let r := fst (AiAnalyze.serve h req) in
  (forall header, In header AiAnalyze.cors -> In header (AiAnalyze.headers r)) /\
  (AiAnalyze.method req = "OPTIONS" ->
   r = {| AiAnalyze.status := 200; AiAnalyze.headers := AiAnalyze.cors;
          AiAnalyze.body := AiAnalyze.Text "ok" |}) /\
  (AiAnalyze.method req <> "OPTIONS" ->
   In ("Content-Type", "application/json") (AiAnalyze.headers r) /\
   exists v, AiAnalyze.body r = AiAnalyze.Json v).
Proof.
  intros r. subst r. split; [|split].
  - intros header Hin. unfold AiAnalyze.serve. AiAnalyzeFacts.walk;
      solve [exact Hin | unfold AiAnalyze.jsonHeaders; apply in_or_app; left; exact Hin].
  - intros Hm. unfold AiAnalyze.serve. rewrite Hm. reflexivity.
  - intros Hm. apply String.eqb_neq in Hm. unfold AiAnalyze.serve. rewrite Hm.
    AiAnalyzeFacts.walk;
      (split; [unfold AiAnalyze.jsonHeaders; apply in_or_app; right; left; reflexivity
              |eexists; reflexivity]).
Qed.

(** X18. The AI function calls the model at most once, and only for a
    POST when the key is configured and the request body is readable
    JSON; that one call goes to the Gemini endpoint with the key, and its
    prompt ends with the patient's data. A preflight, any other method, a
    missing key or an unreadable body is answered without calling it. *)
Theorem X18_serve_calls (h : AiAnalyze.Host) (req : AiAnalyze.Request) :
  let calls := snd (AiAnalyze.serve h req) in
  (calls = [] \/
   exists key patientContext,
     AiAnalyze.method req = "POST" /\
     nonEmptyId (AiAnalyze.GEMINI_API_KEY h) = Some key /\
     AiAnalyze.payload req = Some patientContext /\
     calls = [AiAnalyze.modelCall h key patientContext]) /\
  (forall key patientContext,
      AiAnalyze.method req = "POST" ->
      nonEmptyId (AiAnalyze.GEMINI_API_KEY h) = Some key ->
      AiAnalyze.payload req = Some patientContext ->
      calls = [AiAnalyze.modelCall h key patientContext]) /\
  (forall call, In call calls ->
                exists key patientContext,
                  AiAnalyze.url call = (AiAnalyze.endpoint ++ key)%string /\
                  key <> "" /\
                  AiAnalyze.payload req = Some patientContext /\
                  AiAnalyze.field "text"
                    (AiAnalyze.first
                       (AiAnalyze.field "parts"
                          (AiAnalyze.first (AiAnalyze.field "contents" (AiAnalyze.content call)))))
                  = AiAnalyze.JStr (AiAnalyze.instructions
                                    ++ AiAnalyze.stringify h patientContext)).
Proof.
  intros calls.
  assert (H1 : calls = [] \/
               exists key patientContext,
                 AiAnalyze.method req = "POST" /\
                 nonEmptyId (AiAnalyze.GEMINI_API_KEY h) = Some key /\
                 AiAnalyze.payload req = Some patientContext /\
                 calls = [AiAnalyze.modelCall h key patientContext]).
  { subst calls. unfold AiAnalyze.serve.
    destruct (String.eqb (AiAnalyze.method req) "OPTIONS"); [left; reflexivity|].
    destruct (String.eqb (AiAnalyze.method req) "POST") eqn:Hpost; [|left; reflexivity].
    apply String.eqb_eq in Hpost. cbn [negb].
    destruct (nonEmptyId (AiAnalyze.GEMINI_API_KEY h)) as [key|]; [|left; reflexivity].
    destruct (AiAnalyze.payload req) as [patientContext|]; [|left; reflexivity].
    right. exists key, patientContext. repeat (split; [reflexivity || exact Hpost|]).
    AiAnalyzeFacts.walk; reflexivity. }
  split; [exact H1|]. split.
  - intros key patientContext Hpost Hkey Hbody. subst calls. unfold AiAnalyze.serve.
    rewrite Hpost, Hkey, Hbody. cbn [String.eqb Ascii.eqb Bool.eqb negb].
    AiAnalyzeFacts.walk; reflexivity.
  - intros call Hin. destruct H1 as [H1|(key & patientContext & _ & Hkey & Hbody & H1)];
      rewrite H1 in Hin; [destruct Hin|].
    destruct Hin as [<-|[]]. exists key, patientContext.
    split; [reflexivity|]. split; [|split; [exact Hbody|reflexivity]].
    intros ->. unfold nonEmptyId in Hkey.
    destruct (AiAnalyze.GEMINI_API_KEY h) as [k|]; [|discriminate].
    destruct (JsString.truthy k) eqn:Ht; [|discriminate]. injection Hkey as ->. discriminate.
Qed.

(** X19. What the status of a response of the AI function tells. Apart
    from the preflight, a 200 is sent only when the model answered with a
    success status and a text that parses as JSON, and its body is that
    parsed JSON. Every response with another status is a JSON object with
    an [error] key. The status is 200, 405, 500 or 502, or else the error
    status of the model (300-599), passed on. *)
Theorem X19_serve_status (h : AiAnalyze.Host) (req : AiAnalyze.Request) :
  let r := fst (AiAnalyze.serve h req) in
  (AiAnalyze.method req <> "OPTIONS" ->
   AiAnalyze.status r = 200 ->
   exists key patientContext resp data result,
     nonEmptyId (AiAnalyze.GEMINI_API_KEY h) = Some key /\
     AiAnalyze.payload req = Some patientContext /\
     AiAnalyze.fetch h (AiAnalyze.modelCall h key patientContext) = Some resp /\
     AiAnalyze.ok resp = true /\
     AiAnalyze.parsed resp = Some data /\
     AiAnalyze.truthy (AiAnalyze.modelText data) = true /\
     AiAnalyze.parse h (AiAnalyze.modelText data) = Some result /\
     AiAnalyze.body r = AiAnalyze.Json result) /\
  (AiAnalyze.status r <> 200 -> AiAnalyze.tellsError (AiAnalyze.body r)) /\
  (In (AiAnalyze.status r) [200; 405; 500; 502] \/
   exists call resp,
     In call (snd (AiAnalyze.serve h req)) /\
     AiAnalyze.fetch h call = Some resp /\
     AiAnalyze.ok resp = false /\
     AiAnalyze.status r = AiAnalyze.code resp /\
     300 <= AiAnalyze.code resp <= 599).
Proof.
  intros r. subst r. split; [|split].
  - intros Hm. apply String.eqb_neq in Hm. unfold AiAnalyze.serve. rewrite Hm.
    AiAnalyzeFacts.walk; intros Hs; try discriminate Hs;
      first [ exfalso;
              match goal with
              | Hok : AiAnalyze.ok ?resp = false, Ha : AiAnalyze.allowsBody _ = true |- _ =>
                  pose proof (AiAnalyzeFacts.ok_false_allowed resp Hok Ha); lia
              end
            | do 5 eexists; repeat split; first [reflexivity | eassumption] ].
  - unfold AiAnalyze.serve, AiAnalyze.tellsError.
    AiAnalyzeFacts.walk; intros Hs; try (exfalso; apply Hs; reflexivity);
      do 2 eexists; reflexivity.
  - unfold AiAnalyze.serve.
    AiAnalyzeFacts.walk; try (left; simpl; tauto).
    right. do 2 eexists. split; [left; reflexivity|]. split; [eassumption|].
    split; [assumption|]. split; [reflexivity|].
    apply AiAnalyzeFacts.ok_false_allowed; assumption.
Qed.

Lemma X17_witness :
  AiAnalyze.method AiAnalyze.analysis <> "OPTIONS" /\
  In ("Content-Type", "application/json")
     (AiAnalyze.headers (fst (AiAnalyze.serve AiAnalyze.throttled AiAnalyze.analysis))).
Proof.
  assert (Hm : AiAnalyze.method AiAnalyze.analysis <> "OPTIONS") by discriminate.
  split; [exact Hm|].
  exact (proj1 (proj2 (proj2 (X17_serve_cors AiAnalyze.throttled AiAnalyze.analysis)) Hm)).
Defined.

Lemma X18_witness :
  AiAnalyze.method AiAnalyze.analysis = "POST" /\
  nonEmptyId (AiAnalyze.GEMINI_API_KEY AiAnalyze.throttled) = Some "k" /\
  AiAnalyze.payload AiAnalyze.analysis = Some (AiAnalyze.JObj []) /\
  snd (AiAnalyze.serve AiAnalyze.throttled AiAnalyze.analysis)
  = [AiAnalyze.modelCall AiAnalyze.throttled "k" (AiAnalyze.JObj [])].
Proof.
  repeat (split; [reflexivity|]).
  exact (proj1 (proj2 (X18_serve_calls AiAnalyze.throttled AiAnalyze.analysis))
               "k" (AiAnalyze.JObj []) eq_refl eq_refl eq_refl).
Defined.

Lemma X19_witness :
  AiAnalyze.status (fst (AiAnalyze.serve AiAnalyze.throttled AiAnalyze.analysis)) <> 200 /\
  AiAnalyze.tellsError
    (AiAnalyze.body (fst (AiAnalyze.serve AiAnalyze.throttled AiAnalyze.analysis))).
Proof.
  assert (Hs : AiAnalyze.status (fst (AiAnalyze.serve AiAnalyze.throttled AiAnalyze.analysis))
               <> 200) by (vm_compute; discriminate).
  split; [exact Hs|].
  exact (proj1 (proj2 (X19_serve_status AiAnalyze.throttled AiAnalyze.analysis)) Hs).
Defined.

(** ** The first version of the workstation *)

Module PrototypeFacts.
Import Prototype.

Lemma existsb_id (id : Z) (l : list Note) :
  existsb (fun n => Z.eqb (n_id n) id) l = true <-> In id (map n_id l).
Proof.
  rewrite existsb_exists, in_map_iff. split.
  - intros (n & Hin & He). apply Z.eqb_eq in He. exists n. split; assumption.
  - intros (n & He & Hin). exists n. split; [exact Hin|apply Z.eqb_eq; exact He].
Qed.

Lemma ordersOf_spec (b : Browser) (index : nat) (rs : list Recommendation) :
  map (fun o => (o_code o, o_name o)) (ordersOf b index rs)
  = map (fun r => (r_code r, r_name r)) rs /\
  Forall (fun o => o_status o = "Sent") (ordersOf b index rs).
Proof.
  revert index. induction rs as [|r rest IH]; intros index; simpl.
  - split; constructor.
  - destruct (IH (S index)) as [Hm Hs]. rewrite Hm. split; [reflexivity|].
    constructor; [reflexivity|exact Hs].
Qed.

End PrototypeFacts.

(** X22. In the first version, saving the note being edited always
    closes the editor and leaves the orders alone. When its identifier
    is that of a listed note, the list keeps its length and identifiers,
    every listed note of that identifier becomes the edited note and the
    others stay where they are; otherwise the note is put on top under
    the identifier [Date.now()] and nothing is lost. *)
Theorem X22_prototype_saveNote (b : Prototype.Browser) (s : Prototype.State)
    (draft : Prototype.Note) :
  Prototype.editingNote s = Some draft ->
  let s' := Prototype.handleSaveNote b s in
  let listed := In (Prototype.n_id draft) (map Prototype.n_id (Prototype.notes s)) in
  Prototype.editingNote s' = None /\
  Prototype.orders s' = Prototype.orders s /\
  (listed ->
   map Prototype.n_id (Prototype.notes s') = map Prototype.n_id (Prototype.notes s) /\
   In draft (Prototype.notes s') /\
   forall i n, nth_error (Prototype.notes s) i = Some n ->
               nth_error (Prototype.notes s') i
               = Some (if Z.eqb (Prototype.n_id n) (Prototype.n_id draft) then draft else n)) /\
  (~ listed ->
   Prototype.notes s'
   = Prototype.withId (Prototype.dateNow b 0) draft :: Prototype.notes s).
Proof.
  intros Hdraft s' listed. subst s' listed. unfold Prototype.handleSaveNote. rewrite Hdraft.
  cbn [Prototype.editingNote Prototype.orders Prototype.notes].
  split; [reflexivity|]. split; [reflexivity|]. split.
  - intros Hin. rewrite (proj2 (PrototypeFacts.existsb_id _ _) Hin).
    split; [|split].
    + rewrite map_map. apply map_ext_in. intros n _.
      destruct (Z.eqb_spec (Prototype.n_id n) (Prototype.n_id draft)); congruence.
    + apply in_map_iff in Hin. destruct Hin as (n & He & Hn).
      apply in_map_iff. exists n. split; [|exact Hn].
      rewrite He, Z.eqb_refl. reflexivity.
    + intros i n Hi. rewrite nth_error_map, Hi. reflexivity.
  - intros Hout.
    destruct (existsb _ (Prototype.notes s)) eqn:E; [|reflexivity].
    exfalso. apply Hout. apply PrototypeFacts.existsb_id. exact E.
Qed.

Lemma X22_witness :
  Prototype.editingNote Prototype.retitling <> None /\
  map Prototype.n_title
      (Prototype.notes (Prototype.handleSaveNote Prototype.midnight Prototype.retitling))
  = ["Chest pain"].
Proof.
  split; [discriminate|].
  destruct (X22_prototype_saveNote Prototype.midnight Prototype.retitling _ eq_refl)
    as (_ & _ & Hlisted & _).
  destruct (Hlisted (or_introl eq_refl)) as (_ & _ & Hnth).
  specialize (Hnth 0%nat _ eq_refl).
  destruct (Prototype.notes (Prototype.handleSaveNote Prototype.midnight Prototype.retitling))
    as [|n [|n' rest]] eqn:E; try discriminate Hnth.
  - injection Hnth as ->. reflexivity.
  - exfalso. pose proof (f_equal (@length _) E) as Hl. vm_compute in Hl. discriminate Hl.
Defined.

(** X23. In the first version, orders are only ever added on top:
    [handleAddOrder] never throws, ignores what trims to nothing, and
    otherwise puts one order with status "Sent" before the others, with
    the code and name the database-backed [addOrder] gives the same
    text; [applyAiOrders] puts before the others one "Sent" order per
    ticked recommendation, in the order recommended (the recommendations
    with those struck out whose code is not ticked), and clears the AI
    result and the ticks. *)
Theorem X23_prototype_orders (b : Prototype.Browser) (s : Prototype.State) :
  (forall rawInput,
      exists s', Prototype.handleAddOrder b rawInput s = Some s' /\
                 Stripped rawInput (JsString.trim rawInput) /\
                 (JsString.trim rawInput = "" -> s' = s) /\
                 match OrderText.parse (Prototype.upperCase b) rawInput with
                 | None => s' = s
                 | Some parsed =>
                     exists o, Prototype.orders s' = o :: Prototype.orders s /\
                               Some (Prototype.o_code o) = OrderText.code parsed /\
                               Prototype.o_name o = OrderText.name parsed /\
                               Prototype.o_status o = "Sent" /\
                               Prototype.orderInput s' = "" /\
                               Prototype.notes s' = Prototype.notes s
                 end) /\
  (let s' := Prototype.applyAiOrders b s in
   let recommendations :=
     match Prototype.aiResult s with
     | Some result => Prototype.recommendations result
     | None => []
     end in
   exists picks added,
     Kept (fun r => In (Prototype.r_code r) (Prototype.selectedAiOrders s))
          recommendations picks /\
     Prototype.orders s' = added ++ Prototype.orders s /\
     map (fun o => (Prototype.o_code o, Prototype.o_name o)) added
     = map (fun r => (Prototype.r_code r, Prototype.r_name r)) picks /\
     Forall (fun o => Prototype.o_status o = "Sent") added /\
     Prototype.aiResult s' = None /\
     Prototype.selectedAiOrders s' = []).
Proof.
  split.
  - intros rawInput. unfold Prototype.handleAddOrder, OrderText.parse, OrderText.parseTrimmed.
    pose proof (JsStringFacts.trim_stripped rawInput) as Hstripped.
    destruct (JsStringFacts.trim_head rawInput) as [E|(c & r & E & Hc)]; rewrite E in *.
    + exists s. split; [reflexivity|]. split; [exact Hstripped|]. split; reflexivity.
    + cbn [JsString.truthy negb].
      destruct (OrderTextFacts.split_firstToken (String c r)) as (pieces & Hsplit & Hjoin).
      rewrite Hsplit. rewrite (OrderTextFacts.firstToken_nonempty c r Hc).
      eexists. split; [reflexivity|]. split; [exact Hstripped|]. split; [discriminate|].
      eexists. cbn. repeat split.
  - intros s' recommendations. subst s' recommendations. unfold Prototype.applyAiOrders.
    cbn [Prototype.orders Prototype.aiResult Prototype.selectedAiOrders].
    exists (Prototype.recommended s), (Prototype.ordersOf b 0 (Prototype.recommended s)).
    destruct (PrototypeFacts.ordersOf_spec b 0 (Prototype.recommended s)) as [Hm Hs].
    split; [|split; [reflexivity|split; [exact Hm|split; [exact Hs|split; reflexivity]]]].
    unfold Prototype.recommended.
    destruct (Prototype.aiResult s) as [result|]; [|constructor].
    apply filter_kept. intros r. unfold Prototype.includes.
    rewrite existsb_exists. split.
    + intros (x & Hx & He). apply String.eqb_eq in He. subst x. exact Hx.
    + intros Hsel. exists (Prototype.r_code r). split; [exact Hsel|apply String.eqb_refl].
Qed.

Lemma X23_witness :
  let blank := utf8 [227; 128; 128; 32] in
  blank <> "" /\
  JsString.trim blank = "" /\
  Prototype.handleAddOrder Prototype.midnight blank Prototype.retitling
  = Some Prototype.retitling /\
  exists s',
    Prototype.handleAddOrder Prototype.midnight " cbc stat " Prototype.retitling = Some s' /\
    map (fun o => (Prototype.o_code o, Prototype.o_name o)) (Prototype.orders s')
    = [("CBC", "stat"); ("IV001", "N/S 500ml IV drip")].
Proof.
  intros blank.
  assert (Hblank : JsString.trim blank = "") by (vm_compute; reflexivity).
  destruct (X23_prototype_orders Prototype.midnight Prototype.retitling) as (Hadd & _).
  split; [vm_compute; discriminate|]. split; [exact Hblank|]. split.
  - destruct (Hadd blank) as (s' & Hs' & _ & Hsame & _).
    rewrite Hs'. f_equal. exact (Hsame Hblank).
  - destruct (Hadd " cbc stat ") as (s' & Hs' & _ & _ & Hparsed).
    exists s'. split; [exact Hs'|].
    assert (Hparse : OrderText.parse (Prototype.upperCase Prototype.midnight) " cbc stat "
                     = Some {| OrderText.code := Some "CBC"; OrderText.name := "stat" |})
      by (vm_compute; reflexivity).
    rewrite Hparse in Hparsed.
    destruct Hparsed as (o & Horders & Hcode & Hname & _).
    rewrite Horders. cbn [map OrderText.code OrderText.name] in *.
    injection Hcode as ->. rewrite Hname. reflexivity.
Defined.

(** ** Instances on the ward *)

Lemma X1_witness :
  isAiLoading (ui (exec (setIsAiLoading true) calmEnv ward)) = true /\
  runAi (ui (exec (setIsAiLoading true) calmEnv ward)) calmEnv
        (exec (setIsAiLoading true) calmEnv ward)
  = (Normal tt, exec (setIsAiLoading true) calmEnv ward).
Proof.
  split; [reflexivity|].
  exact (proj2 (proj2 (X1_runAi_settles calmEnv (exec (setIsAiLoading true) calmEnv ward)))
               eq_refl).
Defined.

Lemma X2_witness :
  reloadAnswered calmEnv (clock ticked) = true /\
  Forall (fun x => ofEncounter "u04-0" x /\ In x (ddx_entries_rows (store ticked)))
         (ddx (ui (snd (fetchEncounterData "u04-0" calmEnv ticked)))).
Proof.
  split; [reflexivity|].
  destruct (proj1 (proj2 (proj2 (X2_fetchEncounterData_screen "u04-0" calmEnv ticked)))
                  eq_refl) as (_ & _ & _ & _ & _ & H).
  exact H.
Defined.

Lemma X3_witness :
  rejected (storeOutcome calmEnv ai_runs_t (clock ticked)) = false /\
  rejected (storeOutcome calmEnv ai_suggestions_t (1 + clock ticked)) = false /\
  suggestionsOfRunShown (ui (snd (fetchLatestAi "u04-0" calmEnv ticked))).
Proof.
  split; [reflexivity|]. split; [reflexivity|].
  exact (proj1 (proj2 (X3_fetchLatestAi_consistent "u04-0" calmEnv ticked eq_refl eq_refl))).
Defined.

Lemma X16_witness :
  let w := drafting "0.4" in
  let row := humanDdxRow calmEnv (ui w) "u04-0" (clock w) in
  let blank := step calmEnv (TypeInto orderInput (utf8 [227; 128; 128; 9])) ward in
  nonEmptyId (selectedEncounterId (ui w)) = Some "u04-0" /\
  entryRow calmEnv DdxEntry "u04-0" (ui w) (clock w) = Some row /\
  storeOutcome calmEnv ddx_entries_t (clock w) = Ok /\
  rowsOf ddx_entries_t (store (exec (handle AddHumanDdx (ui w)) calmEnv w))
  = rowsOf ddx_entries_t (store w) ++ stamp calmEnv (clock w) 0 [row] /\
  nonEmptyId (selectedEncounterId (ui blank)) = Some "u04-0" /\
  inputs (ui blank) orderInput <> "" /\
  entryRow calmEnv OrderEntry "u04-0" (ui blank) (clock blank) = None /\
  handle AddOrder (ui blank) calmEnv blank = (Normal tt, blank).
Proof.
  intros w row blank.
  assert (Hsel : nonEmptyId (selectedEncounterId (ui w)) = Some "u04-0")
    by (vm_compute; reflexivity).
  assert (Hrow : entryRow calmEnv DdxEntry "u04-0" (ui w) (clock w) = Some row)
    by (vm_compute; reflexivity).
  assert (Hsel' : nonEmptyId (selectedEncounterId (ui blank)) = Some "u04-0")
    by (vm_compute; reflexivity).
  assert (Hnone : entryRow calmEnv OrderEntry "u04-0" (ui blank) (clock blank) = None)
    by (vm_compute; reflexivity).
  split; [exact Hsel|]. split; [exact Hrow|]. split; [reflexivity|].
  split.
  { destruct (X16_entries calmEnv w DdxEntry "u04-0" Hsel) as (_ & _ & _ & Hsent).
    exact (proj1 (proj2 (Hsent row Hrow) eq_refl)). }
  split; [exact Hsel'|]. split; [vm_compute; discriminate|]. split; [exact Hnone|].
  destruct (X16_entries calmEnv blank OrderEntry "u04-0" Hsel') as (_ & _ & Hignored & _).
  exact (Hignored Hnone).
Defined.
